(** * Ingestion service: fingerprint, retry, plugin registry, batch buffer,
      in-flight set and the per-message dispatch loop.

    A shallow embedding of
      - [core/util/retry.ts]       ([retry]),
      - [core/util/fingerprint.ts] ([fingerprint]),
      - [core/schemas.ts]          ([RawMessageSchema], [DomainEventSchema]),
      - [plugins/example/normalizer.ts] ([normalize], [deriveSensorType]),
      - [index.ts]                 ([validatePluginPath], the plugin loading
        loops, [flushBatch], the [eachMessage] callback),
    and, in the last part,
      - [plugins/example/upserter.ts] ([upsert]),
      - [core/config.ts], [core/kafka.ts] ([getEnvConfig], [initKafka]),
      - [core/minio.ts] ([ensureBucketExists], [uploadObject],
        [uploadFile]),
      - the test CLIs ([loadDotEnv], [simpleHash], [createCustomRawData],
        [generateSampleRawData]); there [simpleHash] computes with 32-bit
        integers, which are integers of [Z] with the wrap-around written
        out.

    Conventions of the embedding.
      - A JavaScript string is a [string]: a sequence of code units, here
        restricted to the range 0..255.  Comparison of strings is by code
        unit, as in [Array.prototype.sort] without a comparator.
      - A JavaScript number is only ever copied and printed by the code in
        scope, never computed with; it is carried by the text that
        [Number::toString] prints for it ([VNum "21.5"]).
      - A plain object is the list of its own enumerable properties, in the
        order [Object.keys] lists them; keys are pairwise distinct.
      - What Node, kafkajs and the storage driver do is not part of the
        repository: SHA-256, [JSON.parse], [JSON.stringify], the UTF-8
        reading of a [Buffer], [Math.random], the module loader and the
        Kafka producer are parameters of the definitions that call them.
        Where a statement depends on how a [Buffer] reads as UTF-8, the
        parameter is the decoder of [Utf8], with the text of a message
        written as its UTF-8 bytes.
      - An [async] function is a state transformer that returns how its
        promise settled; what other tasks do while it is suspended at an
        [await] is supplied by the environment: handlers that push onto
        the buffer or, for [flushBatch], any tasks at all. *)

From Equations Require Import Equations.
From Stdlib Require Import ZArith Ascii String List Permutation.
From Stdlib Require QArith.
From stdpp Require Import base option list sorting strings gmap.

Local Open Scope string_scope.
Local Open Scope list_scope.
Local Set Warnings "-register-all".

(* ===================================================================== *)
(** ** JavaScript values *)
(* ===================================================================== *)

Module JS.

Inductive value : Type :=
| VUndefined
| VNull
| VBool (b : bool)
| VNum (shown : string)
| VStr (s : string)
| VArr (items : list value)
| VObj (props : list (string * value)).

(** [Array.prototype.join]. *)
Definition join (sep : string) (parts : list string) : string :=
  String.concat sep parts.

(** [ToString], as a template literal applies it to a substitution. *)
Fixpoint ToString (v : value) : string :=
  match v with
  | VUndefined => "undefined"
  | VNull => "null"
  | VBool true => "true"
  | VBool false => "false"
  | VNum shown => shown
  | VStr s => s
  | VArr items =>
      join "," (List.map (fun x => match x with
                                   | VUndefined | VNull => ""
                                   | _ => ToString x
                                   end) items)
  | VObj _ => "[object Object]"
  end.

(** Property read on a property list: [undefined] when absent. *)
Fixpoint lookup_prop (k : string) (props : list (string * value)) : value :=
  match props with
  | [] => VUndefined
  | (k', v) :: rest => if String.eqb k k' then v else lookup_prop k rest
  end.

(** [v[k]] (also [v.k]); reading a property of a primitive that has none
    gives [undefined].  The code in scope never reads a property of
    [null] or [undefined] without [?.]. *)
Definition get (v : value) (k : string) : value :=
  match v with
  | VObj props => lookup_prop k props
  | _ => VUndefined
  end.

(** [Object.keys]. *)
Definition keys (props : list (string * value)) : list string :=
  List.map fst props.

(** [Array.prototype.sort()] with the default comparison. *)
Definition sort (l : list string) : list string :=
  merge_sort String.le l.

(** [typeof v === "string"] and friends. *)
Definition is_string (v : value) : bool :=
  match v with VStr _ => true | _ => false end.

Definition is_object (v : value) : bool :=
  match v with VObj _ => true | _ => false end.

End JS.
Import JS.

(* ===================================================================== *)
(** ** core/util/fingerprint.ts *)
(* ===================================================================== *)

Module Fingerprint.

(** One ["key=value"] piece of the pre-hash text. *)
Definition pair_text (obj : list (string * value)) (k : string) : string :=
  k ++ "=" ++ ToString (lookup_prop k obj).

(** The text that is hashed: [Object.keys(obj).sort().map(...).join("|")]. *)
Definition ordered (obj : list (string * value)) : string :=
  join "|" (List.map (pair_text obj) (JS.sort (keys obj))).

(** [fingerprint], over the digest function
    [s => createHash("sha256").update(s).digest("hex")]. *)
Definition fingerprint (sha256_hex : string -> string)
    (obj : list (string * value)) : string :=
  sha256_hex (ordered obj).

End Fingerprint.
Import Fingerprint.

(* ===================================================================== *)
(** ** core/util/retry.ts *)
(* ===================================================================== *)

Module Retry.

(** How a promise settles. *)
Inductive settled (T E : Type) : Type :=
| Fulfilled (t : T)
| Rejected (e : E).
Arguments Fulfilled {T E} t.
Arguments Rejected {T E} e.

(** What [retry] asks of the event loop, over the state [W] of everything the
    operation can touch: a draw of [Math.random()], and the suspension
    [await new Promise(resolve => setTimeout(resolve, delay))]. *)
Record Runtime (W : Type) : Type := {
  Math_random : W -> QArith_base.Q * W;
  setTimeout : QArith_base.Q -> W -> W
}.
Arguments Math_random {W} _ _.
Arguments setTimeout {W} _ _ _.

(** The [opts] argument; an absent field is [undefined]. *)
Record RetryOpts : Type := {
  retries : option Z;
  baseMs : option QArith_base.Q
}.

Definition no_opts : RetryOpts := {| retries := None; baseMs := None |}.

(** [expDelay * jitterFactor] for the failure number [attempt], as the
    number the expression denotes.  The code evaluates it in binary64 and
    passes the rounded result to [setTimeout]; nothing below depends on
    the length of a sleep. *)
Definition delay (baseMs : QArith_base.Q) (attempt : Z)
    (random : QArith_base.Q) : QArith_base.Q :=
  let expDelay :=
    QArith_base.Qmult baseMs
      (QArith_base.Qpower (QArith_base.inject_Z 2) (attempt - 1)) in
  let jitterFactor :=
    QArith_base.Qplus (QArith_base.Qmake 3 4)
      (QArith_base.Qmult random (QArith_base.Qmake 1 2)) in
  QArith_base.Qmult expDelay jitterFactor.

(** The [while (true)] loop, entered with [attempt] failures behind it.  It
    goes round again only while [attempt + 1 <= retries], which bounds it. *)
Equations? retry_loop {W T E : Type} (rt : Runtime W)
    (fn : W -> settled T E * W) (retries : Z) (baseMs : QArith_base.Q)
    (attempt : Z) (w : W) : settled T E * W
    by wf (Z.to_nat (retries - attempt)) lt :=
  retry_loop rt fn retries baseMs attempt w with fn w => {
    | (Fulfilled t, w1) => (Fulfilled t, w1);
    | (Rejected err, w1) with Z_gt_le_dec (attempt + 1) retries => {
      | left _ => (Rejected err, w1);
      | right _ with Math_random rt w1 => {
        | (random, w2) =>
            retry_loop rt fn retries baseMs (attempt + 1)
              (setTimeout rt (delay baseMs (attempt + 1) random) w2) } } }.
Proof. lia. Qed.

(** [retry(fn, opts)]. *)
Definition retry {W T E : Type} (rt : Runtime W) (fn : W -> settled T E * W)
    (opts : RetryOpts) (w : W) : settled T E * W :=
  retry_loop rt fn (default 3%Z (retries opts))
    (default (QArith_base.inject_Z 200) (baseMs opts)) 0 w.

End Retry.
Import Retry.

(* ===================================================================== *)
(** ** Thrown values *)
(* ===================================================================== *)

(** What a [catch] clause receives, as far as the code in scope reads it:
    [err.name] (absent on a thrown value that is not an [Error]) and the
    message. *)
Record exn : Type := {
  exn_name : option string;
  exn_message : string
}.

(** [new Error(message)]. *)
Definition Error (message : string) : exn :=
  {| exn_name := Some "Error"; exn_message := message |}.

(** The [ZodError] that [schema.parse] throws. *)
Definition ZodError (message : string) : exn :=
  {| exn_name := Some "ZodError"; exn_message := message |}.

(* ===================================================================== *)
(** ** core/schemas.ts *)
(* ===================================================================== *)

Module Schemas.

(** [z.string()]. *)
Definition z_string (v : value) : bool := is_string v.

(** [z.string().min(1)]. *)
Definition z_string_min1 (v : value) : bool :=
  match v with
  | VStr s => negb (String.eqb s "")
  | _ => false
  end.

(** [z.number()]: a number that is not [NaN]. *)
Definition z_number (v : value) : bool :=
  match v with
  | VNum shown => negb (String.eqb shown "NaN")
  | _ => false
  end.

(** [RawMessageSchema.safeParse(obj).success]; [data] is [z.unknown()] and
    accepts every value, an absent one included. *)
Definition RawMessageSchema_ok (obj : value) : bool :=
  is_object obj
  && z_string_min1 (get obj "tool")
  && z_string_min1 (get obj "runId").

(** [DomainEventSchema.safeParse(obj).success]. *)
Definition DomainEventSchema_ok (obj : value) : bool :=
  is_object obj
  && z_string (get obj "specVersion")
  && (is_object (get obj "event")
      && z_string_min1 (get (get obj "event") "event_type")
      && z_string_min1 (get (get obj "event") "fingerprint"))
  && is_object (get obj "meta").

(** [INormalizer]: synchronous; returns an array of events or [null], or
    throws. *)
Definition INormalizer : Type := value -> settled (option (list value)) exn.

(** [IUpserter] over the world [W] it writes to: how the returned promise
    settles, and the world it leaves. *)
Definition IUpserter (W : Type) : Type := value -> W -> settled unit exn * W.

End Schemas.
Import Schemas.

(* ===================================================================== *)
(** ** plugins/example/normalizer.ts *)
(* ===================================================================== *)

Module ExampleNormalizer.

(** [String.prototype.toLowerCase] on one code unit below 256: the letters
    A-Z, and the Latin-1 capitals U+00C0..U+00DE other than U+00D7. *)
Definition lower_unit (a : ascii) : ascii :=
  let n := nat_of_ascii a in
  if ((65 <=? n) && (n <=? 90))%nat
     || ((192 <=? n) && (n <=? 222) && negb (n =? 215))%nat
  then ascii_of_nat (n + 32)
  else a.

Fixpoint toLowerCase (s : string) : string :=
  match s with
  | EmptyString => EmptyString
  | String a s' => String (lower_unit a) (toLowerCase s')
  end.

(** [s.includes(sub)]. *)
Fixpoint includes (s sub : string) : bool :=
  String.prefix sub s
  || match s with
     | EmptyString => false
     | String _ s' => includes s' sub
     end.

Definition deriveSensorType (sensorId : string) : string :=
  let id := toLowerCase sensorId in
  if includes id "temp" || includes id "temperature" then "temperature"
  else if includes id "humid" || includes id "moisture" then "humidity"
  else if includes id "pressure" || includes id "press" then "pressure"
  else if includes id "light" || includes id "lux" then "light"
  else if includes id "motion" || includes id "pir" then "motion"
  else if includes id "air" || includes id "co2" then "air_quality"
  else "generic".

(** What [RawSensorSchema.safeParse(raw).data] holds on success. *)
Record RawSensor : Type := {
  tool : string;
  schemaVersion : string;
  runId : string;
  sensorId : string;
  value_ : string;
  unit_ : string;
  location : string
}.

Definition as_string (v : value) : option string :=
  match v with VStr s => Some s | _ => None end.

Definition as_number (v : value) : option string :=
  match v with
  | VNum shown => if z_number v then Some shown else None
  | _ => None
  end.

(** [z.literal(lit)]. *)
Definition as_literal (lit : string) (v : value) : option string :=
  match v with
  | VStr s => if String.eqb s lit then Some s else None
  | _ => None
  end.

(** [RawSensorSchema.safeParse(raw)]: [None] when [success] is false. *)
Definition RawSensorSchema_safeParse (raw : value) : option RawSensor :=
  if negb (is_object raw) then None else
  tool ← as_literal "sensor_report" (get raw "tool");
  schemaVersion ← as_string (get raw "schemaVersion");
  runId ← as_string (get raw "runId");
  let data := get raw "data" in
  if negb (is_object data) then None else
  sensorId ← as_string (get data "sensorId");
  value_ ← as_number (get data "value");
  unit_ ← as_string (get data "unit");
  location ← as_string (get data "location");
  Some {| tool := tool; schemaVersion := schemaVersion; runId := runId;
          sensorId := sensorId; value_ := value_; unit_ := unit_;
          location := location |}.

(** The plugin's own [DomainEventSchema], applied to what it built. *)
Definition DomainEventSchema_ok (domain : value) : bool :=
  is_object domain
  && match get domain "specVersion" with
     | VStr s => String.eqb s "1.0"
     | _ => false
     end
  && (is_object (get domain "event")
      && match get (get domain "event") "event_type" with
         | VStr s => String.eqb s "SENSOR_READING"
         | _ => false
         end
      && z_string (get (get domain "event") "fingerprint"))
  && (let meta := get domain "meta" in
      is_object meta
      && z_string (get meta "sensorId")
      && z_string (get meta "sensorType")
      && z_number (get meta "value")
      && z_string (get meta "unit")
      && z_string (get meta "location")
      && z_string (get meta "toolRunId")
      && z_string (get meta "normalizerVersion")
      && z_string (get meta "source")
      && z_string (get meta "rawTool")
      && z_string (get meta "rawRunId")).

(** The object hashed into the event's fingerprint. *)
Definition fingerprint_fields (payload : RawSensor) : list (string * value) :=
  [ ("type", VStr "SENSOR_READING");
    ("sensor", VStr (sensorId payload));
    ("location", VStr (location payload));
    ("value", VNum (value_ payload));
    ("unit", VStr (unit_ payload)) ].

Definition normalize (sha256_hex : string -> string) : INormalizer :=
  fun raw =>
  match RawSensorSchema_safeParse raw with
  | None => Fulfilled None
  | Some parsed =>
      let sensorType := deriveSensorType (sensorId parsed) in
      let fp := fingerprint sha256_hex (fingerprint_fields parsed) in
      let domain :=
        VObj [ ("specVersion", VStr "1.0");
               ("event", VObj [ ("event_type", VStr "SENSOR_READING");
                                ("fingerprint", VStr fp) ]);
               ("meta", VObj [ ("sensorId", VStr (sensorId parsed));
                               ("sensorType", VStr sensorType);
                               ("value", VNum (value_ parsed));
                               ("unit", VStr (unit_ parsed));
                               ("location", VStr (location parsed));
                               ("toolRunId", VStr (runId parsed));
                               ("normalizerVersion", VStr "0.0.3-typed");
                               ("source", VStr "central");
                               ("rawTool", VStr (tool parsed));
                               ("rawRunId", VStr (runId parsed)) ]) ] in
      if DomainEventSchema_ok domain
      then Fulfilled (Some [domain])
      else Rejected (ZodError "invalid domain event")
  end.

End ExampleNormalizer.

(* ===================================================================== *)
(** ** index.ts: plugin paths and the plugin loading loops *)
(* ===================================================================== *)

Module Registry.

(** The character class [[a-zA-Z0-9/_-]]. *)
Definition path_char (a : ascii) : bool :=
  let n := nat_of_ascii a in
  (((97 <=? n) && (n <=? 122))
   || ((65 <=? n) && (n <=? 90))
   || ((48 <=? n) && (n <=? 57))
   || (n =? 47) || (n =? 95) || (n =? 45))%nat.

(** [pluginPath.replace(/[^a-zA-Z0-9/_-]/g, '')]. *)
Fixpoint clean (pluginPath : string) : string :=
  match pluginPath with
  | EmptyString => EmptyString
  | String a s => if path_char a then String a (clean s) else clean s
  end.

(** [s.split("/")]. *)
Fixpoint split_slash (s : string) : list string :=
  match s with
  | EmptyString => [EmptyString]
  | String a s' =>
      if Ascii.eqb a "/" then EmptyString :: split_slash s'
      else match split_slash s' with
           | [] => [String a EmptyString]
           | seg :: segs => String a seg :: segs
           end
  end.

(** The segments that remain of an absolute path: empty and ["."] segments
    dropped, [".."] removing the segment before it.  [kept] is reversed. *)
Fixpoint normalize_segments (segs kept : list string) : list string :=
  match segs with
  | [] => rev kept
  | seg :: rest =>
      if String.eqb seg "" || String.eqb seg "." then
        normalize_segments rest kept
      else if String.eqb seg ".." then normalize_segments rest (tail kept)
      else normalize_segments rest (seg :: kept)
  end.

Definition segments (path : string) : list string :=
  normalize_segments (split_slash path) [].

(** [path.resolve(from, to)] on POSIX, for an absolute [from]: [to] alone
    when it is absolute, [from] alone when [to] is empty, else [from/to];
    normalized, with no trailing slash. *)
Definition resolve (from to : string) : string :=
  let joined :=
    if String.prefix "/" to then to
    else if String.eqb to "" then from
    else (from ++ "/" ++ to)%string in
  ("/" ++ join "/" (segments joined))%string.

(** [fullPath.startsWith(basePath)]. *)
Definition startsWith (s pre : string) : bool := String.prefix pre s.

Definition validatePluginPath (dirname pluginPath : string)
  : settled string exn :=
  let baseDir := "plugins" in
  let cleanPath := clean pluginPath in
  let fullPath := resolve dirname cleanPath in
  let basePath := resolve dirname baseDir in
  if negb (startsWith fullPath basePath) then
    Rejected (Error ("Invalid plugin path: " ++ pluginPath
                     ++ " resolves outside allowed directory"))
  else Fulfilled cleanPath.

(** A line of the log. *)
Inductive log_line : Type :=
| Info (msg : string) (subject : string)
| Warn (msg : string) (subject : string)
| LogError (msg : string).

(** One round of a loading loop, for the entry [(name, mod)]; [import]
    is [specifier => (await import(specifier)).default]. *)
Definition load_entry {H : Type} (kind : string) (dirname : string)
    (import : string -> settled H exn)
    (acc : gmap string H * list log_line) (entry : string * string)
  : gmap string H * list log_line :=
  let '(registry, log) := acc in
  let '(name, modPath) := entry in
  match validatePluginPath dirname modPath with
  | Rejected err =>
      (registry, log ++ [Warn (kind ++ " loading failed; skipped") name])
  | Fulfilled safePath =>
      match import ("./" ++ safePath ++ ".js")%string with
      | Rejected err =>
          (registry, log ++ [Warn (kind ++ " loading failed; skipped") name])
      | Fulfilled handler =>
          (<[name := handler]> registry, log ++ [Info ("loaded " ++ kind) name])
      end
  end.

(** A whole loading loop over [Object.entries(pluginMap)]. *)
Definition load_plugins {H : Type} (kind : string) (dirname : string)
    (import : string -> settled H exn) (entries : list (string * string))
  : gmap string H * list log_line :=
  fold_left (load_entry kind dirname import) entries (∅, []).

(** Where the module that [import("./" + safePath + ".js")] names lives,
    for a relative [safePath]. *)
Definition module_file (dirname safePath : string) : string :=
  resolve dirname ("./" ++ safePath ++ ".js").

(** [path] lies in the directory [dir] or below it: segment by segment. *)
Definition inside (dir path : string) : bool :=
  bool_decide (segments dir `prefix_of` segments path).

End Registry.

(* ===================================================================== *)
(** ** index.ts: state, batch buffer, dispatch *)
(* ===================================================================== *)

Module Service.
Import Registry.

(** A message handed to the producer: [{ key, value }]. *)
Record Message : Type := {
  key : option string;
  value : string
}.

(** An entry of [batch], and the argument of [producer.send]. *)
Record TopicMessages : Type := {
  topic : string;
  messages : list Message
}.

(** [envConfig.kafka]. *)
Record Topics : Type := {
  rawTopic : string;
  domainTopic : string;
  dlqTopic : string
}.

(** What leaves the process, in the order it happens. *)
Inductive effect : Type :=
| SendBatch (topicMessages : list TopicMessages) (fulfilled : bool)
| Send (record : TopicMessages) (fulfilled : bool)
| Upsert (event : JS.value) (promise : nat) (fulfilled : bool)
| Logged (line : log_line).

Section World.

(** The world outside the process: brokers, storage, the other tasks of the
    event loop. *)
Context {World : Type}.

(** What the service calls and does not define.  [suspended] gives the
    entries that the handlers of other messages push onto [batch] while the
    running task is suspended at an [await]. *)
Record Platform : Type := {
  JSON_parse : string -> settled JS.value exn;
  JSON_stringify : JS.value -> string;
  Buffer_toString : list Byte.byte -> string;
  random : World -> QArith_base.Q * World;
  producer_sendBatch : list TopicMessages -> World -> settled unit exn * World;
  producer_send : TopicMessages -> World -> settled unit exn * World;
  suspended : World -> list TopicMessages * World
}.

(** The module-level state of [index.ts].  A promise is the number under
    which it was created; [metrics] maps a metric and its label values to its
    count ([msgLatency] counts its observations). *)
Record State : Type := {
  batch : list TopicMessages;
  inFlightUpserts : gset nat;
  promises : nat;
  metrics : gmap (string * list string) nat;
  effects : list effect;
  world : World
}.

Definition with_batch (b : list TopicMessages) (st : State) : State :=
  {| batch := b; inFlightUpserts := inFlightUpserts st;
     promises := promises st; metrics := metrics st;
     effects := effects st; world := world st |}.

Definition with_inFlight (s : gset nat) (n : nat) (st : State) : State :=
  {| batch := batch st; inFlightUpserts := s; promises := n;
     metrics := metrics st; effects := effects st; world := world st |}.

Definition with_world (w : World) (st : State) : State :=
  {| batch := batch st; inFlightUpserts := inFlightUpserts st;
     promises := promises st; metrics := metrics st;
     effects := effects st; world := w |}.

(** The value of a counter; one never touched reads 0. *)
Definition count (metric : string) (labels : list string) (st : State) : nat :=
  default 0 (metrics st !! (metric, labels)).

(** [metric.labels(...labels).inc(n)], and [observe] on a histogram. *)
Definition inc (metric : string) (labels : list string) (n : nat)
    (st : State) : State :=
  {| batch := batch st; inFlightUpserts := inFlightUpserts st;
     promises := promises st;
     metrics := <[(metric, labels) := count metric labels st + n]> (metrics st);
     effects := effects st; world := world st |}.

Definition emit (e : effect) (st : State) : State :=
  {| batch := batch st; inFlightUpserts := inFlightUpserts st;
     promises := promises st; metrics := metrics st;
     effects := effects st ++ [e]; world := world st |}.

(** [batch.push(entry)]. *)
Definition push (entry : TopicMessages) (st : State) : State :=
  with_batch (batch st ++ [entry]) st.

(** The running task is suspended: other handlers run and push. *)
Definition suspend (pf : Platform) (st : State) : State :=
  let '(pushed, w) := suspended pf (world st) in
  with_batch (batch st ++ pushed) (with_world w st).

(** [await op]: the operation acts on the world, the task is suspended
    meanwhile, and resumes with how the promise settled.  [others] is what
    the tasks that run meanwhile do to the state of the module, the buffer
    included: handlers of other messages, a flush started by the timer or
    by SIGINT. *)
Definition await_among {T : Type} (others : State -> State)
    (op : World -> settled T exn * World) (st : State)
  : settled T exn * State :=
  let '(r, w) := op (world st) in
  (r, others (with_world w st)).

(** [await op] among handlers of other messages, which push. *)
Definition await {T : Type} (pf : Platform)
    (op : World -> settled T exn * World) (st : State)
  : settled T exn * State :=
  await_among (suspend pf) op st.

Definition is_fulfilled {T : Type} (r : settled T exn) : bool :=
  match r with Fulfilled _ => true | Rejected _ => false end.

(** What [retry] needs, on the service state. *)
Definition runtime_among (pf : Platform) (others : State -> State)
  : Runtime State :=
  {| Math_random := fun st =>
       let '(x, w) := random pf (world st) in (x, with_world w st);
     setTimeout := fun _ st => others st |}.

Definition runtime (pf : Platform) : Runtime State :=
  runtime_among pf (suspend pf).

(* --------------------------------------------------------------------- *)
(** *** flushBatch *)

(** [await retry(() => producer.sendBatch({ topicMessages: sending }))]:
    one call of the operation. *)
Definition sendBatch_call_among (pf : Platform) (others : State -> State)
    (sending : list TopicMessages) (st : State)
  : settled unit exn * State :=
  let '(r, st1) := await_among others (producer_sendBatch pf sending) st in
  (r, emit (SendBatch sending (is_fulfilled r)) st1).

Definition sendBatch_call (pf : Platform) (sending : list TopicMessages)
    (st : State) : settled unit exn * State :=
  sendBatch_call_among pf (suspend pf) sending st.

(** [sending.reduce((acc, tm) => acc + tm.messages.length, 0)]. *)
Definition producedCount (sending : list TopicMessages) : nat :=
  fold_left (fun acc tm => acc + length (messages tm)) sending 0.

(** [flushBatch], among the tasks [others]. *)
Definition flushBatch_among (pf : Platform) (others : State -> State)
    (st : State) : settled unit exn * State :=
  match batch st with
  | [] => (Fulfilled tt, st)
  | _ :: _ =>
      let sending := batch st in
      let st1 := with_batch [] st in
      match retry (runtime_among pf others)
              (sendBatch_call_among pf others sending) no_opts st1 with
      | (Rejected err, st2) => (Rejected err, st2)
      | (Fulfilled _, st2) =>
          (Fulfilled tt, inc "messagesProduced" [] (producedCount sending) st2)
      end
  end.

(** [flushBatch] among handlers of other messages, which push. *)
Definition flushBatch (pf : Platform) (st : State) : settled unit exn * State :=
  flushBatch_among pf (suspend pf) st.

(* --------------------------------------------------------------------- *)
(** *** The [eachMessage] callback *)

(** The loaded registries. *)
Record Plugins : Type := {
  normalizers : gmap string INormalizer;
  upserters : gmap string (IUpserter World)
}.

(** [registry[name]] for a name that may be [undefined].  The registries
    are read for the own properties the loading loops wrote; a name that
    [Object.prototype] answers to (["constructor"], ["toString"]) is
    outside this model. *)
Definition handler_for {H : Type} (registry : gmap string H) (name : JS.value)
  : option H :=
  match name with
  | VStr s => registry !! s
  | _ => None
  end.

(** The [key] of a batched message: [ev.event?.fingerprint]. *)
Definition fingerprint_key (ev : JS.value) : option string :=
  match get (get ev "event") "fingerprint" with
  | VStr s => Some s
  | _ => None
  end.

Definition batch_entry (cfg : Topics) (pf : Platform) (ev : JS.value)
  : TopicMessages :=
  {| topic := domainTopic cfg;
     messages := [ {| key := fingerprint_key ev;
                      value := JSON_stringify pf ev |} ] |}.

(** [for (const ev of events) { ... }]. *)
Fixpoint push_events (cfg : Topics) (pf : Platform) (events : list JS.value)
    (st : State) : settled unit exn * State :=
  match events with
  | [] => (Fulfilled tt, st)
  | ev :: rest =>
      if negb (Schemas.DomainEventSchema_ok ev) then
        (Rejected (Error "Domain event schema violation"), st)
      else push_events cfg pf rest (push (batch_entry cfg pf ev) st)
  end.

(** [handle]: one attempt at the message. *)
Definition handle (cfg : Topics) (pf : Platform) (plugins : Plugins)
    (topic rawBytes : string) (st : State) : settled unit exn * State :=
  let st := inc "messagesConsumed" [topic] 1 st in
  match JSON_parse pf rawBytes with
  | Rejected err => (Rejected err, st)
  | Fulfilled obj =>
      if String.eqb topic (rawTopic cfg) then
        if negb (RawMessageSchema_ok obj) then
          (Rejected (Error "RAW message schema violation"), st)
        else
          match handler_for (normalizers plugins) (get obj "tool") with
          | Some norm =>
              match norm obj with
              | Rejected err => (Rejected err, st)
              | Fulfilled returned =>
                  match push_events cfg pf (default [] returned) st with
                  | (Rejected err, st1) => (Rejected err, st1)
                  | (Fulfilled _, st1) =>
                      (Fulfilled tt, inc "msgLatency" ["raw"] 1 st1)
                  end
              end
          | None => (Fulfilled tt, inc "msgLatency" ["raw"] 1 st)
          end
      else if String.eqb topic (domainTopic cfg) then
        if negb (Schemas.DomainEventSchema_ok obj) then
          (Rejected (Error "Domain event schema violation"), st)
        else
          match handler_for (upserters plugins)
                  (get (get obj "event") "event_type") with
          | Some up =>
              let p := promises st in
              let st1 :=
                with_inFlight ({[p]} ∪ inFlightUpserts st) (S p) st in
              let '(r, st2) := await pf (up obj) st1 in
              let st3 := emit (Upsert obj p (is_fulfilled r)) st2 in
              match r with
              | Rejected err => (Rejected err, st3)
              | Fulfilled _ =>
                  let st4 :=
                    with_inFlight (inFlightUpserts st3 ∖ {[p]})
                      (promises st3) st3 in
                  (Fulfilled tt,
                   inc "msgLatency" ["upsert"] 1
                     (inc "upsertsSuccess" ["neo4j"] 1 st4))
              end
          | None => (Fulfilled tt, st)
          end
      else (Fulfilled tt, st)
  end.

(** The rejection handler attached to [retry(handle, { retries: 2 })]. *)
Definition on_failed (cfg : Topics) (pf : Platform) (topic rawBytes : string)
    (err : exn) (st : State) : State :=
  let st := inc "processingErrors"
              [topic; default "unknown" (exn_name err)] 1 st in
  let st := emit (Logged (LogError "failed permanently, sending to DLQ")) st in
  let record :=
    {| topic := dlqTopic cfg;
       messages := [ {| key := None; value := rawBytes |} ] |} in
  let '(r, st) := await pf (producer_send pf record) st in
  let st := emit (Send record (is_fulfilled r)) st in
  match r with
  | Fulfilled _ => st
  | Rejected dlqErr => emit (Logged (LogError "DLQ publish failed")) st
  end.

(** The chain [retry(handle, { retries: 2 }).catch(...)] that the callback
    starts and does not await, run to its end. *)
Definition dispatch (cfg : Topics) (pf : Platform) (plugins : Plugins)
    (topic rawBytes : string) (st : State) : State :=
  match retry (runtime pf) (handle cfg pf plugins topic rawBytes)
          {| retries := Some 2%Z; baseMs := None |} st with
  | (Fulfilled _, st1) => st1
  | (Rejected err, st1) => on_failed cfg pf topic rawBytes err st1
  end.

(** [eachMessage({ topic, message })], for [message.value] a [Buffer] or
    [null]: how the callback's own promise settles, and the chain it leaves
    running, if any. *)
Definition eachMessage (cfg : Topics) (pf : Platform) (plugins : Plugins)
    (topic : string) (message_value : option (list Byte.byte))
  : settled unit exn * option (State -> State) :=
  match message_value with
  | None => (Fulfilled tt, None)
  | Some buffer =>
      let rawBytes := Buffer_toString pf buffer in
      (Fulfilled tt, Some (dispatch cfg pf plugins topic rawBytes))
  end.

(** The state once the callback and the chain it started are done. *)
Definition after_eachMessage (cfg : Topics) (pf : Platform)
    (plugins : Plugins) (topic : string)
    (message_value : option (list Byte.byte)) (st : State) : State :=
  match snd (eachMessage cfg pf plugins topic message_value) with
  | None => st
  | Some chain => chain st
  end.

End World.

Arguments Platform : clear implicits.
Arguments State : clear implicits.
Arguments Plugins : clear implicits.

End Service.

(* ********************************************************************* *)
(** * Properties *)
(* ********************************************************************* *)

Example ordered_ba :
ordered [("b", VNum "2"); ("a", VNum "1")] = "a=1|b=2".
Proof. vm_compute. reflexivity. Qed.

Example ordered_ab :
ordered [("a", VNum "1"); ("b", VNum "2")] = "a=1|b=2".
Proof. vm_compute. reflexivity. Qed.

(* ===================================================================== *)
(** ** Fingerprint: independence of the key order *)
(* ===================================================================== *)

Section FingerprintOrder.

(** A property list is a well-formed object when no key occurs twice. *)
Definition distinct_keys (obj : list (string * value)) : Prop :=
  NoDup (keys obj).

Lemma keys_Permutation (m1 m2 : list (string * value)) :
  Permutation m1 m2 -> Permutation (keys m1) (keys m2).
Proof. intros H. unfold keys. now apply Permutation_map. Qed.

Lemma lookup_prop_absent k (m : list (string * value)) :
  ~ In k (keys m) -> lookup_prop k m = VUndefined.
Proof.
  induction m as [|[k' v] m IH]; simpl; intros Hk; [reflexivity|].
  destruct (String.eqb_spec k k') as [->|Hne].
  - exfalso. apply Hk. now left.
  - apply IH. intros Hin. apply Hk. now right.
Qed.

Lemma lookup_prop_present k v (m : list (string * value)) :
  distinct_keys m -> In (k, v) m -> lookup_prop k m = v.
Proof.
  unfold distinct_keys.
  induction m as [|[k' v'] m IH]; simpl; intros Hnd Hin; [contradiction|].
  apply NoDup_cons in Hnd as [Hfresh Hm].
  destruct Hin as [Heq|Hin].
  - inversion Heq; subst. now rewrite String.eqb_refl.
  - destruct (String.eqb_spec k k') as [->|Hne].
    + exfalso. apply Hfresh. apply list_elem_of_In.
      change k' with (fst (k', v)). now apply in_map.
    + now apply IH.
Qed.

Lemma lookup_prop_Permutation (m1 m2 : list (string * value)) k :
  distinct_keys m1 -> Permutation m1 m2 ->
  lookup_prop k m1 = lookup_prop k m2.
Proof.
  intros Hnd Hp.
  assert (Hnd2 : distinct_keys m2).
  { unfold distinct_keys in *.
    now rewrite <- (keys_Permutation _ _ Hp). }
  destruct (in_dec String.string_dec k (keys m1)) as [Hin|Hout].
  - unfold keys in Hin. apply in_map_iff in Hin as [[k0 v] [Hk Hin]].
    simpl in Hk; subst k0.
    rewrite (lookup_prop_present k v m1 Hnd Hin).
    symmetry. apply lookup_prop_present; [exact Hnd2|].
    eapply Permutation_in; eassumption.
  - rewrite (lookup_prop_absent k m1 Hout).
    symmetry. apply lookup_prop_absent.
    intros Hin. apply Hout.
    eapply Permutation_in; [|exact Hin].
    symmetry. now apply keys_Permutation.
Qed.

Lemma sort_Permutation (l1 l2 : list string) :
  Permutation l1 l2 -> JS.sort l1 = JS.sort l2.
Proof.
  intros Hp. unfold JS.sort.
  apply (Sorted_unique String.le).
  - apply Sorted_merge_sort; apply _.
  - apply Sorted_merge_sort; apply _.
  - rewrite !merge_sort_Permutation. exact Hp.
Qed.

(** C1.  Two objects that hold the same (key, value) pairs, listed in any
    two orders, have the same fingerprint. *)
Theorem fingerprint_key_order (sha256_hex : string -> string)
    (m1 m2 : list (string * value)) :
  distinct_keys m1 ->
  Permutation m1 m2 ->
  fingerprint sha256_hex m1 = fingerprint sha256_hex m2.
Proof.
  intros Hnd Hp. unfold fingerprint, ordered. f_equal. f_equal.
  rewrite (sort_Permutation _ _ (keys_Permutation _ _ Hp)).
  apply map_ext. intros k. unfold pair_text.
  now rewrite (lookup_prop_Permutation m1 m2 k Hnd Hp).
Qed.

End FingerprintOrder.

(* ===================================================================== *)
(** ** Fingerprint: when the pre-hash text determines the object *)
(* ===================================================================== *)

Section FingerprintInjective.

(** [s.includes(c)] for a single code unit [c]. *)
Fixpoint occurs (c : ascii) (s : string) : bool :=
  match s with
  | EmptyString => false
  | String a s' => Ascii.eqb a c || occurs c s'
  end.

(** What [fingerprint] sees of an object: each key with the text its value
    prints as. *)
Definition printed (obj : list (string * value)) : list (string * string) :=
  List.map (fun kv => (fst kv, ToString (snd kv))) obj.

(** No key holds ["="], where a key ends in the text, and no value prints
    with a ["|"], where a value ends.  A key may hold ["|"] and a value
    ["="]. *)
Definition delimiter_free (obj : list (string * value)) : Prop :=
  forall k v, In (k, v) obj ->
    occurs "=" k = false /\ occurs "|" (ToString v) = false.

Lemma occurs_app c (s t : string) :
  occurs c (s ++ t)%string = occurs c s || occurs c t.
Proof.
  induction s as [|a s IH]; simpl; [reflexivity|].
  now rewrite IH, orb_assoc.
Qed.

(** A text that is empty or starts with the delimiter [c]. *)
Definition opens_with (c : ascii) (t : string) : Prop :=
  t = "" \/ exists t', t = String c t'.

Lemma cut_at c (x y t1 t2 : string) :
  occurs c x = false -> occurs c y = false ->
  opens_with c t1 -> opens_with c t2 ->
  (x ++ t1 = y ++ t2)%string -> x = y /\ t1 = t2.
Proof.
  revert y. induction x as [|a x IH]; intros [|b y]; simpl;
    intros Hx Hy H1 H2 Heq.
  - now split.
  - exfalso. apply orb_false_elim in Hy as [Hb _].
    destruct H1 as [->|[t' ->]]; [discriminate|].
    inversion Heq; subst. now rewrite Ascii.eqb_refl in Hb.
  - exfalso. apply orb_false_elim in Hx as [Ha _].
    destruct H2 as [->|[t' ->]]; [discriminate|].
    inversion Heq; subst. now rewrite Ascii.eqb_refl in Ha.
  - apply orb_false_elim in Hx as [_ Hx].
    apply orb_false_elim in Hy as [_ Hy].
    inversion Heq; subst.
    destruct (IH y Hx Hy H1 H2 ltac:(assumption)) as [-> ->].
    now split.
Qed.

Lemma join_opens (x : string) (l : list string) :
  exists t, opens_with "|" t /\ join "|" (x :: l) = (x ++ t)%string /\
            (l = [] -> t = "") /\
            (forall y l', l = y :: l' -> t = ("|" ++ join "|" l)%string).
Proof.
  destruct l as [|y l].
  - exists "". repeat split.
    + now left.
    + simpl. clear. induction x as [|a x IH]; [reflexivity|].
      change (String a x = String a (x ++ "")%string). now rewrite <- IH.
    + intros y l' Hl. discriminate.
  - exists ("|" ++ join "|" (y :: l))%string. repeat split.
    + right. now eexists.
    + intros Hl. discriminate.
Qed.

(** The keys in sorted order, each with the text its value prints as. *)
Definition printed_sorted (obj : list (string * value))
  : list (string * string) :=
  List.map (fun k => (k, ToString (lookup_prop k obj))) (JS.sort (keys obj)).

Definition piece (kt : string * string) : string :=
  fst kt ++ "=" ++ snd kt.

Lemma ordered_pieces obj :
  ordered obj = join "|" (List.map piece (printed_sorted obj)).
Proof.
  unfold ordered, printed_sorted. now rewrite List.map_map.
Qed.

Lemma append_assoc (x y z : string) :
  ((x ++ y) ++ z = x ++ (y ++ z))%string.
Proof.
  induction x as [|a x IH]; [reflexivity|].
  change (String a ((x ++ y) ++ z) = String a (x ++ (y ++ z)))%string.
  now rewrite IH.
Qed.

(** The text of a list of pieces, read from the left: a key up to the first
    ["="], a value up to the next ["|"], and so on. *)
Lemma join_piece (k t : string) (l : list (string * string)) :
  exists rest,
    join "|" (List.map piece ((k, t) :: l))
    = (k ++ "=" ++ t ++ rest)%string /\
    opens_with "|" rest /\
    (l = [] -> rest = "") /\
    (forall p l', l = p :: l' ->
       rest = ("|" ++ join "|" (List.map piece l))%string).
Proof.
  destruct (join_opens (piece (k, t)) (List.map piece l))
    as (rest & Ho & Hj & He & Hc).
  exists rest. split; [|split; [exact Ho|split]].
  - simpl List.map. rewrite Hj. unfold piece. simpl fst. simpl snd.
    rewrite append_assoc.
    change (("=" ++ t) ++ rest)%string with (String "=" (t ++ rest)).
    reflexivity.
  - intros ->. now apply He.
  - intros p l' ->. now apply (Hc (piece p) (List.map piece l')).
Qed.

(** [join("|")] of ["key=value"] pieces loses nothing when no key holds
    ["="] and no value ["|"]. *)
Lemma join_pieces_inj (l1 l2 : list (string * string)) :
  Forall (fun p => occurs "=" (fst p) = false /\ occurs "|" (snd p) = false)
    l1 ->
  Forall (fun p => occurs "=" (fst p) = false /\ occurs "|" (snd p) = false)
    l2 ->
  join "|" (List.map piece l1) = join "|" (List.map piece l2) -> l1 = l2.
Proof.
  revert l2.
  induction l1 as [|[k1 t1] l1 IH]; intros [|[k2 t2] l2] H1 H2 Heq.
  - reflexivity.
  - exfalso. destruct (join_piece k2 t2 l2) as (rest & Hj & _).
    rewrite Hj in Heq. simpl in Heq.
    destruct k2; discriminate.
  - exfalso. destruct (join_piece k1 t1 l1) as (rest & Hj & _).
    rewrite Hj in Heq. simpl in Heq.
    destruct k1; discriminate.
  - apply Forall_cons in H1 as [[Hk1 Ht1] H1].
    apply Forall_cons in H2 as [[Hk2 Ht2] H2].
    simpl in Hk1, Ht1, Hk2, Ht2.
    destruct (join_piece k1 t1 l1) as (r1 & Hj1 & Ho1 & He1 & Hc1).
    destruct (join_piece k2 t2 l2) as (r2 & Hj2 & Ho2 & He2 & Hc2).
    rewrite Hj1, Hj2 in Heq.
    destruct (cut_at "=" k1 k2 ("=" ++ t1 ++ r1)%string
                ("=" ++ t2 ++ r2)%string Hk1 Hk2) as [-> Hv];
      try (right; eexists; reflexivity); [exact Heq|].
    change (String "=" (t1 ++ r1) = String "=" (t2 ++ r2))%string in Hv.
    inversion Hv as [Hv'].
    destruct (cut_at "|" t1 t2 r1 r2 Ht1 Ht2 Ho1 Ho2 Hv') as [-> Hr].
    f_equal.
    destruct l1 as [|p1 l1], l2 as [|p2 l2].
    + reflexivity.
    + rewrite (He1 eq_refl), (Hc2 _ _ eq_refl) in Hr. discriminate.
    + rewrite (He2 eq_refl), (Hc1 _ _ eq_refl) in Hr. discriminate.
    + rewrite (Hc1 _ _ eq_refl), (Hc2 _ _ eq_refl) in Hr.
      apply IH; [assumption|assumption|].
      change (String "|" (join "|" (List.map piece (p1 :: l1)))
              = String "|" (join "|" (List.map piece (p2 :: l2)))) in Hr.
      now inversion Hr.
Qed.

Lemma sorted_key_In obj k :
  In k (JS.sort (keys obj)) -> exists v, In (k, v) obj.
Proof.
  intros Hin.
  assert (Hk : In k (keys obj)).
  { eapply Permutation_in; [|exact Hin].
    unfold JS.sort. apply merge_sort_Permutation. }
  unfold keys in Hk. apply in_map_iff in Hk as [[k0 v] [Hk0 Hk]].
  simpl in Hk0; subst. now exists v.
Qed.

Lemma printed_sorted_keys obj :
  distinct_keys obj -> delimiter_free obj ->
  Forall (fun p => occurs "=" (fst p) = false /\ occurs "|" (snd p) = false)
    (printed_sorted obj).
Proof.
  intros Hnd Hdf. unfold printed_sorted.
  apply List.Forall_forall. intros x Hx.
  apply in_map_iff in Hx as [k [<- Hk]].
  destruct (sorted_key_In obj k Hk) as [v Hv].
  destruct (Hdf k v Hv) as (He & Hv').
  rewrite (lookup_prop_present k v obj Hnd Hv). simpl. now split.
Qed.

Lemma printed_sorted_Permutation obj :
  distinct_keys obj -> Permutation (printed_sorted obj) (printed obj).
Proof.
  intros Hnd. unfold printed_sorted, printed.
  transitivity
    (List.map (fun k => (k, ToString (lookup_prop k obj))) (keys obj)).
  - apply Permutation_map. unfold JS.sort. apply merge_sort_Permutation.
  - unfold keys. rewrite List.map_map.
    erewrite map_ext_in; [reflexivity|].
    intros [k v] Hin. simpl.
    now rewrite (lookup_prop_present k v obj Hnd Hin).
Qed.

(** The pre-hash text of a delimiter-free object determines which keys it
    has and how each value prints. *)
Lemma ordered_inj (m1 m2 : list (string * value)) :
  distinct_keys m1 -> distinct_keys m2 ->
  delimiter_free m1 -> delimiter_free m2 ->
  ordered m1 = ordered m2 -> Permutation (printed m1) (printed m2).
Proof.
  intros Hn1 Hn2 Hd1 Hd2 Heq.
  rewrite !ordered_pieces in Heq.
  apply join_pieces_inj in Heq;
    [|now apply printed_sorted_keys|now apply printed_sorted_keys].
  rewrite <- (printed_sorted_Permutation m1 Hn1).
  rewrite <- (printed_sorted_Permutation m2 Hn2).
  now rewrite Heq.
Qed.

End FingerprintInjective.

(** Two orders of one object, under a digest that is the identity. *)
Lemma fingerprint_key_order_witness :
  fingerprint (fun s => s) [("b", VNum "2"); ("a", VNum "1")]
  = fingerprint (fun s => s) [("a", VNum "1"); ("b", VNum "2")].
Proof.
  apply fingerprint_key_order.
  - unfold distinct_keys. apply (bool_decide_unpack _). vm_compute. reflexivity.
  - apply perm_swap.
Defined.

Section FingerprintCollisions.

(** The digest never maps two texts to one value. *)
Definition collision_free (sha256_hex : string -> string) : Prop :=
  forall s t, sha256_hex s = sha256_hex t -> s = t.

(** C9, as amended.  Under a collision-free digest, two objects whose keys
    hold no ["="] and whose values print without ["|"] get different
    fingerprints as soon as they differ in a key or in the text a value
    prints as.  A ["|"] in a key and a ["="] in a value do no harm. *)
Theorem fingerprint_distinct (sha256_hex : string -> string)
    (m1 m2 : list (string * value)) :
  collision_free sha256_hex ->
  distinct_keys m1 -> distinct_keys m2 ->
  delimiter_free m1 -> delimiter_free m2 ->
  ~ Permutation (printed m1) (printed m2) ->
  fingerprint sha256_hex m1 <> fingerprint sha256_hex m2.
Proof.
  intros Hsha Hn1 Hn2 Hd1 Hd2 Hne Heq. apply Hne.
  apply ordered_inj; try assumption.
  apply Hsha. exact Heq.
Qed.

(** Two objects of two fields each, with a ["|"] in a key and a ["="] in
    a value. *)
Definition bar_in_key : list (string * value) :=
  [("a|b", VStr "1"); ("c", VStr "x=y")].
Definition bar_in_other_key : list (string * value) :=
  [("a", VStr "1"); ("b|c", VStr "x=y")].

Lemma fingerprint_distinct_witness :
  fingerprint (fun s => s) bar_in_key
  <> fingerprint (fun s => s) bar_in_other_key.
Proof.
  apply fingerprint_distinct.
  - intros s t H. exact H.
  - unfold distinct_keys. apply (bool_decide_unpack _). vm_compute. reflexivity.
  - unfold distinct_keys. apply (bool_decide_unpack _). vm_compute. reflexivity.
  - intros k v [H|[H|[]]]; inversion H; subst; split; reflexivity.
  - intros k v [H|[H|[]]]; inversion H; subst; split; reflexivity.
  - intros Hp.
    assert (Hin : In ("a|b", "1") (printed bar_in_other_key)).
    { eapply Permutation_in; [exact Hp|]. left. reflexivity. }
    destruct Hin as [H|[H|[]]]; discriminate H.
Defined.

(** Two different objects with one pre-hash text. *)
Definition bar_in_value : list (string * value) := [("a", VStr "1|b=2")].
Definition bar_as_delimiter : list (string * value) :=
  [("a", VStr "1"); ("b", VStr "2")].

(** Likewise for ["="] in a key. *)
Definition equals_in_key : list (string * value) := [("a=b", VStr "c")].
Definition equals_in_value : list (string * value) := [("a", VStr "b=c")].

(** C9 fails as stated: [{a: "1|b=2"}] and [{a: "1", b: "2"}] are
    different objects, both are hashed as ["a=1|b=2"], so every digest gives
    them one fingerprint; and so are [{"a=b": "c"}] and [{a: "b=c"}], both
    hashed as ["a=b=c"]. *)
Lemma fingerprint_collision :
  distinct_keys bar_in_value /\ distinct_keys bar_as_delimiter /\
  ~ Permutation bar_in_value bar_as_delimiter /\
  ordered bar_in_value = ordered bar_as_delimiter /\
  (~ Permutation (printed equals_in_key) (printed equals_in_value) /\
   ordered equals_in_key = ordered equals_in_value) /\
  ~ (forall sha256_hex m1 m2,
       collision_free sha256_hex ->
       distinct_keys m1 -> distinct_keys m2 ->
       ~ Permutation m1 m2 ->
       fingerprint sha256_hex m1 <> fingerprint sha256_hex m2).
Proof.
  assert (Hn1 : distinct_keys bar_in_value).
  { unfold distinct_keys. apply (bool_decide_unpack _). vm_compute.
    reflexivity. }
  assert (Hn2 : distinct_keys bar_as_delimiter).
  { unfold distinct_keys. apply (bool_decide_unpack _). vm_compute.
    reflexivity. }
  assert (Hp : ~ Permutation bar_in_value bar_as_delimiter).
  { intros Hp. apply Permutation_length in Hp. discriminate Hp. }
  split; [exact Hn1|]. split; [exact Hn2|]. split; [exact Hp|].
  split; [vm_compute; reflexivity|].
  split.
  { split; [|vm_compute; reflexivity].
    intros Hq. apply Permutation_length_1 in Hq. discriminate Hq. }
  intros Hclaim.
  apply (Hclaim (fun s => s) bar_in_value bar_as_delimiter); try assumption.
  - intros s t H. exact H.
  - vm_compute. reflexivity.
Qed.

End FingerprintCollisions.

(* ===================================================================== *)
(** ** The example normalizer on a sensor report *)
(* ===================================================================== *)

Section SensorReport.
Import ExampleNormalizer.

Definition temp_1_data : value :=
  VObj [ ("sensorId", VStr "temp-1"); ("value", VNum "21.5");
         ("unit", VStr "celsius"); ("location", VStr "kitchen") ].

(** [{tool: "sensor_report", runId: "r1", data: {...}}]. *)
Definition sensor_report_r1 : value :=
  VObj [ ("tool", VStr "sensor_report"); ("runId", VStr "r1");
         ("data", temp_1_data) ].

(** The same message with a [schemaVersion]. *)
Definition sensor_report_r1_versioned (version : string) : value :=
  VObj [ ("tool", VStr "sensor_report"); ("schemaVersion", VStr version);
         ("runId", VStr "r1"); ("data", temp_1_data) ].

(** [{type: "SENSOR_READING", sensor: "temp-1", location: "kitchen",
      value: 21.5, unit: "celsius"}]. *)
Definition temp_1_fields : list (string * value) :=
  [ ("type", VStr "SENSOR_READING"); ("sensor", VStr "temp-1");
    ("location", VStr "kitchen"); ("value", VNum "21.5");
    ("unit", VStr "celsius") ].

Example deriveSensorType_temp_1 : deriveSensorType "temp-1" = "temperature".
Proof. vm_compute. reflexivity. Qed.

Example deriveSensorType_upper :
  deriveSensorType "HUMIDITY-probe-office" = "humidity".
Proof. vm_compute. reflexivity. Qed.

Example deriveSensorType_unknown :
  deriveSensorType "unknown-device-xyz" = "generic".
Proof. vm_compute. reflexivity. Qed.

(** A message without [schemaVersion] does not pass [RawSensorSchema], and
    [normalize] returns [null] for it, whatever the digest. *)
Lemma normalize_without_schemaVersion (sha256_hex : string -> string) :
  normalize sha256_hex sensor_report_r1 = Fulfilled None.
Proof. reflexivity. Qed.

(** C8 fails as stated: the message of the claim has no [schemaVersion],
    which [RawSensorSchema] requires, so the normalizer returns [null] and
    no event. *)
Lemma normalize_sensor_report_r1_null :
  RawSensorSchema_safeParse sensor_report_r1 = None /\
  ~ (exists sha256_hex events,
       normalize sha256_hex sensor_report_r1 = Fulfilled (Some events)).
Proof.
  split; [reflexivity|].
  intros (sha256_hex & events & H).
  rewrite normalize_without_schemaVersion in H. discriminate H.
Qed.

(** C8, as amended.  For the message of the claim with a string
    [schemaVersion] added, the normalizer returns exactly one event, of
    type ["SENSOR_READING"], with [meta.sensorType] ["temperature"] and
    with the fingerprint of [{type, sensor, location, value, unit}]. *)
Theorem normalize_sensor_report_r1 (sha256_hex : string -> string)
    (version : string) :
  exists event,
    normalize sha256_hex (sensor_report_r1_versioned version)
    = Fulfilled (Some [event]) /\
    get (get event "event") "event_type" = VStr "SENSOR_READING" /\
    get (get event "meta") "sensorType" = VStr "temperature" /\
    get (get event "event") "fingerprint"
    = VStr (fingerprint sha256_hex temp_1_fields).
Proof.
  eexists. split; [reflexivity|]. repeat split.
Qed.

End SensorReport.

(* ===================================================================== *)
(** ** retry: how often the operation runs, and what comes back *)
(* ===================================================================== *)

Section RetrySteps.

Context {W T E : Type} (rt : Runtime W) (fn : W -> settled T E * W).
Context (retries : Z) (baseMs : QArith_base.Q).

(** A success ends the loop at once. *)
Lemma retry_loop_fulfilled attempt w t w1 :
  fn w = (Fulfilled t, w1) ->
  retry_loop rt fn retries baseMs attempt w = (Fulfilled t, w1).
Proof. intros H. simp retry_loop. rewrite H. reflexivity. Qed.

(** A failure past the budget is rethrown as it is. *)
Lemma retry_loop_exhausted attempt w err w1 :
  fn w = (Rejected err, w1) ->
  (attempt + 1 > retries)%Z ->
  retry_loop rt fn retries baseMs attempt w = (Rejected err, w1).
Proof.
  intros H Hgt. simp retry_loop. rewrite H. simpl.
  destruct (Z_gt_le_dec (attempt + 1) retries); [reflexivity|lia].
Qed.

(** A failure within the budget: draw the jitter, sleep, go round again. *)
Lemma retry_loop_again attempt w err w1 :
  fn w = (Rejected err, w1) ->
  (attempt + 1 <= retries)%Z ->
  retry_loop rt fn retries baseMs attempt w
  = retry_loop rt fn retries baseMs (attempt + 1)
      (setTimeout rt
         (delay baseMs (attempt + 1) (fst (Math_random rt w1)))
         (snd (Math_random rt w1))).
Proof.
  intros H Hle. rewrite retry_loop_equation_1 at 1. rewrite H. simpl.
  destruct (Z_gt_le_dec (attempt + 1) retries); [lia|]. simpl.
  destruct (Math_random rt w1) as [random w2]. reflexivity.
Qed.

End RetrySteps.

Section RetryCalls.

Context {W T E : Type} (rt : Runtime W) (fn : W -> settled T E * W).

(** [calls w] is how often the operation has run when the state is [w]: the
    operation counts each of its runs, and nothing else counts. *)
Context (calls : W -> nat).

Definition counts_runs : Prop :=
  (forall w, calls (snd (fn w)) = S (calls w)) /\
  (forall w, calls (snd (Math_random rt w)) = calls w) /\
  (forall d w, calls (setTimeout rt d w) = calls w).

Definition rejects (w : W) : Prop := exists err, fst (fn w) = Rejected err.
Definition fulfils (w : W) : Prop := exists t, fst (fn w) = Fulfilled t.

Lemma calls_after_sleep d w :
  counts_runs ->
  calls (setTimeout rt d (snd (Math_random rt (snd (fn w))))) = S (calls w).
Proof. intros (Hfn & Hrand & Hsleep). now rewrite Hsleep, Hrand, Hfn. Qed.

(** The operation fails on each run up to the one that exhausts the
    budget: it runs once per attempt the budget allows, and the error of
    the last run comes back. *)
Lemma retry_loop_all_rejected retries baseMs last :
  counts_runs -> (forall w, calls w <= last -> rejects w) ->
  forall n attempt w,
    n = Z.to_nat (retries - attempt) -> (attempt <= retries)%Z ->
    calls w + n = last ->
    exists w_last err,
      calls w_last = last /\
      fst (fn w_last) = Rejected err /\
      retry_loop rt fn retries baseMs attempt w
      = (Rejected err, snd (fn w_last)).
Proof.
  intros Hc Hrej n. induction n as [|n IH]; intros attempt w Hn Hle Hlast.
  - destruct (Hrej w) as [err Herr]; [lia|].
    exists w, err. split; [lia|]. split; [exact Herr|].
    apply retry_loop_exhausted; [|lia].
    destruct (fn w); simpl in *; congruence.
  - destruct (Hrej w) as [err Herr]; [lia|].
    destruct (IH (attempt + 1)%Z
                (setTimeout rt
                   (delay baseMs (attempt + 1)
                      (fst (Math_random rt (snd (fn w)))))
                   (snd (Math_random rt (snd (fn w))))))
      as (w_last & err' & Hcalls & Hw & Hrun); [lia|lia| |].
    { rewrite calls_after_sleep by exact Hc. lia. }
    exists w_last, err'. split; [exact Hcalls|]. split; [exact Hw|].
    rewrite <- Hrun. apply (retry_loop_again _ _ _ _ _ _ err); [|lia].
    destruct (fn w); simpl in *; congruence.
Qed.

(** The operation fails until it has run [target] times and succeeds on the
    next run: that success comes back, and the loop stops there. *)
Lemma retry_loop_first_success retries baseMs target :
  counts_runs ->
  (forall w, calls w < target -> rejects w) ->
  (forall w, calls w = target -> fulfils w) ->
  forall m attempt w,
    calls w + m = target -> (attempt + Z.of_nat m <= retries)%Z ->
    exists w_k t,
      calls w_k = target /\
      fst (fn w_k) = Fulfilled t /\
      retry_loop rt fn retries baseMs attempt w
      = (Fulfilled t, snd (fn w_k)).
Proof.
  intros Hc Hrej Hful m. induction m as [|m IH]; intros attempt w Hm Hle.
  - destruct (Hful w) as [t Ht]; [lia|].
    exists w, t. split; [lia|]. split; [exact Ht|].
    apply retry_loop_fulfilled. destruct (fn w); simpl in *; congruence.
  - destruct (Hrej w) as [err Herr]; [lia|].
    destruct (IH (attempt + 1)%Z
                (setTimeout rt
                   (delay baseMs (attempt + 1)
                      (fst (Math_random rt (snd (fn w)))))
                   (snd (Math_random rt (snd (fn w))))))
      as (w_k & t & Hcalls & Hk & Hrun).
    { rewrite calls_after_sleep by exact Hc. lia. }
    { lia. }
    exists w_k, t. split; [exact Hcalls|]. split; [exact Hk|].
    rewrite <- Hrun. apply (retry_loop_again _ _ _ _ _ _ err); [|lia].
    destruct (fn w); simpl in *; congruence.
Qed.

(** C2.  With a budget of [r] retries: an operation that fails on every
    run is run exactly [r + 1] times and the error of its last run is
    rethrown; an operation that first succeeds on its [k]-th run,
    [k <= r + 1], is run exactly [k] times and that success is returned. *)
Theorem retry_invocations (r : Z) (baseMs : option QArith_base.Q) (w0 : W) :
  counts_runs -> (0 <= r)%Z -> calls w0 = 0 ->
  ((forall w, rejects w) ->
   exists w_last err,
     calls w_last = Z.to_nat r /\
     fst (fn w_last) = Rejected err /\
     retry rt fn {| retries := Some r; baseMs := baseMs |} w0
     = (Rejected err, snd (fn w_last)) /\
     calls (snd (fn w_last)) = Z.to_nat r + 1) /\
  (forall k, 1 <= k <= Z.to_nat r + 1 ->
   (forall w, calls w + 1 < k -> rejects w) ->
   (forall w, calls w + 1 = k -> fulfils w) ->
   exists w_k t,
     calls w_k + 1 = k /\
     fst (fn w_k) = Fulfilled t /\
     retry rt fn {| retries := Some r; baseMs := baseMs |} w0
     = (Fulfilled t, snd (fn w_k)) /\
     calls (snd (fn w_k)) = k).
Proof.
  intros Hc Hr H0. unfold retry. simpl. split.
  - intros Hrej.
    destruct (retry_loop_all_rejected r
                (default (QArith_base.inject_Z 200) baseMs) (Z.to_nat r) Hc
                (fun w _ => Hrej w)
                (Z.to_nat r) 0%Z w0) as (w_last & err & Hcalls & Hlast & Hrun);
      [f_equal; lia|lia|lia|].
    exists w_last, err.
    repeat split; try assumption.
    destruct Hc as (Hfn & _). rewrite Hfn, Hcalls. lia.
  - intros k Hk Hrej Hful.
    destruct (retry_loop_first_success r
                (default (QArith_base.inject_Z 200) baseMs) (k - 1) Hc)
      with (m := k - 1) (attempt := 0%Z) (w := w0)
      as (w_k & t & Hcalls & Hwk & Hrun).
    + intros w Hw. apply Hrej. lia.
    + intros w Hw. apply Hful. lia.
    + lia.
    + lia.
    + exists w_k, t. repeat split; try assumption; [lia|].
      destruct Hc as (Hfn & _). rewrite Hfn, Hcalls. lia.
Qed.

End RetryCalls.

(** A test double: the state is the number of runs so far, every run
    settles with its own number, and neither the jitter nor the sleep does
    anything. *)
Definition quiet_runtime : Runtime nat :=
  {| Math_random := fun w => (QArith_base.inject_Z 0, w);
     setTimeout := fun _ w => w |}.

Definition always_failing (w : nat) : settled nat nat * nat :=
  (Rejected w, S w).

Definition second_time_lucky (w : nat) : settled nat nat * nat :=
  (if Nat.eqb w 0 then Rejected w else Fulfilled w, S w).

(** [retry(op, {retries: 2})]: three runs and the third error when [op]
    always fails; two runs and the second result when the second run
    succeeds. *)
Lemma retry_invocations_witness :
  retry quiet_runtime always_failing {| retries := Some 2%Z; baseMs := None |} 0
  = (Rejected 2, 3) /\
  retry quiet_runtime second_time_lucky
    {| retries := Some 2%Z; baseMs := None |} 0
  = (Fulfilled 1, 2).
Proof.
  split.
  - destruct (retry_invocations quiet_runtime always_failing (fun w => w)
                2%Z None 0) as [Hall _].
    + repeat split.
    + lia.
    + reflexivity.
    + destruct Hall as (w_last & err & Hcalls & Hlast & Hrun & _).
      * intros w. now exists w.
      * simpl in Hcalls. subst w_last. simpl in Hlast.
        inversion Hlast; subst. exact Hrun.
  - destruct (retry_invocations quiet_runtime second_time_lucky (fun w => w)
                2%Z None 0) as [_ Hk].
    + repeat split.
    + lia.
    + reflexivity.
    + destruct (Hk 2) as (w_k & t & Hcalls & Hwk & Hrun & _).
      * simpl. lia.
      * intros w Hw. exists w. unfold second_time_lucky. simpl.
        destruct w; [reflexivity|lia].
      * intros w Hw. exists w. unfold second_time_lucky. simpl.
        destruct w; [lia|reflexivity].
      * assert (w_k = 1) by lia. subst w_k. simpl in Hwk.
        inversion Hwk; subst. exact Hrun.
Defined.

Example retry_always_failing_runs :
  retry quiet_runtime always_failing {| retries := Some 2%Z; baseMs := None |} 0
  = (Rejected 2, 3).
Proof. vm_compute. reflexivity. Qed.

Example retry_negative_budget_runs_once :
  retry quiet_runtime always_failing
    {| retries := Some (-5)%Z; baseMs := None |} 0
  = (Rejected 0, 1).
Proof. vm_compute. reflexivity. Qed.

(* ===================================================================== *)
(** ** Plugin loading *)
(* ===================================================================== *)

Section PluginLoading.
Import Registry.

Context {H : Type} (kind dirname : string) (import : string -> settled H exn).

(** The entry passes [validatePluginPath] and its module loads. *)
Definition loads (entry : string * string) (handler : H) : Prop :=
  exists safePath,
    validatePluginPath dirname (snd entry) = Fulfilled safePath /\
    import ("./" ++ safePath ++ ".js")%string = Fulfilled handler.

Lemma load_entry_lookup acc entry name :
  fst (load_entry kind dirname import acc entry) !! name
  = match decide (fst entry = name) with
    | left _ =>
        match validatePluginPath dirname (snd entry) with
        | Fulfilled safePath =>
            match import ("./" ++ safePath ++ ".js")%string with
            | Fulfilled handler => Some handler
            | Rejected _ => fst acc !! name
            end
        | Rejected _ => fst acc !! name
        end
    | right _ => fst acc !! name
    end.
Proof.
  destruct acc as [registry log], entry as [name' modPath]. simpl.
  destruct (validatePluginPath dirname modPath) as [safePath|err]; simpl.
  - destruct (import ("./" ++ safePath ++ ".js")%string) as [handler|err];
      simpl; destruct (decide (name' = name)) as [->|Hne]; try reflexivity.
    + apply lookup_insert_eq.
    + now apply lookup_insert_ne.
  - now destruct (decide (name' = name)).
Qed.

Lemma fold_load_entry_lookup entries : forall acc name,
  name ∉ List.map fst entries ->
  fst (fold_left (load_entry kind dirname import) entries acc) !! name
  = fst acc !! name.
Proof.
  induction entries as [|entry entries IH]; intros acc name Hname;
    [reflexivity|].
  simpl in *. apply not_elem_of_cons in Hname as [Hne Hname].
  rewrite IH, load_entry_lookup by exact Hname.
  destruct (decide (fst entry = name)); [congruence|reflexivity].
Qed.

(** The loops register a handler for exactly the entries that pass the
    path check and whose module loads; a failing entry changes nothing for
    the others. *)
Lemma load_plugins_registered entries name handler :
  NoDup (List.map fst entries) ->
  fst (load_plugins kind dirname import entries) !! name = Some handler <->
  exists modPath, In (name, modPath) entries /\ loads (name, modPath) handler.
Proof.
  unfold load_plugins.
  assert (Hgen : forall acc,
    NoDup (List.map fst entries) ->
    (forall n, n ∈ List.map fst entries -> fst acc !! n = None) ->
    fst (fold_left (load_entry kind dirname import) entries acc) !! name
      = Some handler <->
    fst acc !! name = Some handler \/
    exists modPath, In (name, modPath) entries /\ loads (name, modPath) handler).
  { induction entries as [|[n p] entries IH]; intros acc Hnd Hfresh.
    - simpl. split; [now left|]. intros [Hacc|(p & [] & _)]. exact Hacc.
    - simpl in Hnd. apply NoDup_cons in Hnd as [Hn Hnd]. simpl.
      destruct (decide (n = name)) as [->|Hne].
      + rewrite fold_load_entry_lookup by exact Hn.
        rewrite load_entry_lookup. simpl.
        destruct (decide (name = name)) as [_|]; [|congruence].
        rewrite (Hfresh name) by (simpl; left).
        unfold loads. simpl. split.
        * destruct (validatePluginPath dirname p) as [safePath|] eqn:Hv;
            [|discriminate].
          destruct (import ("./" ++ safePath ++ ".js")%string) eqn:Hi;
            [|discriminate].
          intros Heq. right. exists p. split; [now left|].
          exists safePath. split; [exact Hv|congruence].
        * intros [Habs|(p' & [Hin|Hin] & safePath & Hv & Hi)];
            [discriminate| |].
          -- inversion Hin; subst. now rewrite Hv, Hi.
          -- exfalso. apply Hn. apply list_elem_of_In.
             change name with (fst (name, p')). now apply in_map.
      + rewrite IH; [|exact Hnd|].
        * rewrite load_entry_lookup. simpl.
          destruct (decide (n = name)); [congruence|].
          split; intros [Hacc|(p' & Hin & Hl)]; try (now left).
          -- right. exists p'. split; [now right|exact Hl].
          -- destruct Hin as [Hin|Hin]; [congruence|].
             right. now exists p'.
        * intros n' Hn'. rewrite load_entry_lookup. simpl.
          destruct (decide (n = n')) as [->|]; [contradiction|].
          apply Hfresh. now right. }
  intros Hnd. rewrite (Hgen (∅, []) Hnd).
  - simpl. rewrite lookup_empty. split; [intros [|]; [discriminate|assumption]|].
    now right.
  - intros n _. apply lookup_empty.
Qed.

End PluginLoading.

Section PluginLoadingRuns.
Import Registry.

(** A module loader over a disk that holds [plugins/a.js], [plugins/c.js]
    and, beside the plugin directory, [plugins_evil/mod.js]; a handler is
    named by the file it comes from. *)
Definition modules_on_disk (specifier : string) : settled string exn :=
  if String.eqb specifier "./plugins/a.js" then Fulfilled "plugins/a.js"
  else if String.eqb specifier "./plugins/c.js" then Fulfilled "plugins/c.js"
  else if String.eqb specifier "./plugins_evil/mod.js"
       then Fulfilled "plugins_evil/mod.js"
  else Rejected (Error "Cannot find module").

Example resolve_base : resolve "/app/dist/" "plugins" = "/app/dist/plugins".
Proof. vm_compute. reflexivity. Qed.

Example clean_strips_dots : clean "../../etc/passwd" = "//etc/passwd".
Proof. vm_compute. reflexivity. Qed.

Example validatePluginPath_traversal :
  validatePluginPath "/app/dist/" "../../etc/passwd"
  = Rejected (Error "Invalid plugin path: ../../etc/passwd resolves outside allowed directory").
Proof. vm_compute. reflexivity. Qed.

(** Three configured plugins, the second of which fails to import: two
    handlers, one warning, and the loop runs to its end. *)
Example load_plugins_one_of_three_fails :
  let loaded :=
    load_plugins "normalizer" "/app/dist/" modules_on_disk
      [ ("a", "plugins/a"); ("b", "plugins/b"); ("c", "plugins/c") ] in
  fst loaded = <["a" := "plugins/a.js"]> (<["c" := "plugins/c.js"]> ∅) /\
  size (fst loaded) = 2 /\
  snd loaded = [ Info "loaded normalizer" "a";
                 Warn "normalizer loading failed; skipped" "b";
                 Info "loaded normalizer" "c" ].
Proof. vm_compute. repeat split. Qed.

(** C7, where the code departs from it.  The configured path
    ["plugins_evil/mod"] passes [validatePluginPath], because
    ["/app/dist/plugins_evil/mod"] starts with the text
    ["/app/dist/plugins"]; the module it names lies beside the plugin
    directory, not in it; and the loop loads and registers it. *)
Theorem sibling_directory_is_loaded :
  validatePluginPath "/app/dist/" "plugins_evil/mod"
  = Fulfilled "plugins_evil/mod" /\
  module_file "/app/dist/" "plugins_evil/mod" = "/app/dist/plugins_evil/mod.js" /\
  inside (resolve "/app/dist/" "plugins")
         (module_file "/app/dist/" "plugins_evil/mod") = false /\
  fst (load_plugins "normalizer" "/app/dist/" modules_on_disk
         [ ("evil", "plugins_evil/mod") ]) !! "evil"
  = Some "plugins_evil/mod.js".
Proof.
  split; [vm_compute; reflexivity|].
  split; [vm_compute; reflexivity|].
  split; [vm_compute; reflexivity|].
  apply load_plugins_registered.
  - simpl. apply NoDup_singleton.
  - exists "plugins_evil/mod". split; [now left|].
    exists "plugins_evil/mod". split; vm_compute; reflexivity.
Qed.

End PluginLoadingRuns.

(* ===================================================================== *)
(** ** The service: what each step leaves of the state *)
(* ===================================================================== *)

Section ServiceSteps.
Import Service.

Context {World : Type} (pf : Platform World).

Lemma suspend_batch (st : State World) :
  batch (suspend pf st) = batch st ++ fst (suspended pf (world st)).
Proof. unfold suspend. now destruct (suspended pf (world st)). Qed.

Lemma suspend_world (st : State World) :
  world (suspend pf st) = snd (suspended pf (world st)).
Proof. unfold suspend. now destruct (suspended pf (world st)). Qed.

Lemma suspend_metrics (st : State World) :
  metrics (suspend pf st) = metrics st.
Proof. unfold suspend. now destruct (suspended pf (world st)). Qed.

Lemma suspend_effects (st : State World) :
  effects (suspend pf st) = effects st.
Proof. unfold suspend. now destruct (suspended pf (world st)). Qed.

Lemma suspend_inFlight (st : State World) :
  inFlightUpserts (suspend pf st) = inFlightUpserts st.
Proof. unfold suspend. now destruct (suspended pf (world st)). Qed.

Lemma suspend_promises (st : State World) :
  promises (suspend pf st) = promises st.
Proof. unfold suspend. now destruct (suspended pf (world st)). Qed.

Lemma await_fst {T} (op : World -> settled T exn * World) (st : State World) :
  fst (await pf op st) = fst (op (world st)).
Proof. unfold await, await_among. now destruct (op (world st)). Qed.

Lemma await_snd {T} (op : World -> settled T exn * World) (st : State World) :
  snd (await pf op st) = suspend pf (with_world (snd (op (world st))) st).
Proof. unfold await, await_among. now destruct (op (world st)). Qed.

Lemma count_suspend metric labels (st : State World) :
  count metric labels (suspend pf st) = count metric labels st.
Proof. unfold count. now rewrite suspend_metrics. Qed.

Lemma count_inc_same metric labels n (st : State World) :
  count metric labels (inc metric labels n st) = count metric labels st + n.
Proof. unfold count at 1. simpl. now rewrite lookup_insert_eq. Qed.

Lemma count_inc_other metric labels metric' labels' n (st : State World) :
  (metric', labels') <> (metric, labels) ->
  count metric labels (inc metric' labels' n st) = count metric labels st.
Proof. intros Hne. unfold count. simpl. now rewrite lookup_insert_ne. Qed.

(** [push_events] only ever touches [batch]. *)
Lemma push_events_metrics cfg events : forall st : State World,
  metrics (snd (push_events cfg pf events st)) = metrics st.
Proof.
  induction events as [|ev events IH]; intros st; simpl; [reflexivity|].
  destruct (DomainEventSchema_ok ev); simpl; [|reflexivity].
  now rewrite IH.
Qed.

(** The first candidate that fails the schema stops the loop: those before
    it are in the buffer by then, it and those after it are not. *)
Lemma push_events_stops cfg valid bad rest : forall st : State World,
  Forall (fun ev => DomainEventSchema_ok ev = true) valid ->
  DomainEventSchema_ok bad = false ->
  fst (push_events cfg pf (valid ++ bad :: rest) st)
  = Rejected (Error "Domain event schema violation") /\
  batch (snd (push_events cfg pf (valid ++ bad :: rest) st))
  = batch st ++ List.map (batch_entry cfg pf) valid.
Proof.
  induction valid as [|ev valid IH]; intros st Hvalid Hbad; simpl.
  - rewrite Hbad. simpl. now rewrite app_nil_r.
  - apply Forall_cons in Hvalid as [Hev Hvalid]. rewrite Hev. simpl.
    destruct (IH (push (batch_entry cfg pf ev) st) Hvalid Hbad) as [-> ->].
    split; [reflexivity|]. simpl. now rewrite <- app_assoc.
Qed.

(** All candidates pass: each is pushed, in order. *)
Lemma push_events_all cfg events : forall st : State World,
  Forall (fun ev => DomainEventSchema_ok ev = true) events ->
  fst (push_events cfg pf events st) = Fulfilled tt /\
  batch (snd (push_events cfg pf events st))
  = batch st ++ List.map (batch_entry cfg pf) events.
Proof.
  induction events as [|ev events IH]; intros st Hvalid; simpl.
  - now rewrite app_nil_r.
  - apply Forall_cons in Hvalid as [Hev Hvalid]. rewrite Hev. simpl.
    destruct (IH (push (batch_entry cfg pf ev) st) Hvalid) as [-> ->].
    split; [reflexivity|]. simpl. now rewrite <- app_assoc.
Qed.

End ServiceSteps.

(* ===================================================================== *)
(** ** A scripted platform, for running the service *)
(* ===================================================================== *)

(** The [SyntaxError] of [JSON.parse]. *)
Definition SyntaxError (message : string) : exn :=
  {| exn_name := Some "SyntaxError"; exn_message := message |}.

(** A world that follows a script: how the next calls to the broker and to
    storage settle, and what other handlers push at the next suspensions.
    Past the end of the script calls succeed and nothing is pushed. *)
Record Script : Type := {
  outcomes : list bool;
  arrivals : list (list Service.TopicMessages)
}.

Definition settle_next (w : Script) : settled unit exn * Script :=
  match outcomes w with
  | [] => (Fulfilled tt, w)
  | true :: rest =>
      (Fulfilled tt, {| outcomes := rest; arrivals := arrivals w |})
  | false :: rest =>
      (Rejected (Error "unavailable"),
       {| outcomes := rest; arrivals := arrivals w |})
  end.

Definition arrive_next (w : Script) : list Service.TopicMessages * Script :=
  match arrivals w with
  | [] => ([], w)
  | pushed :: rest => (pushed, {| outcomes := outcomes w; arrivals := rest |})
  end.

(** JSON text is written with ['] for the double quote. *)
Fixpoint text (s : string) : string :=
  match s with
  | EmptyString => EmptyString
  | String a s' =>
      String (if Ascii.eqb a "'" then "034"%char else a) (text s')
  end.

(** The platform of the runs below.  [JSON.parse] is given by the texts it
    accepts and throws on every other; the stand-in for [JSON.stringify]
    writes the fingerprint only; a buffer is read byte by code unit, which
    is how ASCII text reads as UTF-8. *)
Definition scripted (parses : list (string * value)) : Service.Platform Script :=
  {| Service.JSON_parse := fun s =>
       match List.find (fun p => String.eqb (fst p) s) parses with
       | Some p => Fulfilled (snd p)
       | None => Rejected (SyntaxError "Unexpected token")
       end;
     Service.JSON_stringify := fun ev =>
       ("json:" ++ ToString (get (get ev "event") "fingerprint"))%string;
     Service.Buffer_toString := String.string_of_list_byte;
     Service.random := fun w => (QArith_base.Qmake 1 2, w);
     Service.producer_sendBatch := fun _ w => settle_next w;
     Service.producer_send := fun _ w => settle_next w;
     Service.suspended := arrive_next |}.

Definition topics : Service.Topics :=
  {| Service.rawTopic := "tool.raw";
     Service.domainTopic := "events.domain";
     Service.dlqTopic := "events.dlq" |}.

(** The service just started, in a world that follows [w]. *)
Definition started (w : Script) : Service.State Script :=
  {| Service.batch := []; Service.inFlightUpserts := ∅;
     Service.promises := 0; Service.metrics := ∅;
     Service.effects := []; Service.world := w |}.

Definition calm : Script := {| outcomes := []; arrivals := [] |}.

(** An event that passes [DomainEventSchema], and one that does not. *)
Definition good_event (fp : string) : value :=
  VObj [ ("specVersion", VStr "1.0");
         ("event", VObj [ ("event_type", VStr "SENSOR_READING");
                          ("fingerprint", VStr fp) ]);
         ("meta", VObj []) ].

Definition bad_event : value := VObj [ ("specVersion", VStr "1.0") ].

Example good_event_ok fp :
  fp <> "" -> DomainEventSchema_ok (good_event fp) = true.
Proof. intros H. destruct fp; [congruence|reflexivity]. Qed.

Example bad_event_not_ok : DomainEventSchema_ok bad_event = false.
Proof. reflexivity. Qed.

(* ===================================================================== *)
(** ** RAW dispatch: a candidate that fails the schema *)
(* ===================================================================== *)

Section RawDispatch.
Import Service.

(** C5, as amended.  When a candidate returned by the normalizer fails
    [DomainEventSchema], the attempt fails for the whole message, and
    neither that candidate nor any after it is pushed by the attempt; the
    candidates before the first failing one, which passed, have been
    pushed by then and stay in the buffer. *)
Theorem handle_invalid_candidate {World : Type} (cfg : Topics)
    (pf : Platform World) (plugins : Plugins World)
    (topic rawBytes : string) (obj : JS.value) (norm : INormalizer)
    (valid rest : list JS.value) (bad : JS.value) (st : State World) :
  topic = rawTopic cfg ->
  JSON_parse pf rawBytes = Fulfilled obj ->
  RawMessageSchema_ok obj = true ->
  handler_for (normalizers plugins) (get obj "tool") = Some norm ->
  norm obj = Fulfilled (Some (valid ++ bad :: rest)) ->
  Forall (fun ev => DomainEventSchema_ok ev = true) valid ->
  DomainEventSchema_ok bad = false ->
  fst (handle cfg pf plugins topic rawBytes st)
  = Rejected (Error "Domain event schema violation") /\
  batch (snd (handle cfg pf plugins topic rawBytes st))
  = batch st ++ List.map (batch_entry cfg pf) valid.
Proof.
  intros -> Hparse Hraw Hnorm Hret Hvalid Hbad.
  unfold handle. rewrite Hparse, String.eqb_refl, Hraw, Hnorm, Hret. simpl.
  destruct (push_events_stops pf cfg valid bad rest
              (inc "messagesConsumed" [rawTopic cfg] 1 st) Hvalid Hbad)
    as [Hfst Hsnd].
  destruct (push_events cfg pf (valid ++ bad :: rest)
              (inc "messagesConsumed" [rawTopic cfg] 1 st)) as [r st1].
  simpl in *. subst r. simpl. split; [reflexivity|exact Hsnd].
Qed.

(** A normalizer that returns a valid candidate and then an invalid one. *)
Definition one_good_one_bad : INormalizer :=
  fun _ => Fulfilled (Some [good_event "f1"; bad_event]).

Definition split_plugins : Plugins Script :=
  {| normalizers := {[ "split" := one_good_one_bad ]}; upserters := ∅ |}.

Definition split_message : string := text "{'tool':'split','runId':'r1'}".

Definition split_platform : Platform Script :=
  scripted [ (split_message,
              VObj [ ("tool", VStr "split"); ("runId", VStr "r1") ]) ].

Lemma handle_invalid_candidate_witness :
  fst (handle topics split_platform split_plugins "tool.raw" split_message
         (started calm))
  = Rejected (Error "Domain event schema violation") /\
  batch (snd (handle topics split_platform split_plugins "tool.raw"
                split_message (started calm)))
  = [] ++ List.map (batch_entry topics split_platform) [good_event "f1"].
Proof.
  apply (handle_invalid_candidate topics split_platform split_plugins
           "tool.raw" split_message
           (VObj [ ("tool", VStr "split"); ("runId", VStr "r1") ])
           one_good_one_bad [good_event "f1"] [] bad_event (started calm)).
  - reflexivity.
  - vm_compute. reflexivity.
  - reflexivity.
  - vm_compute. reflexivity.
  - reflexivity.
  - repeat constructor.
  - reflexivity.
Defined.

(** C5 fails as stated: of the two candidates of one message, the valid
    one is in the buffer after the attempt that failed on the other. *)
Lemma valid_candidate_pushed_before_failure :
  batch (started calm) = [] /\
  fst (handle topics split_platform split_plugins "tool.raw" split_message
         (started calm))
  = Rejected (Error "Domain event schema violation") /\
  batch (snd (handle topics split_platform split_plugins "tool.raw"
                split_message (started calm)))
  = [ {| topic := "events.domain";
         messages := [ {| key := Some "f1"; value := "json:f1" |} ] |} ].
Proof. vm_compute. repeat split. Qed.

End RawDispatch.

(* ===================================================================== *)
(** ** DOMAIN dispatch: the in-flight set *)
(* ===================================================================== *)

Section DomainDispatch.
Import Service.

Context {World : Type} (cfg : Topics) (pf : Platform World)
  (plugins : Plugins World).

(** The message is a valid domain event on the domain topic, and an
    upserter is registered for its type. *)
Definition upserts (topic rawBytes : string) (obj : JS.value)
    (up : IUpserter World) : Prop :=
  String.eqb topic (rawTopic cfg) = false /\
  topic = domainTopic cfg /\
  JSON_parse pf rawBytes = Fulfilled obj /\
  DomainEventSchema_ok obj = true /\
  handler_for (upserters plugins) (get (get obj "event") "event_type")
  = Some up.

(** The upsert fulfils: its promise was added and is removed again. *)
Lemma handle_upsert_fulfilled topic rawBytes obj up (st : State World) :
  upserts topic rawBytes obj up ->
  fst (up obj (world st)) = Fulfilled tt ->
  fst (handle cfg pf plugins topic rawBytes st) = Fulfilled tt /\
  inFlightUpserts (snd (handle cfg pf plugins topic rawBytes st))
  = ({[promises st]} ∪ inFlightUpserts st) ∖ {[promises st]}.
Proof.
  intros (Hraw & -> & Hparse & Hok & Hup) Hful.
  unfold handle. rewrite Hparse, Hraw, String.eqb_refl, Hok, Hup. simpl.
  unfold await, await_among. simpl.
  destruct (up obj (world st)) as [r w]. simpl in Hful.
  subst r. simpl. split; [reflexivity|]. now rewrite suspend_inFlight.
Qed.

(** The upsert rejects: the attempt fails with that error, and the promise,
    although settled, is still in the set. *)
Lemma handle_upsert_rejected topic rawBytes obj up err (st : State World) :
  upserts topic rawBytes obj up ->
  fst (up obj (world st)) = Rejected err ->
  fst (handle cfg pf plugins topic rawBytes st) = Rejected err /\
  inFlightUpserts (snd (handle cfg pf plugins topic rawBytes st))
  = {[promises st]} ∪ inFlightUpserts st /\
  effects (snd (handle cfg pf plugins topic rawBytes st))
  = effects st ++ [Upsert obj (promises st) false].
Proof.
  intros (Hraw & -> & Hparse & Hok & Hup) Hrej.
  unfold handle. rewrite Hparse, Hraw, String.eqb_refl, Hok, Hup. simpl.
  unfold await, await_among. simpl.
  destruct (up obj (world st)) as [r w]. simpl in Hrej.
  subst r. simpl. split; [reflexivity|].
  now rewrite suspend_inFlight, suspend_effects.
Qed.

End DomainDispatch.

Section DomainDispatchRuns.
Import Service.

Definition reading_message : string :=
  text "{'specVersion':'1.0','event':{'event_type':'SENSOR_READING','fingerprint':'f1'},'meta':{}}".

(** An upserter whose promise settles as the script of the world says. *)
Definition scripted_upserter : IUpserter Script := fun _ w => settle_next w.

Definition reading_plugins : Plugins Script :=
  {| normalizers := ∅;
     upserters := {[ "SENSOR_READING" := scripted_upserter ]} |}.

Definition reading_platform : Platform Script :=
  scripted [ (reading_message, good_event "f1") ].

Definition storage_down (attempts : nat) : Script :=
  {| outcomes := repeat false attempts; arrivals := [] |}.

Lemma reading_upserts :
  upserts topics reading_platform reading_plugins "events.domain"
    reading_message (good_event "f1") scripted_upserter.
Proof. repeat split; vm_compute; reflexivity. Qed.

Example fulfilled_upsert_leaves_the_set :
  inFlightUpserts
    (snd (handle topics reading_platform reading_plugins "events.domain"
            reading_message (started calm))) = ∅.
Proof.
  destruct (handle_upsert_fulfilled topics reading_platform reading_plugins
              "events.domain" reading_message (good_event "f1")
              scripted_upserter (started calm) reading_upserts eq_refl)
    as [_ ->].
  simpl. set_solver.
Qed.

(** C6, where the code departs from it.  A domain event whose upsert
    rejects: the attempt fails, the promise (number 0) has settled as
    rejected, and it is still in [inFlightUpserts]; after the three
    attempts of the dispatch all three rejected promises are. *)
Theorem rejected_upsert_stays_in_flight :
  fst (handle topics reading_platform reading_plugins "events.domain"
         reading_message (started (storage_down 1)))
  = Rejected (Error "unavailable") /\
  effects (snd (handle topics reading_platform reading_plugins
                  "events.domain" reading_message (started (storage_down 1))))
  = [ Upsert (good_event "f1") 0 false ] /\
  inFlightUpserts
    (snd (handle topics reading_platform reading_plugins "events.domain"
            reading_message (started (storage_down 1)))) = {[ 0 ]} /\
  inFlightUpserts
    (dispatch topics reading_platform reading_plugins "events.domain"
       reading_message (started (storage_down 3))) = {[ 0; 1; 2 ]}.
Proof.
  destruct (handle_upsert_rejected topics reading_platform reading_plugins
              "events.domain" reading_message (good_event "f1")
              scripted_upserter (Error "unavailable")
              (started (storage_down 1)) reading_upserts eq_refl)
    as (-> & -> & ->).
  split; [reflexivity|]. split; [reflexivity|].
  split; [simpl; set_solver|].
  vm_compute. reflexivity.
Qed.

End DomainDispatchRuns.

(* ===================================================================== *)
(** ** The dispatch chain: attempts, exhaustion, dead letters *)
(* ===================================================================== *)

Section RetryRuns.

Context {W T E : Type} (rt : Runtime W) (fn : W -> settled T E * W).
Context (calls : W -> nat).

(** Whatever the operation does, [retry] runs it at least once. *)
Lemma retry_loop_runs retries baseMs :
  counts_runs rt fn calls ->
  forall n attempt w,
    n = Z.to_nat (retries - attempt) ->
    S (calls w) <= calls (snd (retry_loop rt fn retries baseMs attempt w)).
Proof.
  intros Hc n. induction n as [|n IH]; intros attempt w Hn;
    destruct (fn w) as [[t|err] w1] eqn:Hfn.
  - rewrite (retry_loop_fulfilled _ _ _ _ _ _ _ _ Hfn). simpl.
    destruct Hc as (Hc & _). specialize (Hc w). rewrite Hfn in Hc.
    simpl in Hc. lia.
  - rewrite (retry_loop_exhausted _ _ _ _ _ _ _ _ Hfn) by lia. simpl.
    destruct Hc as (Hc & _). specialize (Hc w). rewrite Hfn in Hc.
    simpl in Hc. lia.
  - rewrite (retry_loop_fulfilled _ _ _ _ _ _ _ _ Hfn). simpl.
    destruct Hc as (Hc & _). specialize (Hc w). rewrite Hfn in Hc.
    simpl in Hc. lia.
  - destruct (Z_gt_le_dec (attempt + 1) retries) as [Hgt|Hle].
    + rewrite (retry_loop_exhausted _ _ _ _ _ _ _ _ Hfn) by lia. simpl.
      destruct Hc as (Hc & _). specialize (Hc w). rewrite Hfn in Hc.
      simpl in Hc. lia.
    + rewrite (retry_loop_again _ _ _ _ _ _ _ _ Hfn) by lia.
      etransitivity; [|apply IH; lia].
      pose proof (calls_after_sleep rt fn calls
                    (delay baseMs (attempt + 1) (fst (Math_random rt w1)))
                    w Hc) as Hs.
      rewrite Hfn in Hs. simpl in Hs. lia.
Qed.

(** What every step of the loop preserves holds when it ends. *)
Lemma retry_loop_invariant (P : W -> Prop) retries baseMs :
  (forall w, P w -> P (snd (fn w))) ->
  (forall w, P w -> P (snd (Math_random rt w))) ->
  (forall d w, P w -> P (setTimeout rt d w)) ->
  forall n attempt w,
    n = Z.to_nat (retries - attempt) -> P w ->
    P (snd (retry_loop rt fn retries baseMs attempt w)).
Proof.
  intros Hfn Hrand Hsleep n.
  induction n as [|n IH]; intros attempt w Hn Hw;
    pose proof (Hfn w Hw) as Hw1;
    destruct (fn w) as [[t|err] w1] eqn:Hrun; simpl in Hw1.
  - now rewrite (retry_loop_fulfilled _ _ _ _ _ _ _ _ Hrun).
  - now rewrite (retry_loop_exhausted _ _ _ _ _ _ _ _ Hrun) by lia.
  - now rewrite (retry_loop_fulfilled _ _ _ _ _ _ _ _ Hrun).
  - destruct (Z_gt_le_dec (attempt + 1) retries) as [Hgt|Hle].
    + now rewrite (retry_loop_exhausted _ _ _ _ _ _ _ _ Hrun) by lia.
    + rewrite (retry_loop_again _ _ _ _ _ _ _ _ Hrun) by lia.
      apply IH; [lia|]. apply Hsleep, Hrand. exact Hw1.
Qed.

End RetryRuns.

Section Dispatch.
Import Service Registry.

Context {World : Type} (cfg : Topics) (pf : Platform World)
  (plugins : Plugins World).

(** Every attempt counts the message as consumed, once. *)
Lemma handle_consumes topic rawBytes (st : State World) :
  count "messagesConsumed" [topic]
    (snd (handle cfg pf plugins topic rawBytes st))
  = S (count "messagesConsumed" [topic] st).
Proof.
  unfold handle.
  assert (H0 : count "messagesConsumed" [topic]
                 (inc "messagesConsumed" [topic] 1 st)
               = S (count "messagesConsumed" [topic] st))
    by (rewrite count_inc_same; lia).
  revert H0. generalize (inc "messagesConsumed" [topic] 1 st). intros st0 H0.
  destruct (JSON_parse pf rawBytes) as [obj|err]; [|exact H0].
  destruct (String.eqb topic (rawTopic cfg)).
  - destruct (RawMessageSchema_ok obj); [|exact H0]. simpl.
    destruct (handler_for (normalizers plugins) (get obj "tool")) as [norm|].
    + destruct (norm obj) as [returned|err]; [|exact H0].
      pose proof (push_events_metrics pf cfg (default [] returned) st0) as Hm.
      destruct (push_events cfg pf (default [] returned) st0) as [[[]|err] st1];
        simpl in *.
      * rewrite count_inc_other by discriminate.
        unfold count in *. now rewrite Hm.
      * unfold count in *. now rewrite Hm.
    + simpl. now rewrite count_inc_other by discriminate.
  - destruct (String.eqb topic (domainTopic cfg)); [|exact H0].
    destruct (DomainEventSchema_ok obj); [|exact H0]. simpl.
    destruct (handler_for (upserters plugins)
                (get (get obj "event") "event_type")) as [up|]; [|exact H0].
    unfold await, await_among. simpl.
    destruct (up obj (world st0)) as [[[]|err] w]; simpl.
    + rewrite !count_inc_other by discriminate.
      unfold count in *. simpl. now rewrite suspend_metrics.
    + unfold count in *. simpl. now rewrite suspend_metrics.
Qed.

Lemma handle_counts_runs topic rawBytes :
  counts_runs (runtime pf) (handle cfg pf plugins topic rawBytes)
    (count "messagesConsumed" [topic]).
Proof.
  repeat split.
  - apply handle_consumes.
  - intros st. simpl. now destruct (random pf (world st)).
  - intros d st. simpl. apply count_suspend.
Qed.



Lemma on_failed_metrics topic rawBytes err (st : State World) :
  metrics (on_failed cfg pf topic rawBytes err st)
  = metrics (inc "processingErrors"
               [topic; default "unknown" (exn_name err)] 1 st).
Proof.
  unfold on_failed, await, await_among. simpl.
  destruct (producer_send pf _ (world st)) as [[[]|dlqErr] w]; simpl;
    now rewrite suspend_metrics.
Qed.


Lemma on_failed_consumed topic topic' rawBytes err (st : State World) :
  count "messagesConsumed" [topic'] (on_failed cfg pf topic rawBytes err st)
  = count "messagesConsumed" [topic'] st.
Proof.
  unfold count at 1. rewrite on_failed_metrics.
  change (count "messagesConsumed" [topic']
            (inc "processingErrors"
               [topic; default "unknown" (exn_name err)] 1 st)
          = count "messagesConsumed" [topic'] st).
  now rewrite count_inc_other by discriminate.
Qed.

(** A message with a value, empty or not, is counted as consumed. *)
Lemma dispatch_consumes topic rawBytes (st : State World) :
  S (count "messagesConsumed" [topic] st)
  <= count "messagesConsumed" [topic]
       (dispatch cfg pf plugins topic rawBytes st).
Proof.
  unfold dispatch, retry. simpl.
  pose proof (retry_loop_runs (runtime pf)
                (handle cfg pf plugins topic rawBytes)
                (count "messagesConsumed" [topic]) 2 (QArith_base.inject_Z 200)
                (handle_counts_runs topic rawBytes) _ 0%Z st eq_refl) as Hrun.
  destruct (retry_loop (runtime pf) (handle cfg pf plugins topic rawBytes)
              2 (QArith_base.inject_Z 200) 0 st) as [[[]|err] st1];
    simpl in Hrun; [exact Hrun|].
  now rewrite on_failed_consumed.
Qed.

End Dispatch.

(* ===================================================================== *)
(** ** Reading a Buffer as UTF-8 *)
(* ===================================================================== *)

Module Utf8.

(** [buffer.toString("utf8")], the decoder of the Encoding Standard that
    Node runs: a well-formed sequence is read as it is, and each maximal
    ill-formed part becomes U+FFFD.  The text that comes out is written
    here as the UTF-8 bytes it has, which are the bytes it is sent as when
    it is the value of a Kafka message; U+FFFD is [EF BF BD].  For ASCII
    these bytes are the code units of the text. *)

Definition replacement : list Byte.byte := [ Byte.xef; Byte.xbf; Byte.xbd ].

Definition between (lo hi : N) (b : Byte.byte) : bool :=
  (lo <=? Byte.to_N b)%N && (Byte.to_N b <=? hi)%N.

(** A sequence that is under way: the bytes read so far, how many are
    still to come, and the bounds of the next one. *)
Record pending : Type := {
  seen : list Byte.byte;
  needed : nat;
  lower : N;
  upper : N
}.

(** What a byte is where no sequence is under way. *)
Inductive kind : Type :=
| Single
| Lead (needed : nat) (lower upper : N)
| Invalid.

Definition classify (b : Byte.byte) : kind :=
  if between 0x00 0x7F b then Single
  else if between 0xC2 0xDF b then Lead 1 0x80 0xBF
  else if between 0xE0 0xE0 b then Lead 2 0xA0 0xBF
  else if between 0xED 0xED b then Lead 2 0x80 0x9F
  else if between 0xE1 0xEF b then Lead 2 0x80 0xBF
  else if between 0xF0 0xF0 b then Lead 3 0x90 0xBF
  else if between 0xF4 0xF4 b then Lead 3 0x80 0x8F
  else if between 0xF1 0xF3 b then Lead 3 0x80 0xBF
  else Invalid.

(** The byte [b] where no sequence is under way; [continue] reads the rest
    of the buffer. *)
Definition fresh (b : Byte.byte)
    (continue : option pending -> list Byte.byte) : list Byte.byte :=
  match classify b with
  | Single => b :: continue None
  | Lead n lo hi =>
      continue (Some {| seen := [b]; needed := n; lower := lo; upper := hi |})
  | Invalid => replacement ++ continue None
  end.







End Utf8.

Section Utf8Reading.
Import Utf8.




End Utf8Reading.

Section DeadLetters.
Import Service Registry.




(** A message that is not JSON, on a platform whose [JSON.parse] accepts
    nothing. *)
Definition not_json : list Byte.byte := String.list_byte_of_string "not json".

Definition no_plugins : Plugins Script :=
  {| normalizers := ∅; upserters := ∅ |}.





(** The same run, computed: three attempts, one error counted under the
    topic and ["SyntaxError"], the text sent to the dead-letter topic. *)
Example not_json_run :
  let st := after_eachMessage topics (scripted []) no_plugins "tool.raw"
              (Some not_json) (started calm) in
  count "messagesConsumed" ["tool.raw"] st = 3 /\
  count "processingErrors" ["tool.raw"; "SyntaxError"] st = 1 /\
  effects st
  = [ Logged (LogError "failed permanently, sending to DLQ");
      Send {| topic := "events.dlq";
              messages := [ {| key := None; value := "not json" |} ] |} true ].
Proof. vm_compute. repeat split. Qed.

(** The dead-letter send fails too: it is logged, and that is all. *)
Example not_json_run_dlq_down :
  effects (after_eachMessage topics (scripted []) no_plugins "tool.raw"
             (Some not_json)
             (started {| outcomes := [false]; arrivals := [] |}))
  = [ Logged (LogError "failed permanently, sending to DLQ");
      Send {| topic := "events.dlq";
              messages := [ {| key := None; value := "not json" |} ] |} false;
      Logged (LogError "DLQ publish failed") ].
Proof. vm_compute. reflexivity. Qed.

(** The message of [valid_candidate_pushed_before_failure], through the
    whole chain: each of the three attempts pushes the valid candidate
    again before it fails on the invalid one. *)
Example split_message_run :
  let st := dispatch topics split_platform split_plugins "tool.raw"
              split_message (started calm) in
  List.map (fun entry => List.map key (messages entry)) (batch st)
  = [ [Some "f1"]; [Some "f1"]; [Some "f1"] ] /\
  count "processingErrors" ["tool.raw"; "Error"] st = 1.
Proof. vm_compute. repeat split. Qed.

End DeadLetters.

(* ===================================================================== *)
(** ** Messages without a value *)
(* ===================================================================== *)

Section Tombstones.
Import Service Registry.

(** C10, as amended.  A message whose value is [null] is dropped at once:
    the callback starts no chain, so nothing is counted, parsed, retried or
    published, and the state is as before. *)
Theorem null_value_is_dropped {World : Type} (cfg : Topics)
    (pf : Platform World) (plugins : Plugins World) (topic : string)
    (st : State World) :
  eachMessage cfg pf plugins topic None = (Fulfilled tt, None) /\
  after_eachMessage cfg pf plugins topic None st = st.
Proof. split; reflexivity. Qed.

(** C10 fails as stated: a message whose value is an empty [Buffer] is not
    dropped.  An empty [Buffer] is an object, so [!message.value] is false:
    the message is counted as consumed on each of three attempts, fails to
    parse, and its empty text is sent to the dead-letter topic. *)
Lemma empty_value_is_dispatched :
  snd (eachMessage topics (scripted []) no_plugins "tool.raw" (Some []))
  <> None /\
  count "messagesConsumed" ["tool.raw"] (started calm) = 0 /\
  count "messagesConsumed" ["tool.raw"]
    (after_eachMessage topics (scripted []) no_plugins "tool.raw" (Some [])
       (started calm)) = 3 /\
  effects (after_eachMessage topics (scripted []) no_plugins "tool.raw"
             (Some []) (started calm))
  = [ Logged (LogError "failed permanently, sending to DLQ");
      Send {| topic := "events.dlq";
              messages := [ {| key := None; value := "" |} ] |} true ].
Proof. split; [discriminate|]. vm_compute. repeat split. Qed.

(** On every platform, whatever [JSON.parse] makes of the empty text. *)
Lemma empty_value_is_consumed {World : Type} (cfg : Topics)
    (pf : Platform World) (plugins : Plugins World) (topic : string)
    (st : State World) :
  S (count "messagesConsumed" [topic] st)
  <= count "messagesConsumed" [topic]
       (after_eachMessage cfg pf plugins topic (Some []) st).
Proof. apply dispatch_consumes. Qed.

End Tombstones.

(* ===================================================================== *)
(** ** The batch buffer *)
(* ===================================================================== *)

Section BatchBuffer.
Import Service Registry.

(** Among handlers that only push, it is [flushBatch]. *)
Lemma flushBatch_among_handlers {World : Type} (pf : Platform World)
    (st : State World) :
  flushBatch_among pf (suspend pf) st = flushBatch pf st.
Proof. reflexivity. Qed.

(** One flush whose send succeeds, whatever runs meanwhile: the other
    tasks find the buffer without the entries that are being sent. *)
Lemma flushBatch_among_sends {World : Type} (pf : Platform World)
    (others : State World -> State World) (st : State World) first more w1 :
  batch st = first :: more ->
  producer_sendBatch pf (batch st) (world st) = (Fulfilled tt, w1) ->
  flushBatch_among pf others st
  = (Fulfilled tt,
     inc "messagesProduced" [] (producedCount (batch st))
       (emit (SendBatch (batch st) true)
          (others (with_world w1 (with_batch [] st))))).
Proof.
  intros Hbatch Hsend. unfold flushBatch_among. rewrite Hbatch.
  rewrite <- Hbatch.
  assert (Hcall :
    sendBatch_call_among pf others (batch st) (with_batch [] st)
    = (Fulfilled tt,
       emit (SendBatch (batch st) true)
         (others (with_world w1 (with_batch [] st))))).
  { unfold sendBatch_call_among, await_among. simpl. now rewrite Hsend. }
  unfold retry. simpl.
  now rewrite (retry_loop_fulfilled _ _ _ _ _ _ _ _ Hcall).
Qed.

(** One flush whose send succeeds. *)
Lemma flushBatch_sends {World : Type} (pf : Platform World)
    (st : State World) first more w1 late w2 :
  batch st = first :: more ->
  producer_sendBatch pf (batch st) (world st) = (Fulfilled tt, w1) ->
  suspended pf w1 = (late, w2) ->
  fst (flushBatch pf st) = Fulfilled tt /\
  effects (snd (flushBatch pf st)) = effects st ++ [SendBatch (batch st) true] /\
  batch (snd (flushBatch pf st)) = late /\
  world (snd (flushBatch pf st)) = w2 /\
  count "messagesProduced" [] (snd (flushBatch pf st))
  = count "messagesProduced" [] st + producedCount (batch st).
Proof.
  intros Hbatch Hsend Hlate. unfold flushBatch, flushBatch_among.
  change (runtime_among pf (suspend pf)) with (runtime pf).
  change (sendBatch_call_among pf (suspend pf) (batch st))
    with (sendBatch_call pf (batch st)).
  rewrite Hbatch.
  rewrite <- Hbatch.
  assert (Hcall :
    sendBatch_call pf (batch st) (with_batch [] st)
    = (Fulfilled tt,
       emit (SendBatch (batch st) true)
         (suspend pf (with_world w1 (with_batch [] st))))).
  { unfold sendBatch_call, sendBatch_call_among, await_among. simpl.
    now rewrite Hsend. }
  unfold retry. simpl.
  rewrite (retry_loop_fulfilled _ _ _ _ _ _ _ _ Hcall). simpl.
  split; [reflexivity|]. split; [now rewrite suspend_effects|].
  split; [rewrite suspend_batch; simpl; now rewrite Hlate|].
  split; [rewrite suspend_world; simpl; now rewrite Hlate|].
  rewrite count_inc_same. f_equal.
  unfold count. simpl. now rewrite suspend_metrics.
Qed.

(** However the sends go, a flush calls the producer with nothing but the
    entries it took out of the buffer, and with an empty buffer not at
    all. *)
Lemma flushBatch_sends_what_it_took {World : Type} (pf : Platform World)
    (st : State World) :
  exists calls,
    effects (snd (flushBatch pf st)) = effects st ++ calls /\
    Forall (fun e => exists ok, e = SendBatch (batch st) ok) calls /\
    (batch st = [] -> calls = []).
Proof.
  unfold flushBatch, flushBatch_among.
  change (runtime_among pf (suspend pf)) with (runtime pf).
  change (sendBatch_call_among pf (suspend pf) (batch st))
    with (sendBatch_call pf (batch st)).
  destruct (batch st) as [|first more] eqn:Hbatch.
  { exists []. simpl. rewrite app_nil_r. now repeat split. }
  rewrite <- Hbatch.
  assert (HP : exists calls,
    effects (snd (retry (runtime pf) (sendBatch_call pf (batch st))
                    no_opts (with_batch [] st))) = effects st ++ calls /\
    Forall (fun e => exists ok, e = SendBatch (batch st) ok) calls).
  { unfold retry. simpl.
    apply (retry_loop_invariant (runtime pf) (sendBatch_call pf (batch st))
             (fun s => exists calls,
                effects s = effects st ++ calls /\
                Forall (fun e => exists ok, e = SendBatch (batch st) ok) calls))
      with (n := Z.to_nat (3 - 0)); try reflexivity.
    - intros s (calls & Heff & Hall).
      unfold sendBatch_call, sendBatch_call_among, await_among.
      destruct (producer_sendBatch pf (batch st) (world s)) as [r w]. simpl.
      exists (calls ++ [SendBatch (batch st) (is_fulfilled r)]).
      rewrite suspend_effects. simpl. rewrite Heff, <- app_assoc.
      split; [reflexivity|]. apply Forall_app. split; [exact Hall|].
      constructor; [now eexists|constructor].
    - intros s (calls & Heff & Hall). simpl.
      destruct (random pf (world s)). now exists calls.
    - intros d s (calls & Heff & Hall). simpl.
      exists calls. now rewrite suspend_effects.
    - exists []. simpl. now rewrite app_nil_r. }
  destruct (retry (runtime pf) (sendBatch_call pf (batch st)) no_opts
              (with_batch [] st)) as [[[]|err] st2];
    destruct HP as (calls & Heff & Hall); simpl in *;
    exists calls; (split; [exact Heff|]); (split; [exact Hall|congruence]).
Qed.

(** C3.  A flush of a buffer that holds entries takes all of them out of
    the buffer before it sends: whatever runs while the send is under way,
    handlers or another flush, finds the buffer without them.  When the
    send succeeds, it is one [sendBatch] call, with exactly those entries
    in push order.  What is pushed while the send is under way is what the
    buffer holds afterwards, and the next flush sends that and nothing of
    the first; a flush that the timer starts while the send is under way
    sends nothing, so that no entry is sent by two flushes.  A flush of an
    empty buffer sends nothing and changes nothing. *)
Theorem flushBatch_atomic {World : Type} (pf : Platform World)
    (st : State World) first more w1 late w2 :
  batch st = first :: more ->
  producer_sendBatch pf (batch st) (world st) = (Fulfilled tt, w1) ->
  suspended pf w1 = (late, w2) ->
  (fst (flushBatch pf st) = Fulfilled tt /\
   effects (snd (flushBatch pf st))
   = effects st ++ [SendBatch (first :: more) true] /\
   batch (snd (flushBatch pf st)) = late /\
   count "messagesProduced" [] (snd (flushBatch pf st))
   = count "messagesProduced" [] st + producedCount (first :: more)) /\
  (forall w3 later w4,
     late <> [] ->
     producer_sendBatch pf late w2 = (Fulfilled tt, w3) ->
     suspended pf w3 = (later, w4) ->
     effects (snd (flushBatch pf (snd (flushBatch pf st))))
     = effects st ++ [SendBatch (first :: more) true; SendBatch late true] /\
     batch (snd (flushBatch pf (snd (flushBatch pf st)))) = later) /\
  (forall st0 : State World,
     batch st0 = [] -> flushBatch pf st0 = (Fulfilled tt, st0)) /\
  (forall others : State World -> State World,
     flushBatch_among pf others st
     = (Fulfilled tt,
        inc "messagesProduced" [] (producedCount (first :: more))
          (emit (SendBatch (first :: more) true)
             (others (with_world w1 (with_batch [] st)))))) /\
  (effects (snd (flushBatch_among pf (fun s => snd (flushBatch pf s)) st))
   = effects st ++ [SendBatch (first :: more) true] /\
   batch (snd (flushBatch_among pf (fun s => snd (flushBatch pf s)) st))
   = []) /\
  (forall s : State World,
     flushBatch_among pf (suspend pf) s = flushBatch pf s).
Proof.
  intros Hbatch Hsend Hlate.
  destruct (flushBatch_sends pf st first more w1 late w2 Hbatch Hsend Hlate)
    as (Hok & Heff & Hb & Hw & Hcount).
  rewrite Hbatch in Heff, Hcount.
  split; [now repeat split|]. split; [|split; [|split; [|split]]].
  - intros w3 later w4 Hne Hsend2 Hlate2.
    destruct late as [|entry late']; [congruence|].
    destruct (flushBatch_sends pf (snd (flushBatch pf st)) entry late'
                w3 later w4) as (_ & Heff2 & Hb2 & _).
    + exact Hb.
    + now rewrite Hb, Hw.
    + exact Hlate2.
    + rewrite Heff2, Heff, Hb, <- app_assoc. now split.
  - intros st0 H0. unfold flushBatch, flushBatch_among. now rewrite H0.
  - intros others.
    rewrite (flushBatch_among_sends pf others st first more w1 Hbatch Hsend).
    now rewrite Hbatch.
  - rewrite (flushBatch_among_sends pf _ st first more w1 Hbatch Hsend).
    rewrite Hbatch. simpl. split; reflexivity.
  - intros s. reflexivity.
Qed.

(** Two entries in the buffer; a third is pushed while the first send is
    under way. *)
Definition entry (fp : string) : TopicMessages :=
  {| topic := "events.domain";
     messages := [ {| key := Some fp; value := ("json:" ++ fp)%string |} ] |}.

Definition two_buffered : State Script :=
  {| batch := [entry "f1"; entry "f2"]; inFlightUpserts := ∅;
     promises := 0; metrics := ∅; effects := [];
     world := {| outcomes := []; arrivals := [[entry "f3"]] |} |}.

Lemma flushBatch_atomic_witness :
  (fst (flushBatch (scripted []) two_buffered) = Fulfilled tt /\
   effects (snd (flushBatch (scripted []) two_buffered))
   = effects two_buffered ++ [SendBatch [entry "f1"; entry "f2"] true] /\
   batch (snd (flushBatch (scripted []) two_buffered)) = [entry "f3"] /\
   count "messagesProduced" [] (snd (flushBatch (scripted []) two_buffered))
   = count "messagesProduced" [] two_buffered
     + producedCount [entry "f1"; entry "f2"]) /\
  (forall w3 later w4,
     [entry "f3"] <> [] ->
     producer_sendBatch (scripted []) [entry "f3"]
       {| outcomes := []; arrivals := [] |} = (Fulfilled tt, w3) ->
     suspended (scripted []) w3 = (later, w4) ->
     effects (snd (flushBatch (scripted [])
                     (snd (flushBatch (scripted []) two_buffered))))
     = effects two_buffered
       ++ [SendBatch [entry "f1"; entry "f2"] true;
           SendBatch [entry "f3"] true] /\
     batch (snd (flushBatch (scripted [])
                   (snd (flushBatch (scripted []) two_buffered)))) = later) /\
  (forall st0 : State Script,
     batch st0 = [] -> flushBatch (scripted []) st0 = (Fulfilled tt, st0)) /\
  (forall others : State Script -> State Script,
     flushBatch_among (scripted []) others two_buffered
     = (Fulfilled tt,
        inc "messagesProduced" [] (producedCount [entry "f1"; entry "f2"])
          (emit (SendBatch [entry "f1"; entry "f2"] true)
             (others
                (with_world {| outcomes := []; arrivals := [[entry "f3"]] |}
                   (with_batch [] two_buffered)))))) /\
  (effects (snd (flushBatch_among (scripted [])
                   (fun s => snd (flushBatch (scripted []) s)) two_buffered))
   = effects two_buffered ++ [SendBatch [entry "f1"; entry "f2"] true] /\
   batch (snd (flushBatch_among (scripted [])
                 (fun s => snd (flushBatch (scripted []) s)) two_buffered))
   = []) /\
  (forall s : State Script,
     flushBatch_among (scripted []) (suspend (scripted [])) s
     = flushBatch (scripted []) s).
Proof.
  apply (flushBatch_atomic (scripted []) two_buffered (entry "f1")
           [entry "f2"] {| outcomes := []; arrivals := [[entry "f3"]] |}
           [entry "f3"] {| outcomes := []; arrivals := [] |});
    reflexivity.
Defined.

(** A handler pushes while the send is under way, and then the timer
    starts a second flush, all before the first send has settled: the
    second flush sends what the handler pushed, and the first flush sends
    its own two entries once. *)
Example overlapping_flushes_run :
  let pushed_then_tick :=
    fun s => snd (flushBatch (scripted []) (suspend (scripted []) s)) in
  effects (snd (flushBatch_among (scripted []) pushed_then_tick two_buffered))
  = [ SendBatch [entry "f3"] true; SendBatch [entry "f1"; entry "f2"] true ] /\
  batch (snd (flushBatch_among (scripted []) pushed_then_tick two_buffered))
  = [].
Proof. vm_compute. split; reflexivity. Qed.

(** The same two flushes, computed. *)
Example two_flushes_run :
  let st1 := snd (flushBatch (scripted []) two_buffered) in
  let st2 := snd (flushBatch (scripted []) st1) in
  effects st2 = [ SendBatch [entry "f1"; entry "f2"] true;
                  SendBatch [entry "f3"] true ] /\
  batch st2 = [] /\
  count "messagesProduced" [] st2 = 3 /\
  flushBatch (scripted []) st2 = (Fulfilled tt, st2).
Proof. vm_compute. repeat split. Qed.

(** A send that fails once and then succeeds: the retry sends the captured
    entries again, and only those. *)
Example flush_retried_run :
  let st1 :=
    snd (flushBatch (scripted [])
           {| batch := [entry "f1"]; inFlightUpserts := ∅; promises := 0;
              metrics := ∅; effects := [];
              world := {| outcomes := [false; true];
                          arrivals := [[entry "f2"]; [entry "f3"]] |} |}) in
  effects st1 = [ SendBatch [entry "f1"] false; SendBatch [entry "f1"] true ] /\
  batch st1 = [entry "f2"; entry "f3"].
Proof. vm_compute. repeat split. Qed.

End BatchBuffer.

(* ********************************************************************* *)
(** * Further properties of the code *)
(* ********************************************************************* *)

(* ===================================================================== *)
(** ** retry: bounds and sleeps *)
(* ===================================================================== *)

(** What the loop of [retry] does, one step at a time. *)
Inductive retry_step : Type :=
| Ran
| Slept.

Section RetryBounds.

Context {W T E : Type} (rt : Runtime W) (fn : W -> settled T E * W).
Context (calls : W -> nat).

Lemma retry_loop_runs_at_most retries baseMs :
  counts_runs rt fn calls ->
  forall n attempt w,
    n = Z.to_nat (retries - attempt) ->
    calls (snd (retry_loop rt fn retries baseMs attempt w)) <= calls w + n + 1.
Proof.
  intros Hc n. induction n as [|n IH]; intros attempt w Hn;
    destruct (fn w) as [[t|err] w1] eqn:Hfn;
    pose proof (proj1 Hc w) as Hw; rewrite Hfn in Hw; simpl in Hw.
  - rewrite (retry_loop_fulfilled _ _ _ _ _ _ _ _ Hfn). simpl. lia.
  - rewrite (retry_loop_exhausted _ _ _ _ _ _ _ _ Hfn) by lia. simpl. lia.
  - rewrite (retry_loop_fulfilled _ _ _ _ _ _ _ _ Hfn). simpl. lia.
  - destruct (Z_gt_le_dec (attempt + 1) retries) as [Hgt|Hle].
    + rewrite (retry_loop_exhausted _ _ _ _ _ _ _ _ Hfn) by lia. simpl. lia.
    + rewrite (retry_loop_again _ _ _ _ _ _ _ _ Hfn) by lia.
      etransitivity; [apply (IH (attempt + 1)%Z); lia|].
      pose proof (calls_after_sleep rt fn calls
                    (delay baseMs (attempt + 1) (fst (Math_random rt w1)))
                    w Hc) as Hs.
      rewrite Hfn in Hs. simpl in Hs. lia.
Qed.

(** Whatever the operation does and whatever the budget, [retry] runs it
    at least once and at most [max(retries, 0) + 1] times. *)
Theorem retry_runs_between (opts : RetryOpts) (w0 : W) :
  counts_runs rt fn calls ->
  calls w0 + 1 <= calls (snd (retry rt fn opts w0)) /\
  calls (snd (retry rt fn opts w0))
  <= calls w0 + Z.to_nat (default 3%Z (retries opts)) + 1.
Proof.
  intros Hc. unfold retry. split.
  - pose proof (retry_loop_runs rt fn calls (default 3%Z (retries opts))
                  (default (QArith_base.inject_Z 200) (baseMs opts)) Hc
                  _ 0%Z w0 eq_refl). lia.
  - pose proof (retry_loop_runs_at_most (default 3%Z (retries opts))
                  (default (QArith_base.inject_Z 200) (baseMs opts)) Hc
                  _ 0%Z w0 eq_refl) as H.
    rewrite Z.sub_0_r in H. exact H.
Qed.

(** [trace w] is what the loop has done so far when the state is [w], in
    the order it did it: the operation adds [Ran] when it runs, the sleep
    adds [Slept], the draw of the jitter adds nothing. *)
Context (trace : W -> list retry_step).

Definition records_steps : Prop :=
  (forall w, trace (snd (fn w)) = trace w ++ [Ran]) /\
  (forall w, trace (snd (Math_random rt w)) = trace w) /\
  (forall d w, trace (setTimeout rt d w) = trace w ++ [Slept]).

Lemma retry_loop_steps retries baseMs :
  records_steps ->
  forall n attempt w,
    n = Z.to_nat (retries - attempt) ->
    exists k,
      k <= n /\
      trace (snd (retry_loop rt fn retries baseMs attempt w))
      = trace w ++ Ran :: concat (repeat [Slept; Ran] k).
Proof.
  intros (Hrun & Hrand & Hsleep) n.
  induction n as [|n IH]; intros attempt w Hn;
    pose proof (Hrun w) as Hw;
    destruct (fn w) as [[t|err] w1] eqn:Hfn; simpl in Hw.
  - rewrite (retry_loop_fulfilled _ _ _ _ _ _ _ _ Hfn).
    exists 0. split; [lia|exact Hw].
  - rewrite (retry_loop_exhausted _ _ _ _ _ _ _ _ Hfn) by lia.
    exists 0. split; [lia|exact Hw].
  - rewrite (retry_loop_fulfilled _ _ _ _ _ _ _ _ Hfn).
    exists 0. split; [lia|exact Hw].
  - destruct (Z_gt_le_dec (attempt + 1) retries) as [Hgt|Hle].
    + rewrite (retry_loop_exhausted _ _ _ _ _ _ _ _ Hfn) by lia.
      exists 0. split; [lia|exact Hw].
    + rewrite (retry_loop_again _ _ _ _ _ _ _ _ Hfn) by lia.
      destruct (IH (attempt + 1)%Z
                  (setTimeout rt
                     (delay baseMs (attempt + 1) (fst (Math_random rt w1)))
                     (snd (Math_random rt w1))) ltac:(lia))
        as (k & Hk & Htrace).
      exists (S k). split; [lia|].
      rewrite Htrace, Hsleep, Hrand, Hw. simpl.
      rewrite <- !app_assoc. reflexivity.
Qed.

(** What [retry] does is a run of the operation, then a sleep and a run
    for each retry: it sleeps once between two consecutive runs, and
    neither before the first run nor after the last. *)
Theorem retry_sleeps_between_runs (opts : RetryOpts) (w0 : W) :
  records_steps ->
  exists k,
    k <= Z.to_nat (default 3%Z (retries opts)) /\
    trace (snd (retry rt fn opts w0))
    = trace w0 ++ Ran :: concat (repeat [Slept; Ran] k).
Proof.
  intros Hs. unfold retry.
  destruct (retry_loop_steps (default 3%Z (retries opts))
              (default (QArith_base.inject_Z 200) (baseMs opts)) Hs
              _ 0%Z w0 eq_refl) as (k & Hk & Htrace).
  exists k. split; [lia|exact Htrace].
Qed.

(** With no retry left to spend ([retries <= 0]) [retry] is the operation
    itself: one run, its outcome as it is, no jitter drawn and no sleep. *)
Theorem retry_without_budget (r : Z) (baseMs : option QArith_base.Q) (w0 : W) :
  (r <= 0)%Z ->
  retry rt fn {| retries := Some r; baseMs := baseMs |} w0 = fn w0.
Proof.
  intros Hr. unfold retry. simpl.
  destruct (fn w0) as [[t|err] w1] eqn:Hfn.
  - now apply retry_loop_fulfilled.
  - apply retry_loop_exhausted; [exact Hfn|lia].
Qed.

End RetryBounds.

(** A test double that counts runs and sleeps: the state is the pair of
    both counts. *)
Definition napping_runtime : Runtime (nat * nat) :=
  {| Math_random := fun w => (QArith_base.Qmake 1 2, w);
     setTimeout := fun _ w => (fst w, S (snd w)) |}.

Definition failing_twice (w : nat * nat) : settled nat nat * (nat * nat) :=
  (if Nat.ltb (fst w) 2 then Rejected (fst w) else Fulfilled (fst w),
   (S (fst w), snd w)).

Lemma failing_twice_counts :
  counts_runs napping_runtime failing_twice fst.
Proof. repeat split. Qed.

Lemma retry_runs_between_witness :
  0 + 1 <= fst (snd (retry napping_runtime failing_twice no_opts (0, 0))) /\
  fst (snd (retry napping_runtime failing_twice no_opts (0, 0)))
  <= 0 + Z.to_nat 3 + 1.
Proof.
  apply (retry_runs_between napping_runtime failing_twice fst no_opts (0, 0)).
  apply failing_twice_counts.
Defined.

(** A test double that keeps the trace: the state is the list of the
    steps so far. *)
Definition tracing_runtime : Runtime (list retry_step) :=
  {| Math_random := fun w => (QArith_base.Qmake 1 2, w);
     setTimeout := fun _ w => w ++ [Slept] |}.

(** An operation that fails on its first two runs. *)
Definition failing_twice_traced (w : list retry_step)
  : settled nat nat * list retry_step :=
  let runs :=
    length (List.filter
              (fun e => match e with Ran => true | Slept => false end) w) in
  (if Nat.ltb runs 2 then Rejected runs else Fulfilled runs, w ++ [Ran]).

Lemma retry_sleeps_between_runs_witness :
  exists k,
    k <= Z.to_nat (default 3%Z (retries no_opts)) /\
    snd (retry tracing_runtime failing_twice_traced no_opts [])
    = [] ++ Ran :: concat (repeat [Slept; Ran] k).
Proof.
  apply (retry_sleeps_between_runs tracing_runtime failing_twice_traced
           (fun w => w) no_opts []).
  repeat split.
Defined.

Example failing_twice_trace :
  retry tracing_runtime failing_twice_traced no_opts []
  = (Fulfilled 2, [Ran; Slept; Ran; Slept; Ran]).
Proof. vm_compute. reflexivity. Qed.

Example failing_twice_run :
  retry napping_runtime failing_twice no_opts (0, 0) = (Fulfilled 2, (3, 2)).
Proof. vm_compute. reflexivity. Qed.

Lemma retry_without_budget_witness :
  retry quiet_runtime always_failing
    {| retries := Some (-5)%Z; baseMs := None |} 0
  = always_failing 0.
Proof. apply retry_without_budget. lia. Defined.

(* ===================================================================== *)
(** ** The example normalizer, on every message *)
(* ===================================================================== *)

Section NormalizerTotal.
Import ExampleNormalizer.

Lemma as_string_Some v s : as_string v = Some s -> v = VStr s.
Proof. destruct v; simpl; congruence. Qed.

Lemma as_number_Some v shown :
  as_number v = Some shown -> v = VNum shown /\ z_number (VNum shown) = true.
Proof.
  destruct v; simpl; try discriminate.
  destruct (negb (String.eqb shown0 "NaN")) eqn:Hn; [|discriminate].
  intros [= <-]. simpl. now rewrite Hn.
Qed.

Lemma as_literal_Some lit v s : as_literal lit v = Some s -> v = VStr lit /\ s = lit.
Proof.
  destruct v; simpl; try discriminate.
  destruct (String.eqb_spec s0 lit) as [->|]; [|discriminate].
  intros [= <-]. now split.
Qed.

(** What a successful [RawSensorSchema.safeParse] says of the message. *)
Lemma RawSensorSchema_fields raw parsed :
  RawSensorSchema_safeParse raw = Some parsed ->
  get raw "tool" = VStr "sensor_report" /\ tool parsed = "sensor_report" /\
  get raw "schemaVersion" = VStr (schemaVersion parsed) /\
  get raw "runId" = VStr (runId parsed) /\
  get (get raw "data") "sensorId" = VStr (sensorId parsed) /\
  get (get raw "data") "value" = VNum (value_ parsed) /\
  z_number (VNum (value_ parsed)) = true /\
  get (get raw "data") "unit" = VStr (unit_ parsed) /\
  get (get raw "data") "location" = VStr (location parsed).
Proof.
  unfold RawSensorSchema_safeParse.
  destruct (negb (is_object raw)); [discriminate|].
  destruct (as_literal "sensor_report" (get raw "tool")) as [t|] eqn:Ht;
    [|discriminate].
  apply as_literal_Some in Ht as [Ht ->]. simpl.
  destruct (as_string (get raw "schemaVersion")) as [sv|] eqn:Hsv;
    [|discriminate].
  apply as_string_Some in Hsv. simpl.
  destruct (as_string (get raw "runId")) as [r|] eqn:Hr; [|discriminate].
  apply as_string_Some in Hr. simpl.
  destruct (negb (is_object (get raw "data"))); [discriminate|].
  destruct (as_string (get (get raw "data") "sensorId")) as [sid|] eqn:Hsid;
    [|discriminate].
  apply as_string_Some in Hsid. simpl.
  destruct (as_number (get (get raw "data") "value")) as [n|] eqn:Hn;
    [|discriminate].
  apply as_number_Some in Hn as [Hn Hz]. simpl.
  destruct (as_string (get (get raw "data") "unit")) as [u|] eqn:Hu;
    [|discriminate].
  apply as_string_Some in Hu. simpl.
  destruct (as_string (get (get raw "data") "location")) as [l|] eqn:Hl;
    [|discriminate].
  apply as_string_Some in Hl. simpl.
  intros [= <-]. simpl. now repeat split.
Qed.

Lemma normalize_cases (sha256_hex : string -> string) (raw : value) :
  (RawSensorSchema_safeParse raw = None ->
   normalize sha256_hex raw = Fulfilled None) /\
  (forall parsed, RawSensorSchema_safeParse raw = Some parsed ->
   exists event,
     normalize sha256_hex raw = Fulfilled (Some [event]) /\
     get (get event "event") "event_type" = VStr "SENSOR_READING" /\
     get (get event "event") "fingerprint"
     = VStr (fingerprint sha256_hex (fingerprint_fields parsed)) /\
     get (get event "meta") "sensorType"
     = VStr (deriveSensorType (sensorId parsed)) /\
     get (get event "meta") "toolRunId" = get raw "runId").
Proof.
  split; unfold normalize.
  - now intros ->.
  - intros parsed Hp. rewrite Hp.
    destruct (RawSensorSchema_fields raw parsed Hp)
      as (_ & _ & _ & Hrun & _ & _ & Hz & _).
    eexists. split.
    + unfold DomainEventSchema_ok. cbn [get lookup_prop String.eqb Ascii.eqb
        Bool.eqb is_object z_string is_string andb].
      rewrite Hz. reflexivity.
    + rewrite Hrun. repeat split.
Qed.

(** [normalize] never throws: it returns [null] when the message fails
    [RawSensorSchema], and otherwise exactly one event, which carries the
    fingerprint of the reading, the derived sensor type, and the [runId] of
    the message as [toolRunId]. *)
Theorem normalize_returns (sha256_hex : string -> string) (raw : value) :
  (RawSensorSchema_safeParse raw = None ->
   normalize sha256_hex raw = Fulfilled None) /\
  (forall parsed, RawSensorSchema_safeParse raw = Some parsed ->
   exists event,
     normalize sha256_hex raw = Fulfilled (Some [event]) /\
     get (get event "event") "event_type" = VStr "SENSOR_READING" /\
     get (get event "event") "fingerprint"
     = VStr (fingerprint sha256_hex (fingerprint_fields parsed)) /\
     get (get event "meta") "sensorType"
     = VStr (deriveSensorType (sensorId parsed)) /\
     get (get event "meta") "toolRunId" = get raw "runId").
Proof.
  destruct (normalize_cases sha256_hex raw) as [Hnull Hone].
  split; [exact Hnull|exact Hone].
Qed.

(** The fingerprint of an event depends on the sensor, the location, the
    value and the unit of the report only: two accepted reports that agree
    on these get one fingerprint, whatever their [runId], their
    [schemaVersion] and the other fields they carry. *)
Theorem normalize_same_reading_same_fingerprint
    (sha256_hex : string -> string) (raw1 raw2 event1 event2 : value) :
  normalize sha256_hex raw1 = Fulfilled (Some [event1]) ->
  normalize sha256_hex raw2 = Fulfilled (Some [event2]) ->
  get (get raw1 "data") "sensorId" = get (get raw2 "data") "sensorId" ->
  get (get raw1 "data") "location" = get (get raw2 "data") "location" ->
  get (get raw1 "data") "value" = get (get raw2 "data") "value" ->
  get (get raw1 "data") "unit" = get (get raw2 "data") "unit" ->
  get (get event1 "event") "fingerprint"
  = get (get event2 "event") "fingerprint".
Proof.
  intros H1 H2 Hs Hl Hv Hu.
  destruct (RawSensorSchema_safeParse raw1) as [p1|] eqn:Hp1.
  2:{ rewrite (proj1 (normalize_cases sha256_hex raw1) Hp1) in H1.
      discriminate. }
  destruct (RawSensorSchema_safeParse raw2) as [p2|] eqn:Hp2.
  2:{ rewrite (proj1 (normalize_cases sha256_hex raw2) Hp2) in H2.
      discriminate. }
  destruct (proj2 (normalize_cases sha256_hex raw1) p1 Hp1)
    as (e1 & He1 & _ & Hf1 & _).
  destruct (proj2 (normalize_cases sha256_hex raw2) p2 Hp2)
    as (e2 & He2 & _ & Hf2 & _).
  rewrite He1 in H1. rewrite He2 in H2.
  injection H1 as <-. injection H2 as <-.
  rewrite Hf1, Hf2.
  destruct (RawSensorSchema_fields raw1 p1 Hp1)
    as (_ & _ & _ & _ & Hs1 & Hv1 & _ & Hu1 & Hl1).
  destruct (RawSensorSchema_fields raw2 p2 Hp2)
    as (_ & _ & _ & _ & Hs2 & Hv2 & _ & Hu2 & Hl2).
  unfold fingerprint_fields. congruence.
Qed.

(** The report of [sensor_report_r1_versioned], sent again by a later run
    and with one more field. *)
Definition sensor_report_r2 : value :=
  VObj [ ("tool", VStr "sensor_report"); ("schemaVersion", VStr "2.0");
         ("runId", VStr "r2"); ("data", temp_1_data);
         ("note", VStr "resent") ].

Lemma normalize_same_reading_same_fingerprint_witness :
  exists event1 event2,
    normalize (fun s => s) (sensor_report_r1_versioned "1.0")
    = Fulfilled (Some [event1]) /\
    normalize (fun s => s) sensor_report_r2 = Fulfilled (Some [event2]) /\
    get (get event1 "event") "fingerprint"
    = get (get event2 "event") "fingerprint".
Proof.
  eexists. eexists. split; [reflexivity|]. split; [reflexivity|].
  apply (normalize_same_reading_same_fingerprint (fun s => s)
           (sensor_report_r1_versioned "1.0") sensor_report_r2);
    reflexivity.
Defined.

End NormalizerTotal.

Section SensorTypes.
Import ExampleNormalizer.

Lemma append_cons a (s t : string) :
  (String a s ++ t)%string = String a (s ++ t).
Proof. reflexivity. Qed.

Lemma prefix_app (sub z : string) : String.prefix sub (sub ++ z) = true.
Proof.
  induction sub as [|a sub IH]; [now destruct z|].
  rewrite append_cons. simpl.
  destruct (ascii_dec a a); [exact IH|congruence].
Qed.

Lemma prefix_shorter (sub t s : string) :
  String.prefix (sub ++ t) s = true -> String.prefix sub s = true.
Proof.
  revert s. induction sub as [|a sub IH]; intros s.
  - intros _. now destruct s.
  - rewrite append_cons.
    destruct s as [|b s]; simpl; [discriminate|].
    destruct (ascii_dec a b); [apply IH|discriminate].
Qed.

Lemma includes_nil (sub : string) :
  includes "" sub = String.prefix sub "" || false.
Proof. reflexivity. Qed.

Lemma includes_cons a (s sub : string) :
  includes (String a s) sub = String.prefix sub (String a s) || includes s sub.
Proof. reflexivity. Qed.

Lemma includes_here (s sub : string) :
  String.prefix sub s = true -> includes s sub = true.
Proof.
  intros H. destruct s; [rewrite includes_nil|rewrite includes_cons];
    now rewrite H.
Qed.

Lemma includes_later (x s sub : string) :
  includes s sub = true -> includes (x ++ s) sub = true.
Proof.
  intros H. induction x as [|a x IH]; [exact H|].
  rewrite append_cons, includes_cons, IH. apply orb_true_r.
Qed.

Lemma includes_shorter (s sub t : string) :
  includes s (sub ++ t) = true -> includes s sub = true.
Proof.
  induction s as [|a s IH]; intros H.
  - rewrite includes_nil, orb_false_r in *. now apply prefix_shorter with t.
  - rewrite includes_cons in *. apply orb_true_iff in H as [H|H].
    + apply prefix_shorter in H. now rewrite H.
    + rewrite (IH H). apply orb_true_r.
Qed.

Lemma toLowerCase_app (s t : string) :
  toLowerCase (s ++ t) = (toLowerCase s ++ toLowerCase t)%string.
Proof.
  induction s as [|a s IH]; [reflexivity|].
  rewrite append_cons. simpl. now rewrite IH, append_cons.
Qed.

(** A sensor is classified ["temperature"] exactly when its identifier,
    in lower case, contains ["temp"]; so the keyword, in any mix of
    cases and anywhere in the identifier, decides before every other
    keyword the identifier may contain. *)
Theorem deriveSensorType_temperature (sensorId : string) :
  (deriveSensorType sensorId = "temperature" <->
   includes (toLowerCase sensorId) "temp" = true) /\
  (forall before keyword after,
     toLowerCase keyword = "temp" ->
     deriveSensorType (before ++ keyword ++ after) = "temperature").
Proof.
  assert (Hif : forall s, includes (toLowerCase s) "temp" = true ->
                          deriveSensorType s = "temperature").
  { intros s H. unfold deriveSensorType. now rewrite H. }
  split; [split|].
  - unfold deriveSensorType.
    destruct (includes (toLowerCase sensorId) "temp") eqn:Ht; [reflexivity|].
    destruct (includes (toLowerCase sensorId) "temperature") eqn:Hl.
    { apply (includes_shorter _ "temp" "erature") in Hl. congruence. }
    simpl.
    repeat match goal with
           | |- context [if ?c then _ else _] => destruct c
           end; discriminate.
  - apply Hif.
  - intros before keyword after Hk. apply Hif.
    rewrite !toLowerCase_app, Hk.
    apply includes_later, includes_here, prefix_app.
Qed.

Example deriveSensorType_mixed : deriveSensorType "Lux-TEMP-7" = "temperature".
Proof. vm_compute. reflexivity. Qed.

Example deriveSensorType_compressor :
  deriveSensorType "compressor-1" = "pressure".
Proof. vm_compute. reflexivity. Qed.

End SensorTypes.

(* ===================================================================== *)
(** ** Plugin paths and the registry, in general *)
(* ===================================================================== *)

(** The names that every plain object answers to without having them as
    properties of its own: the properties of [Object.prototype].  The
    registries and [process.env] are such objects; a read [registry[name]]
    under one of these names finds what [Object.prototype] holds when the
    object has no property of its own under it. *)
Definition Object_prototype : list string :=
  [ "constructor"; "__defineGetter__"; "__defineSetter__"; "hasOwnProperty";
    "__lookupGetter__"; "__lookupSetter__"; "isPrototypeOf";
    "propertyIsEnumerable"; "toString"; "valueOf"; "__proto__";
    "toLocaleString" ].

Definition inherited (name : string) : bool :=
  existsb (String.eqb name) Object_prototype.

Section PluginPaths.
Import Registry.

Lemma clean_chars (p : string) :
  Forall (fun a => path_char a = true) (list_ascii_of_string (clean p)).
Proof.
  induction p as [|a p IH]; simpl; [constructor|].
  destruct (path_char a) eqn:Ha; [|exact IH].
  simpl. now constructor.
Qed.

Lemma clean_keeps (p : string) :
  Forall (fun a => path_char a = true) (list_ascii_of_string p) -> clean p = p.
Proof.
  induction p as [|a p IH]; simpl; intros H; [reflexivity|].
  apply Forall_cons in H as [Ha H]. rewrite Ha. now rewrite IH.
Qed.

Lemma clean_no_dot (p : string) : occurs "." (clean p) = false.
Proof.
  induction p as [|a p IH]; simpl; [reflexivity|].
  destruct (path_char a) eqn:Ha; [|exact IH].
  simpl. rewrite IH, orb_false_r.
  destruct (Ascii.eqb_spec a ".") as [->|]; [discriminate Ha|reflexivity].
Qed.

(** What [validatePluginPath] returns, when it returns, is the configured
    path with every character outside [[a-zA-Z0-9/_-]] removed: it holds
    no dot, hence no [".."] segment and no extension, and cleaning it
    again changes nothing. *)
Theorem validatePluginPath_returns_clean (dirname pluginPath safePath : string) :
  validatePluginPath dirname pluginPath = Fulfilled safePath ->
  safePath = clean pluginPath /\
  Forall (fun a => path_char a = true) (list_ascii_of_string safePath) /\
  occurs "." safePath = false /\
  clean safePath = safePath.
Proof.
  unfold validatePluginPath.
  destruct (negb (startsWith _ _)); [discriminate|].
  intros [= <-]. split; [reflexivity|].
  split; [apply clean_chars|]. split; [apply clean_no_dot|].
  apply clean_keeps, clean_chars.
Qed.

Lemma validatePluginPath_returns_clean_witness :
  "plugins/example/normalizer" = clean "plugins/example/normalizer" /\
  Forall (fun a => path_char a = true)
    (list_ascii_of_string "plugins/example/normalizer") /\
  occurs "." "plugins/example/normalizer" = false /\
  clean "plugins/example/normalizer" = "plugins/example/normalizer".
Proof.
  apply (validatePluginPath_returns_clean "/app/dist/"
           "plugins/example/normalizer").
  vm_compute. reflexivity.
Defined.

(** A configured path that carries its extension loses the dot, not the
    letters after it. *)
Example validatePluginPath_extension :
  validatePluginPath "/app/dist/" "plugins/example/normalizer.js"
  = Fulfilled "plugins/example/normalizerjs".
Proof. vm_compute. reflexivity. Qed.

(** The name a log line is about. *)
Definition subject (line : log_line) : string :=
  match line with
  | Info _ name => name
  | Warn _ name => name
  | LogError _ => ""
  end.

Lemma fold_load_entry_log {H : Type} kind dirname
    (import : string -> settled H exn) entries :
  forall acc,
    List.map subject
      (snd (fold_left (load_entry kind dirname import) entries acc))
    = List.map subject (snd acc) ++ List.map fst entries.
Proof.
  induction entries as [|[name modPath] entries IH]; intros [registry log];
    simpl.
  - now rewrite app_nil_r.
  - rewrite IH. unfold load_entry.
    destruct (validatePluginPath dirname modPath) as [safePath|err];
      [destruct (import ("./" ++ safePath ++ ".js")%string)|];
      simpl; rewrite List.map_app, <- app_assoc; reflexivity.
Qed.

(** A loading loop never stops early: whatever fails, it writes exactly
    one line per entry of [Object.entries(pluginMap)], in the order in
    which [Object.entries] lists them, and every property of its own that
    it leaves in the registry is under the name of an entry. *)
Theorem load_plugins_logs_every_entry {H : Type} (kind dirname : string)
    (import : string -> settled H exn) (entries : list (string * string)) :
  List.map subject (snd (load_plugins kind dirname import entries))
  = List.map fst entries /\
  (forall name,
     is_Some (fst (load_plugins kind dirname import entries) !! name) ->
     In name (List.map fst entries)).
Proof.
  split.
  - unfold load_plugins. now rewrite fold_load_entry_log.
  - intros name [handler Hname].
    destruct (in_dec String.string_dec name (List.map fst entries))
      as [Hin|Hout]; [exact Hin|].
    unfold load_plugins in Hname.
    rewrite fold_load_entry_lookup in Hname.
    + simpl in Hname. rewrite lookup_empty in Hname. discriminate.
    + intros Hel. apply Hout. now apply list_elem_of_In.
Qed.

(** A loading loop stores a handler under a name exactly when the entry
    under that name passes [validatePluginPath] and its module imports;
    the handler is that module's, and the other entries, failing or not,
    have no part in it.  This is about the properties of its own that the
    registry gets, no entry being named ["__proto__"], under which an
    assignment stores none.  Reading the registry, [registry[name]], gives
    that handler for every name that [Object.prototype] does not answer
    to. *)
Theorem load_plugins_registers_exactly {H : Type} (kind dirname : string)
    (import : string -> settled H exn) (entries : list (string * string))
    (name : string) (handler : H) :
  NoDup (List.map fst entries) ->
  ~ In "__proto__" (List.map fst entries) ->
  (fst (load_plugins kind dirname import entries) !! name = Some handler <->
   exists modPath,
     In (name, modPath) entries /\
     loads dirname import (name, modPath) handler) /\
  (inherited name = false ->
   Service.handler_for (fst (load_plugins kind dirname import entries))
     (VStr name) = Some handler <->
   exists modPath,
     In (name, modPath) entries /\
     loads dirname import (name, modPath) handler).
Proof.
  intros Hnd _.
  assert (Hown :
    fst (load_plugins kind dirname import entries) !! name = Some handler <->
    exists modPath,
      In (name, modPath) entries /\
      loads dirname import (name, modPath) handler).
  { split; intros H0;
      now apply (load_plugins_registered kind dirname import entries). }
  split; [exact Hown|]. intros _. exact Hown.
Qed.

Lemma load_plugins_registers_exactly_witness :
  (fst (load_plugins "normalizer" "/app/dist/" modules_on_disk
          [ ("a", "plugins/a"); ("b", "plugins/b"); ("c", "plugins/c") ])
     !! "b" = Some "plugins/b.js"
   <-> exists modPath,
         In ("b", modPath)
           [ ("a", "plugins/a"); ("b", "plugins/b"); ("c", "plugins/c") ] /\
         loads "/app/dist/" modules_on_disk ("b", modPath) "plugins/b.js") /\
  (inherited "b" = false ->
   Service.handler_for
     (fst (load_plugins "normalizer" "/app/dist/" modules_on_disk
             [ ("a", "plugins/a"); ("b", "plugins/b"); ("c", "plugins/c") ]))
     (VStr "b") = Some "plugins/b.js"
   <-> exists modPath,
         In ("b", modPath)
           [ ("a", "plugins/a"); ("b", "plugins/b"); ("c", "plugins/c") ] /\
         loads "/app/dist/" modules_on_disk ("b", modPath) "plugins/b.js").
Proof.
  apply (load_plugins_registers_exactly "normalizer" "/app/dist/"
           modules_on_disk).
  - apply (bool_decide_unpack _). vm_compute. reflexivity.
  - intros [H|[H|[H|[]]]]; discriminate H.
Defined.

End PluginPaths.

(* ===================================================================== *)
(** ** The service, in general *)
(* ===================================================================== *)

Section ServiceInGeneral.
Import Service Registry.

Context {World : Type} (cfg : Topics) (pf : Platform World)
  (plugins : Plugins World).

(** The state in which the next attempt starts, after the failure number
    [attempt] left [s]: the jitter is drawn and the task sleeps. *)
Definition after_backoff (attempt : Z) (s : State World) : State World :=
  setTimeout (runtime pf)
    (delay (QArith_base.inject_Z 200) attempt
       (fst (Math_random (runtime pf) s)))
    (snd (Math_random (runtime pf) s)).

(** How many attempts the dispatch of a message makes: a second one when
    the first fails, a third one when the second fails as well. *)
Definition attempts (topic rawBytes : string) (st : State World) : nat :=
  match handle cfg pf plugins topic rawBytes st with
  | (Fulfilled _, _) => 1
  | (Rejected _, s1) =>
      match handle cfg pf plugins topic rawBytes (after_backoff 1 s1) with
      | (Fulfilled _, _) => 2
      | (Rejected _, _) => 3
      end
  end.

(** A message with a value is counted as consumed once per attempt: each
    attempt moves the counter of its topic by one, and when the dispatch
    of the message is over, dead letter included, the counter has moved
    by the number of attempts that were made. *)
Theorem dispatch_counts_each_attempt (topic rawBytes : string)
    (st : State World) :
  (forall s : State World,
     count "messagesConsumed" [topic]
       (snd (handle cfg pf plugins topic rawBytes s))
     = count "messagesConsumed" [topic] s + 1) /\
  count "messagesConsumed" [topic] (dispatch cfg pf plugins topic rawBytes st)
  = count "messagesConsumed" [topic] st + attempts topic rawBytes st.
Proof.
  split.
  { intros s. rewrite handle_consumes. lia. }
  unfold dispatch, retry, attempts. simpl.
  pose proof (handle_consumes cfg pf plugins topic rawBytes st) as H1.
  destruct (handle cfg pf plugins topic rawBytes st) as [[[]|err1] s1] eqn:Ha1.
  { rewrite (retry_loop_fulfilled _ _ _ _ _ _ _ _ Ha1). simpl in *. lia. }
  rewrite (retry_loop_again _ _ _ _ _ _ _ _ Ha1) by lia.
  fold (after_backoff (0 + 1) s1). change (0 + 1)%Z with 1%Z.
  assert (Hs1 : count "messagesConsumed" [topic] (after_backoff 1 s1)
                = count "messagesConsumed" [topic] s1).
  { unfold after_backoff. simpl. rewrite count_suspend.
    now destruct (random pf (world s1)). }
  pose proof (handle_consumes cfg pf plugins topic rawBytes
                (after_backoff 1 s1)) as H2.
  destruct (handle cfg pf plugins topic rawBytes (after_backoff 1 s1))
    as [[[]|err2] s2] eqn:Ha2.
  { rewrite (retry_loop_fulfilled _ _ _ _ _ _ _ _ Ha2). simpl in *. lia. }
  rewrite (retry_loop_again _ _ _ _ _ _ _ _ Ha2) by lia.
  fold (after_backoff (1 + 1) s2). change (1 + 1)%Z with 2%Z.
  assert (Hs2 : count "messagesConsumed" [topic] (after_backoff 2 s2)
                = count "messagesConsumed" [topic] s2).
  { unfold after_backoff. simpl. rewrite count_suspend.
    now destruct (random pf (world s2)). }
  pose proof (handle_consumes cfg pf plugins topic rawBytes
                (after_backoff 2 s2)) as H3.
  destruct (handle cfg pf plugins topic rawBytes (after_backoff 2 s2))
    as [[[]|err3] s3] eqn:Ha3.
  { rewrite (retry_loop_fulfilled _ _ _ _ _ _ _ _ Ha3). simpl in *. lia. }
  rewrite (retry_loop_exhausted _ _ _ _ _ _ _ _ Ha3) by lia.
  rewrite on_failed_consumed. simpl in *. lia.
Qed.

(** A raw message for a tool no normalizer is registered for, the tool
    not being a name that [Object.prototype] answers to, is dropped
    without a trace: one attempt, no error counted, nothing pushed, sent
    or logged; only the consumed counter and the latency histogram move. *)
Theorem unregistered_tool_is_dropped (topic rawBytes tool : string)
    (obj : JS.value) (st : State World) :
  topic = rawTopic cfg ->
  JSON_parse pf rawBytes = Fulfilled obj ->
  RawMessageSchema_ok obj = true ->
  get obj "tool" = VStr tool ->
  inherited tool = false ->
  normalizers plugins !! tool = None ->
  dispatch cfg pf plugins topic rawBytes st
  = inc "msgLatency" ["raw"] 1 (inc "messagesConsumed" [topic] 1 st).
Proof.
  intros -> Hparse Hraw Htool _ Hnone. unfold dispatch, retry. simpl.
  rewrite (retry_loop_fulfilled (runtime pf)
             (handle cfg pf plugins (rawTopic cfg) rawBytes) 2
             (QArith_base.inject_Z 200) 0 st tt
             (inc "msgLatency" ["raw"] 1
                (inc "messagesConsumed" [rawTopic cfg] 1 st))).
  - reflexivity.
  - unfold handle. rewrite Hparse, String.eqb_refl, Hraw, Htool. simpl.
    now rewrite Hnone.
Qed.

(** An entry of the buffer as [handle] makes them: for the domain topic,
    one message, keyed by a fingerprint that is not empty. *)
Definition keyed_entry (entry : TopicMessages) : Prop :=
  topic entry = domainTopic cfg /\
  exists fp msg,
    fp <> "" /\ messages entry = [msg] /\ key msg = Some fp.

Lemma valid_event_has_key (ev : JS.value) :
  DomainEventSchema_ok ev = true ->
  exists fp, fp <> "" /\ fingerprint_key ev = Some fp.
Proof.
  unfold DomainEventSchema_ok, fingerprint_key. intros H.
  repeat match goal with
         | Hx : _ && _ = true |- _ => apply andb_prop in Hx as [? ?]
         end.
  destruct (get (get ev "event") "fingerprint") as [| |b|n|fp|items|props];
    try discriminate.
  exists fp. split; [|reflexivity].
  intros ->. discriminate.
Qed.

Lemma push_events_keyed events : forall st : State World,
  exists added,
    batch (snd (push_events cfg pf events st)) = batch st ++ added /\
    Forall keyed_entry added /\
    length added <= length events.
Proof.
  induction events as [|ev events IH]; intros st; simpl.
  - exists []. rewrite app_nil_r.
    split; [reflexivity|]. split; [now apply Forall_nil|simpl; lia].
  - destruct (DomainEventSchema_ok ev) eqn:Hev; simpl.
    + destruct (IH (push (batch_entry cfg pf ev) st))
        as (added & Hb & Hk & Hlen).
      exists (batch_entry cfg pf ev :: added). rewrite Hb. simpl.
      rewrite <- app_assoc. split; [reflexivity|]. split; [|lia].
      constructor; [|exact Hk]. split; [reflexivity|].
      destruct (valid_event_has_key ev Hev) as (fp & Hne & Hfp).
      exists fp. eexists. split; [exact Hne|]. split; [reflexivity|].
      exact Hfp.
    + exists []. rewrite app_nil_r.
      split; [reflexivity|]. split; [now apply Forall_nil|simpl; lia].
Qed.

(** Whatever a raw message holds and whatever the normalizer returns for
    it, an attempt only appends to the buffer, and every entry it appends
    is for the domain topic and holds one message keyed by a non-empty
    fingerprint: no event is batched without its key. *)
Theorem handle_raw_appends_keyed_entries (topic rawBytes : string)
    (st : State World) :
  topic = rawTopic cfg ->
  exists added,
    batch (snd (handle cfg pf plugins topic rawBytes st)) = batch st ++ added /\
    Forall keyed_entry added.
Proof.
  intros ->. unfold handle. rewrite String.eqb_refl.
  assert (Hnone : exists added : list TopicMessages,
            batch st = batch st ++ added /\ Forall keyed_entry added).
  { exists []. rewrite app_nil_r. split; [reflexivity|constructor]. }
  destruct (JSON_parse pf rawBytes) as [obj|err]; [|exact Hnone].
  destruct (RawMessageSchema_ok obj); [|exact Hnone]. simpl.
  destruct (handler_for (normalizers plugins) (get obj "tool")) as [norm|];
    [|exact Hnone].
  destruct (norm obj) as [returned|err]; [|exact Hnone].
  destruct (push_events_keyed (default [] returned)
              (inc "messagesConsumed" [rawTopic cfg] 1 st))
    as (added & Hb & Hk & _).
  destruct (push_events cfg pf (default [] returned)
              (inc "messagesConsumed" [rawTopic cfg] 1 st)) as [[[]|err] st1];
    simpl in *; exists added; now split.
Qed.

(** Every promise in the in-flight set was created before: its number is
    below the next one to be given. *)
Definition numbered (st : State World) : Prop :=
  forall p, p ∈ inFlightUpserts st -> p < promises st.

(** An attempt keeps the promises in the set apart: it never gives a
    number twice, never takes a promise of another attempt out of the set,
    and when it succeeds it leaves the set exactly as it found it. *)
Theorem handle_keeps_in_flight_set (topic rawBytes : string)
    (st : State World) :
  numbered st ->
  numbered (snd (handle cfg pf plugins topic rawBytes st)) /\
  promises st <= promises (snd (handle cfg pf plugins topic rawBytes st)) /\
  inFlightUpserts st
  ⊆ inFlightUpserts (snd (handle cfg pf plugins topic rawBytes st)) /\
  (fst (handle cfg pf plugins topic rawBytes st) = Fulfilled tt ->
   inFlightUpserts (snd (handle cfg pf plugins topic rawBytes st))
   = inFlightUpserts st).
Proof.
  intros Hnum. unfold handle.
  assert (Hsame : forall s : State World,
            inFlightUpserts s = inFlightUpserts st ->
            promises s = promises st ->
            numbered s /\ promises st <= promises s /\
            inFlightUpserts st ⊆ inFlightUpserts s /\
            (True -> inFlightUpserts s = inFlightUpserts st)).
  { intros s Hs Hp. unfold numbered. rewrite Hs, Hp.
    repeat split; [exact Hnum|lia|set_solver]. }
  assert (Hweak : forall (r : settled unit exn) (s : State World),
            inFlightUpserts s = inFlightUpserts st ->
            promises s = promises st ->
            numbered s /\ promises st <= promises s /\
            inFlightUpserts st ⊆ inFlightUpserts s /\
            (r = Fulfilled tt -> inFlightUpserts s = inFlightUpserts st)).
  { intros r s Hs Hp. destruct (Hsame s Hs Hp) as (? & ? & ? & ?).
    repeat split; auto. }
  destruct (JSON_parse pf rawBytes) as [obj|err]; [|now apply Hweak].
  destruct (String.eqb topic (rawTopic cfg)).
  - destruct (RawMessageSchema_ok obj); [|now apply Hweak]. simpl.
    destruct (handler_for (normalizers plugins) (get obj "tool")) as [norm|];
      [|now apply Hweak].
    destruct (norm obj) as [returned|err]; [|now apply Hweak].
    assert (Hpush : forall events (s : State World),
              inFlightUpserts (snd (push_events cfg pf events s))
              = inFlightUpserts s /\
              promises (snd (push_events cfg pf events s)) = promises s).
    { induction events as [|ev events IH]; intros s; simpl; [now split|].
      destruct (DomainEventSchema_ok ev); simpl; [|now split].
      destruct (IH (push (batch_entry cfg pf ev) s)) as [-> ->]. now split. }
    destruct (Hpush (default [] returned)
                (inc "messagesConsumed" [topic] 1 st)) as [Hi Hp].
    destruct (push_events cfg pf (default [] returned)
                (inc "messagesConsumed" [topic] 1 st)) as [[[]|err] st1];
      cbn [fst snd] in *; apply Hweak; simpl; assumption.
  - destruct (String.eqb topic (domainTopic cfg)); [|now apply Hweak].
    destruct (DomainEventSchema_ok obj); [|now apply Hweak]. simpl.
    destruct (handler_for (upserters plugins)
                (get (get obj "event") "event_type")) as [up|];
      [|now apply Hweak].
    assert (Hfresh : promises st ∉ inFlightUpserts st).
    { intros Hin. specialize (Hnum _ Hin). lia. }
    clear Hweak Hsame. unfold await, await_among, numbered in *. simpl.
    destruct (up obj (world st)) as [[[]|err] w]; simpl;
      rewrite ?suspend_inFlight, ?suspend_promises; simpl.
    + assert (Hback : ({[promises st]} ∪ inFlightUpserts st) ∖ {[promises st]}
                      = inFlightUpserts st) by set_solver.
      rewrite Hback. split; [|split; [lia|split; [reflexivity|reflexivity]]].
      intros p Hp. specialize (Hnum p Hp). lia.
    + split; [|split; [lia|split; [set_solver|discriminate]]].
      intros p Hp. apply elem_of_union in Hp as [Hp|Hp].
      * apply elem_of_singleton in Hp. lia.
      * specialize (Hnum p Hp). lia.
Qed.

End ServiceInGeneral.

Section ServiceInGeneralRuns.
Import Service Registry.

Lemma unregistered_tool_is_dropped_witness :
  dispatch topics split_platform reading_plugins "tool.raw" split_message
    (started calm)
  = inc "msgLatency" ["raw"] 1
      (inc "messagesConsumed" ["tool.raw"] 1 (started calm)).
Proof.
  apply (unregistered_tool_is_dropped topics split_platform reading_plugins
           "tool.raw" split_message "split"
           (VObj [ ("tool", VStr "split"); ("runId", VStr "r1") ])
           (started calm)).
  - reflexivity.
  - vm_compute. reflexivity.
  - reflexivity.
  - reflexivity.
  - reflexivity.
  - vm_compute. reflexivity.
Defined.

Lemma handle_raw_appends_keyed_entries_witness :
  exists added,
    batch (snd (handle topics split_platform split_plugins "tool.raw"
                  split_message (started calm)))
    = batch (started calm) ++ added /\
    Forall (keyed_entry topics) added.
Proof.
  apply (handle_raw_appends_keyed_entries topics split_platform split_plugins
           "tool.raw" split_message (started calm)).
  reflexivity.
Defined.

Lemma started_numbered (w : Script) : numbered (started w).
Proof. intros p Hp. simpl in Hp. set_solver. Qed.

Lemma handle_keeps_in_flight_set_witness :
  numbered (snd (handle topics reading_platform reading_plugins
                   "events.domain" reading_message
                   (started (storage_down 1)))) /\
  promises (started (storage_down 1))
  <= promises (snd (handle topics reading_platform reading_plugins
                      "events.domain" reading_message
                      (started (storage_down 1)))) /\
  inFlightUpserts (started (storage_down 1))
  ⊆ inFlightUpserts (snd (handle topics reading_platform reading_plugins
                            "events.domain" reading_message
                            (started (storage_down 1)))) /\
  (fst (handle topics reading_platform reading_plugins "events.domain"
          reading_message (started (storage_down 1))) = Fulfilled tt ->
   inFlightUpserts (snd (handle topics reading_platform reading_plugins
                           "events.domain" reading_message
                           (started (storage_down 1))))
   = inFlightUpserts (started (storage_down 1))).
Proof.
  apply (handle_keeps_in_flight_set topics reading_platform reading_plugins
           "events.domain" reading_message (started (storage_down 1))).
  apply started_numbered.
Defined.

End ServiceInGeneralRuns.

(* ===================================================================== *)
(** ** flushBatch while the broker is down *)
(* ===================================================================== *)

Section BrokerDown.
Import Service Registry.

Context {World : Type} (pf : Platform World).

(** The broker rejects every [sendBatch] of these entries. *)
Definition broker_down (sending : list TopicMessages) : Prop :=
  forall w, exists err, fst (producer_sendBatch pf sending w) = Rejected err.

Lemma sendBatch_call_down sending (s : State World) :
  broker_down sending ->
  exists err,
    fst (sendBatch_call pf sending s) = Rejected err /\
    effects (snd (sendBatch_call pf sending s))
    = effects s ++ [SendBatch sending false] /\
    metrics (snd (sendBatch_call pf sending s)) = metrics s.
Proof.
  intros Hdown. destruct (Hdown (world s)) as [err Herr].
  exists err. unfold sendBatch_call, sendBatch_call_among, await_among.
  destruct (producer_sendBatch pf sending (world s)) as [r w].
  simpl in Herr. subst r. simpl.
  rewrite suspend_effects, suspend_metrics. now repeat split.
Qed.

Lemma sendBatch_call_counts sending :
  counts_runs (runtime pf) (sendBatch_call pf sending)
    (fun s : State World => length (effects s)).
Proof.
  split; [|split].
  - intros s. unfold sendBatch_call, sendBatch_call_among, await_among.
    destruct (producer_sendBatch pf sending (world s)) as [r w]. simpl.
    rewrite suspend_effects. simpl. rewrite length_app. simpl. lia.
  - intros s. simpl. now destruct (random pf (world s)).
  - intros d s. simpl. now rewrite suspend_effects.
Qed.

(** What is in the buffer was pushed by a handler while a task was
    suspended. *)
Definition pushed_meanwhile (s : State World) : Prop :=
  forall e, e ∈ batch s -> exists w, e ∈ fst (suspended pf w).

Lemma suspend_pushed_meanwhile (s : State World) :
  pushed_meanwhile s -> pushed_meanwhile (suspend pf s).
Proof.
  intros Hs e. unfold suspend.
  destruct (suspended pf (world s)) as [pushed w] eqn:Hw. simpl.
  intros He. apply elem_of_app in He as [He|He]; [now apply Hs|].
  exists (world s). now rewrite Hw.
Qed.

(** A flush while the broker is down: the send is tried four times with
    the entries taken from the buffer and then given up; the flush rejects,
    no counter moves, and the entries are not put back, so that what the
    buffer holds afterwards is only what was pushed in the meantime. *)
Theorem flushBatch_gives_up (st : State World) :
  batch st <> [] ->
  broker_down (batch st) ->
  (exists err, fst (flushBatch pf st) = Rejected err) /\
  effects (snd (flushBatch pf st))
  = effects st ++ repeat (SendBatch (batch st) false) 4 /\
  metrics (snd (flushBatch pf st)) = metrics st /\
  pushed_meanwhile (snd (flushBatch pf st)).
Proof.
  intros Hne Hdown. unfold flushBatch, flushBatch_among.
  change (runtime_among pf (suspend pf)) with (runtime pf).
  change (sendBatch_call_among pf (suspend pf) (batch st))
    with (sendBatch_call pf (batch st)).
  destruct (batch st) as [|first more] eqn:Hbatch; [congruence|].
  rewrite <- Hbatch in *. clear Hne.
  set (sending := batch st) in *.
  set (fn := sendBatch_call pf sending).
  assert (Hrej : forall s : State World,
            length (effects s) <= length (effects st) + 3 ->
            rejects fn s).
  { intros s _. destruct (sendBatch_call_down sending s Hdown) as (err & H & _).
    now exists err. }
  destruct (retry_loop_all_rejected (runtime pf) fn
              (fun s : State World => length (effects s))
              3 (QArith_base.inject_Z 200) (length (effects st) + 3)
              (sendBatch_call_counts sending) Hrej
              3 0%Z (with_batch [] st) eq_refl ltac:(lia) eq_refl)
    as (s_last & err & Hcalls & Hlast & Hrun).
  assert (Hinv :
    (fun s : State World =>
       (exists k, effects s = effects st ++ repeat (SendBatch sending false) k)
       /\ metrics s = metrics st /\ pushed_meanwhile s)
      (snd (retry_loop (runtime pf) fn 3 (QArith_base.inject_Z 200) 0
              (with_batch [] st)))).
  { apply retry_loop_invariant with (n := 3); try reflexivity.
    - intros s ((k & Hk) & Hm & Hp).
      destruct (sendBatch_call_down sending s Hdown) as (e & _ & He & Hm').
      split; [|split].
      + exists (S k). unfold fn. rewrite He, Hk, <- app_assoc.
        f_equal. simpl. now rewrite repeat_cons.
      + unfold fn. now rewrite Hm'.
      + unfold fn, sendBatch_call, sendBatch_call_among, await_among.
        destruct (producer_sendBatch pf sending (world s)) as [r w]. simpl.
        apply (suspend_pushed_meanwhile (with_world w s)). exact Hp.
    - intros s (Hk & Hm & Hp). simpl.
      destruct (random pf (world s)). simpl. now repeat split.
    - intros d s ((k & Hk) & Hm & Hp). simpl.
      rewrite suspend_effects, suspend_metrics.
      split; [now exists k|]. split; [exact Hm|].
      now apply suspend_pushed_meanwhile.
    - split; [exists 0; simpl; now rewrite app_nil_r|].
      split; [reflexivity|]. intros e He. simpl in He. set_solver. }
  pose proof (sendBatch_call_counts sending) as (Hcount & _ & _).
  specialize (Hcount s_last). fold fn in Hcount.
  unfold retry. simpl. fold sending. fold fn.
  change (Z.pos 3) with 3%Z in *.
  rewrite Hrun in *. simpl in *.
  destruct Hinv as ((k & Hk) & Hm & Hp).
  pose proof (f_equal (@length _) Hk) as Hlen.
  rewrite length_app, repeat_length in Hlen.
  assert (k = 4) as -> by lia.
  split; [now exists err|]. split; [exact Hk|]. split; [exact Hm|exact Hp].
Qed.

End BrokerDown.

Section BrokerDownRuns.
Import Service Registry.

(** A broker that never answers. *)
Definition unreachable : Platform Script :=
  {| JSON_parse := JSON_parse (scripted []);
     JSON_stringify := JSON_stringify (scripted []);
     Buffer_toString := Buffer_toString (scripted []);
     random := random (scripted []);
     producer_sendBatch := fun _ w => (Rejected (Error "unavailable"), w);
     producer_send := fun _ w => (Rejected (Error "unavailable"), w);
     suspended := arrive_next |}.

Lemma flushBatch_gives_up_witness :
  (exists err, fst (flushBatch unreachable two_buffered) = Rejected err) /\
  effects (snd (flushBatch unreachable two_buffered))
  = effects two_buffered ++ repeat (SendBatch (batch two_buffered) false) 4 /\
  metrics (snd (flushBatch unreachable two_buffered)) = metrics two_buffered /\
  pushed_meanwhile unreachable (snd (flushBatch unreachable two_buffered)).
Proof.
  apply (flushBatch_gives_up unreachable two_buffered).
  - discriminate.
  - intros w. now exists (Error "unavailable").
Defined.

(** The two entries that were in the buffer are gone. *)
Example flush_gives_up_run :
  batch (snd (flushBatch unreachable two_buffered)) = [entry "f3"].
Proof. vm_compute. reflexivity. Qed.

End BrokerDownRuns.

(* ===================================================================== *)
(** ** plugins/example/upserter.ts *)
(* ===================================================================== *)

Module ExampleUpserter.

(** The six Cypher statements of the upserter, named by what each of them
    maintains, in the order they stand in the source.  The text of a
    statement is a constant and is not analysed here. *)
Inductive statement : Type :=
| SensorEntity
| LocationEntity
| SensorTypeEntity
| CoLocation
| ReadingRecord
| LocationStatistics.

(** The shared session, over the state [W] of the database and the event
    loop: [s.run(statement, parameters)], and what [retry] asks for. *)
Record Session (W : Type) : Type := {
  run : statement -> list (string * value) -> W -> settled unit exn * W;
  clock : Runtime W
}.
Arguments run {W} _ _ _ _.
Arguments clock {W} _.

(** [ev.meta.k]. *)
Definition meta (ev : value) (k : string) : value := get (get ev "meta") k.

Definition sensor_parameters (ev : value) : list (string * value) :=
  [ ("sensorId", meta ev "sensorId");
    ("value", meta ev "value");
    ("unit", meta ev "unit");
    ("sensorType", meta ev "sensorType") ].

Definition location_parameters (ev : value) : list (string * value) :=
  [ ("location", meta ev "location");
    ("sensorId", meta ev "sensorId") ].

Definition sensorType_parameters (ev : value) : list (string * value) :=
  [ ("sensorType", meta ev "sensorType");
    ("sensorId", meta ev "sensorId") ].

Definition colocation_parameters (ev : value) : list (string * value) :=
  [ ("sensorId", meta ev "sensorId") ].

Definition reading_parameters (ev : value) : list (string * value) :=
  [ ("sensorId", meta ev "sensorId");
    ("fingerprint", get (get ev "event") "fingerprint");
    ("value", meta ev "value");
    ("unit", meta ev "unit");
    ("toolRunId", meta ev "toolRunId") ].

Definition statistics_parameters (ev : value) : list (string * value) :=
  [ ("location", meta ev "location") ].

(** [await op; rest]: a rejection of [op] is thrown past [rest]. *)
Definition and_then {W : Type} (op rest : W -> settled unit exn * W)
  : W -> settled unit exn * W :=
  fun w =>
    match op w with
    | (Fulfilled _, w1) => rest w1
    | (Rejected err, w1) => (Rejected err, w1)
    end.

(** [await retry(() => s.run(statement, parameters))]. *)
Definition retried {W : Type} (s : Session W) (q : statement)
    (parameters : list (string * value)) : W -> settled unit exn * W :=
  retry (clock s) (run s q parameters) no_opts.

(** [upsert]; its [finally] block is empty. *)
Definition upsert {W : Type} (s : Session W) : IUpserter W :=
  fun ev =>
    and_then (retried s SensorEntity (sensor_parameters ev))
   (and_then (retried s LocationEntity (location_parameters ev))
   (and_then (retried s SensorTypeEntity (sensorType_parameters ev))
   (and_then (retried s CoLocation (colocation_parameters ev))
   (and_then (retried s ReadingRecord (reading_parameters ev))
             (retried s LocationStatistics (statistics_parameters ev)))))).

End ExampleUpserter.

Section UpserterRuns.
Import ExampleUpserter.

(** The statements of one upsert with their parameters, in source order. *)
Definition statements (ev : value) : list (statement * list (string * value)) :=
  [ (SensorEntity, sensor_parameters ev);
    (LocationEntity, location_parameters ev);
    (SensorTypeEntity, sensorType_parameters ev);
    (CoLocation, colocation_parameters ev);
    (ReadingRecord, reading_parameters ev);
    (LocationStatistics, statistics_parameters ev) ].

Context {W : Type} (s : Session W).

(** The statements in a list, each retried, one after the other. *)
Fixpoint run_all (todo : list (statement * list (string * value))) (w : W)
  : settled unit exn * W :=
  match todo with
  | [] => (Fulfilled tt, w)
  | (q, parameters) :: rest =>
      match retried s q parameters w with
      | (Fulfilled _, w1) => run_all rest w1
      | (Rejected err, w1) => (Rejected err, w1)
      end
  end.

Lemma upsert_run_all (ev : value) (w : W) :
  upsert s ev w = run_all (statements ev) w.
Proof.
  unfold upsert, statements, and_then. simpl.
  repeat match goal with
         | |- context [retried s ?q ?p ?w0] =>
             destruct (retried s q p w0) as [[[]|?] ?]; try reflexivity
         end.
Qed.

(** [ran w] is the record of the statements the database has been asked to
    run: [s.run] adds its statement to it, and nothing else touches it. *)
Context (ran : W -> list (statement * list (string * value))).

Definition records_runs : Prop :=
  (forall q p w, ran (snd (run s q p w)) = ran w ++ [(q, p)]) /\
  (forall w, ran (snd (Math_random (clock s) w)) = ran w) /\
  (forall d w, ran (setTimeout (clock s) d w) = ran w).

Lemma retry_loop_records q p retries baseMs :
  records_runs ->
  forall n attempt w,
    n = Z.to_nat (retries - attempt) -> (attempt <= retries)%Z ->
    exists k,
      1 <= k <= n + 1 /\
      ran (snd (retry_loop (clock s) (run s q p) retries baseMs attempt w))
      = ran w ++ repeat (q, p) k /\
      (forall err,
         fst (retry_loop (clock s) (run s q p) retries baseMs attempt w)
         = Rejected err -> k = n + 1).
Proof.
  intros (Hrun & Hrand & Hsleep) n.
  induction n as [|n IH]; intros attempt w Hn Hle;
    pose proof (Hrun q p w) as Hw1;
    destruct (run s q p w) as [[t|err] w1] eqn:Hfn; simpl in Hw1.
  - rewrite (retry_loop_fulfilled _ _ _ _ _ _ _ _ Hfn). simpl.
    exists 1. split; [lia|]. split; [exact Hw1|discriminate].
  - rewrite (retry_loop_exhausted _ _ _ _ _ _ _ _ Hfn) by lia. simpl.
    exists 1. split; [lia|]. split; [exact Hw1|reflexivity].
  - rewrite (retry_loop_fulfilled _ _ _ _ _ _ _ _ Hfn). simpl.
    exists 1. split; [lia|]. split; [exact Hw1|discriminate].
  - rewrite (retry_loop_again _ _ _ _ _ _ _ _ Hfn) by lia.
    destruct (IH (attempt + 1)%Z
                (setTimeout (clock s)
                   (delay baseMs (attempt + 1)
                      (fst (Math_random (clock s) w1)))
                   (snd (Math_random (clock s) w1))))
      as (k & Hk & Hran & Hrej); [lia|lia|].
    exists (S k). split; [lia|]. split.
    + rewrite Hran, Hsleep, Hrand, Hw1, <- app_assoc. reflexivity.
    + intros e He. specialize (Hrej e He). lia.
Qed.

(** While the database answers, one upsert is six statements, each run
    once. *)
Theorem upsert_database_up (ev : value) (w : W) :
  records_runs ->
  (forall q p w0, exists t, fst (run s q p w0) = Fulfilled t) ->
  fst (upsert s ev w) = Fulfilled tt /\
  ran (snd (upsert s ev w)) = ran w ++ statements ev.
Proof.
  intros Hrec Hup. rewrite upsert_run_all.
  assert (Hone : forall q p w0,
            fst (retried s q p w0) = Fulfilled tt /\
            ran (snd (retried s q p w0)) = ran w0 ++ [(q, p)]).
  { intros q p w0. destruct (Hup q p w0) as [[] Ht].
    destruct Hrec as (Hrun & _ & _). specialize (Hrun q p w0).
    unfold retried, retry. simpl.
    destruct (run s q p w0) as [r w1] eqn:Hfn. simpl in Ht. subst r.
    rewrite (retry_loop_fulfilled _ _ _ _ _ _ _ _ Hfn). now split. }
  generalize (statements ev) as todo. intros todo. revert w.
  induction todo as [|[q p] rest IH]; intros w; simpl.
  - now rewrite app_nil_r.
  - destruct (Hone q p w) as [Hf Hr].
    destruct (retried s q p w) as [r w1]. simpl in *. subst r.
    destruct (IH w1) as [Hf' Hr']. split; [exact Hf'|].
    rewrite Hr', Hr, <- app_assoc. reflexivity.
Qed.

(** While the database is down, one upsert is the first statement, tried
    four times; none of the other five is run. *)
Theorem upsert_database_down (ev : value) (w : W) :
  records_runs ->
  (forall q p w0, exists err, fst (run s q p w0) = Rejected err) ->
  (exists err, fst (upsert s ev w) = Rejected err) /\
  ran (snd (upsert s ev w))
  = ran w ++ repeat (SensorEntity, sensor_parameters ev) 4.
Proof.
  intros Hrec Hdown. rewrite upsert_run_all.
  destruct (retry_loop_records SensorEntity (sensor_parameters ev) 3
              (QArith_base.inject_Z 200) Hrec 3 0%Z w eq_refl ltac:(lia))
    as (k & Hk & Hran & Hrej).
  destruct (retry_loop_all_rejected (clock s)
              (run s SensorEntity (sensor_parameters ev))
              (fun w0 => length (ran w0)) 3 (QArith_base.inject_Z 200)
              (length (ran w) + 3)) with (n := 3) (attempt := 0%Z) (w := w)
    as (w_last & err & _ & _ & Hrun); try reflexivity; try lia.
  { destruct Hrec as (Hr & Hrand & Hsleep). split; [|split].
    - intros w0. rewrite Hr, length_app. simpl. lia.
    - intros w0. now rewrite Hrand.
    - intros d w0. now rewrite Hsleep. }
  { intros w0 _. apply Hdown. }
  simpl. unfold retried, retry. simpl. change (Z.pos 3) with 3%Z in *.
  rewrite Hrun in *. simpl in *.
  rewrite (Hrej err eq_refl) in Hran.
  split; [now exists err|exact Hran].
Qed.

End UpserterRuns.

(** How a run of a list of statements may go: each statement fails at most
    three times before it goes through, and then the next one is run; or
    it fails four times, and nothing is run after that.  [true] says that
    all went through. *)
Inductive well_run :
  list (ExampleUpserter.statement * list (string * value)) ->
  list (ExampleUpserter.statement * list (string * value) * bool) ->
  bool -> Prop :=
| well_run_done : well_run [] [] true
| well_run_through q p rest k after ok :
    k <= 3 -> well_run rest after ok ->
    well_run ((q, p) :: rest)
      (repeat (q, p, false) k ++ (q, p, true) :: after) ok
| well_run_failed q p rest :
    well_run ((q, p) :: rest) (repeat (q, p, false) 4) false.

Section UpserterOutcomes.
Import ExampleUpserter.

Context {W : Type} (s : Session W).

(** [asked w] is the record of what the database has been asked to run and
    of how each request went: [s.run] adds its statement with its outcome,
    and nothing else touches the record. *)
Context (asked : W -> list (statement * list (string * value) * bool)).

Definition records_outcomes : Prop :=
  (forall q p w,
     asked (snd (run s q p w))
     = asked w ++ [(q, p, Service.is_fulfilled (fst (run s q p w)))]) /\
  (forall w, asked (snd (Math_random (clock s) w)) = asked w) /\
  (forall d w, asked (setTimeout (clock s) d w) = asked w).

Lemma retry_loop_outcomes q p retries baseMs :
  records_outcomes ->
  forall n attempt w,
    n = Z.to_nat (retries - attempt) -> (attempt <= retries)%Z ->
    match fst (retry_loop (clock s) (run s q p) retries baseMs attempt w) with
    | Fulfilled _ =>
        exists k,
          k <= n /\
          asked (snd (retry_loop (clock s) (run s q p) retries baseMs
                        attempt w))
          = asked w ++ repeat (q, p, false) k ++ [(q, p, true)]
    | Rejected _ =>
        asked (snd (retry_loop (clock s) (run s q p) retries baseMs
                      attempt w))
        = asked w ++ repeat (q, p, false) (S n)
    end.
Proof.
  intros (Hrun & Hrand & Hsleep) n.
  induction n as [|n IH]; intros attempt w Hn Hle;
    pose proof (Hrun q p w) as Hw;
    destruct (run s q p w) as [[t|err] w1] eqn:Hfn; simpl in Hw.
  - rewrite (retry_loop_fulfilled _ _ _ _ _ _ _ _ Hfn). simpl.
    exists 0. split; [lia|exact Hw].
  - rewrite (retry_loop_exhausted _ _ _ _ _ _ _ _ Hfn) by lia. simpl.
    exact Hw.
  - rewrite (retry_loop_fulfilled _ _ _ _ _ _ _ _ Hfn). simpl.
    exists 0. split; [lia|exact Hw].
  - rewrite (retry_loop_again _ _ _ _ _ _ _ _ Hfn) by lia.
    specialize (IH (attempt + 1)%Z
                  (setTimeout (clock s)
                     (delay baseMs (attempt + 1)
                        (fst (Math_random (clock s) w1)))
                     (snd (Math_random (clock s) w1)))
                  ltac:(lia) ltac:(lia)).
    destruct (fst (retry_loop (clock s) (run s q p) retries baseMs
                     (attempt + 1) _)) as [t|err'].
    + destruct IH as (k & Hk & Hasked). exists (S k). split; [lia|].
      rewrite Hasked, Hsleep, Hrand, Hw, <- app_assoc. reflexivity.
    + rewrite IH, Hsleep, Hrand, Hw, <- app_assoc. reflexivity.
Qed.

Lemma run_all_outcomes todo :
  records_outcomes ->
  forall w,
    exists after,
      asked (snd (run_all s todo w)) = asked w ++ after /\
      well_run todo after (Service.is_fulfilled (fst (run_all s todo w))).
Proof.
  intros Hrec. induction todo as [|[q p] rest IH]; intros w; simpl.
  - exists []. rewrite app_nil_r. split; [reflexivity|constructor].
  - pose proof (retry_loop_outcomes q p 3 (QArith_base.inject_Z 200) Hrec
                  3 0%Z w eq_refl ltac:(lia)) as Hone.
    unfold retried, retry. simpl.
    destruct (retry_loop (clock s) (run s q p) 3 (QArith_base.inject_Z 200)
                0 w) as [[[]|err] w1]; simpl in *.
    + destruct Hone as (k & Hk & Hasked).
      destruct (IH w1) as (after & Hafter & Hwell).
      exists (repeat (q, p, false) k ++ (q, p, true) :: after).
      split.
      * rewrite Hafter, Hasked, <- !app_assoc. reflexivity.
      * now constructor.
    + exists (repeat (q, p, false) 4). split; [exact Hone|constructor].
Qed.

(** One upsert runs the six statements in the order of the source.  A
    statement that fails is tried again, up to four times in all; the next
    statement is run only once the one before it has gone through; after a
    statement has failed four times nothing more is run and the upsert
    rejects; and the upsert fulfils exactly when all six went through. *)
Theorem upsert_runs_statements_in_order (ev : value) (w : W) :
  records_outcomes ->
  exists after,
    asked (snd (upsert s ev w)) = asked w ++ after /\
    well_run (statements ev) after
      (Service.is_fulfilled (fst (upsert s ev w))).
Proof.
  intros Hrec. rewrite upsert_run_all.
  exact (run_all_outcomes (statements ev) Hrec w).
Qed.

End UpserterOutcomes.

Section UpserterExamples.
Import ExampleUpserter ExampleNormalizer.

(** A database that keeps the record of what it was asked to run, and
    answers the first [failures] requests with an error. *)
Definition recording (failures : nat)
  : Session (list (statement * list (string * value))) :=
  {| run := fun q p w =>
       (if Nat.ltb (length w) failures
        then Rejected (Error "unavailable") else Fulfilled tt,
        w ++ [(q, p)]);
     clock := {| Math_random := fun w => (QArith_base.Qmake 1 2, w);
                 setTimeout := fun _ w => w |} |}.

Lemma recording_records failures :
  records_runs (recording failures) (fun w => w).
Proof. repeat split. Qed.

(** A database that keeps the record of what it was asked to run and of
    how it answered, and answers the first [failures] requests with an
    error. *)
Definition answering (failures : nat)
  : Session (list (statement * list (string * value) * bool)) :=
  {| run := fun q p w =>
       (if Nat.ltb (length w) failures
        then Rejected (Error "unavailable") else Fulfilled tt,
        w ++ [(q, p, negb (Nat.ltb (length w) failures))]);
     clock := {| Math_random := fun w => (QArith_base.Qmake 1 2, w);
                 setTimeout := fun _ w => w |} |}.

Lemma answering_records failures :
  records_outcomes (answering failures) (fun w => w).
Proof.
  split; [|split; reflexivity].
  intros q p w. simpl. now destruct (Nat.ltb (length w) failures).
Qed.

Lemma upsert_runs_statements_in_order_witness :
  exists after,
    snd (upsert (answering 2) (good_event "f1") []) = [] ++ after /\
    well_run (statements (good_event "f1")) after
      (Service.is_fulfilled
         (fst (upsert (answering 2) (good_event "f1") []))).
Proof.
  apply (upsert_runs_statements_in_order (answering 2) (fun w => w)
           (good_event "f1") []).
  apply answering_records.
Defined.

(** The first statement fails twice and goes through the third time. *)
Example upsert_after_two_failures :
  upsert (recording 2) (good_event "f1") []
  = (Fulfilled tt,
     concat (zip_with (fun qp k => repeat qp k) (statements (good_event "f1"))
               [3; 1; 1; 1; 1; 1])).
Proof. vm_compute. reflexivity. Qed.

(** A database that is down for six requests: the first statement fails
    four times, and that is all. *)
Example upsert_gives_up_run :
  upsert (answering 6) (good_event "f1") []
  = (Rejected (Error "unavailable"),
     repeat (SensorEntity, sensor_parameters (good_event "f1"), false) 4).
Proof. vm_compute. reflexivity. Qed.

Lemma upsert_database_up_witness :
  fst (upsert (recording 0) (good_event "f1") []) = Fulfilled tt /\
  snd (upsert (recording 0) (good_event "f1") [])
  = [] ++ statements (good_event "f1").
Proof.
  apply (upsert_database_up (recording 0) (fun w => w) (good_event "f1") []).
  - apply recording_records.
  - intros q p w0. now exists tt.
Defined.

(** A database that answers every request with an error. *)
Definition refusing : Session (list (statement * list (string * value))) :=
  {| run := fun q p w => (Rejected (Error "unavailable"), w ++ [(q, p)]);
     clock := clock (recording 0) |}.

Lemma upsert_database_down_witness :
  (exists err, fst (upsert refusing (good_event "f1") []) = Rejected err) /\
  snd (upsert refusing (good_event "f1") [])
  = [] ++ repeat (SensorEntity, sensor_parameters (good_event "f1")) 4.
Proof.
  apply (upsert_database_down refusing (fun w => w) (good_event "f1") []).
  - repeat split.
  - intros q p w0. now exists (Error "unavailable").
Defined.

End UpserterExamples.

(* ===================================================================== *)
(** ** From a sensor report to the database *)
(* ===================================================================== *)

Section Pipeline.
Import ExampleNormalizer ExampleUpserter Service Registry.

(** The event [normalize] builds for an accepted report. *)
Definition reading_event (sha256_hex : string -> string) (parsed : RawSensor)
  : JS.value :=
  VObj [ ("specVersion", VStr "1.0");
         ("event",
          VObj [ ("event_type", VStr "SENSOR_READING");
                 ("fingerprint",
                  VStr (fingerprint sha256_hex (fingerprint_fields parsed))) ]);
         ("meta",
          VObj [ ("sensorId", VStr (sensorId parsed));
                 ("sensorType", VStr (deriveSensorType (sensorId parsed)));
                 ("value", VNum (value_ parsed));
                 ("unit", VStr (unit_ parsed));
                 ("location", VStr (location parsed));
                 ("toolRunId", VStr (runId parsed));
                 ("normalizerVersion", VStr "0.0.3-typed");
                 ("source", VStr "central");
                 ("rawTool", VStr (tool parsed));
                 ("rawRunId", VStr (runId parsed)) ]) ].

Lemma normalize_event sha256_hex raw ev :
  normalize sha256_hex raw = Fulfilled (Some [ev]) ->
  exists parsed,
    RawSensorSchema_safeParse raw = Some parsed /\
    z_number (VNum (value_ parsed)) = true /\
    ev = reading_event sha256_hex parsed.
Proof.
  unfold normalize.
  destruct (RawSensorSchema_safeParse raw) as [parsed|] eqn:Hp;
    [|discriminate].
  destruct (RawSensorSchema_fields raw parsed Hp)
    as (_ & _ & _ & _ & _ & _ & Hz & _).
  match goal with
  | |- context [if ?c then _ else _] => destruct c; [|discriminate]
  end.
  intros [= <-]. exists parsed. now repeat split.
Qed.

(** A parameter that the database driver can bind: a string or a number. *)
Definition bindable (v : JS.value) : bool := is_string v || z_number v.

(** An event that the example normalizer returns is one the example
    upserter can store: the core schema accepts it as long as the digest
    is not empty, its type is the one the upserter is registered for, every
    parameter of the six statements is a string or a number and none is
    [undefined], and the reading is stored under the fingerprint that is
    also the key of the Kafka message. *)
Theorem normalized_event_fits_upserter (sha256_hex : string -> string)
    (raw ev : JS.value) :
  (forall s, sha256_hex s <> "") ->
  normalize sha256_hex raw = Fulfilled (Some [ev]) ->
  Schemas.DomainEventSchema_ok ev = true /\
  get (get ev "event") "event_type" = VStr "SENSOR_READING" /\
  Forall (fun qp => Forall (fun kv => bindable (snd kv) = true) (snd qp))
    (statements ev) /\
  (exists fp,
     fingerprint_key ev = Some fp /\
     lookup_prop "fingerprint" (reading_parameters ev) = VStr fp).
Proof.
  intros Hsha Hnorm.
  destruct (normalize_event sha256_hex raw ev Hnorm) as (parsed & _ & Hz & ->).
  split; [|split; [reflexivity|split]].
  - unfold Schemas.DomainEventSchema_ok, reading_event.
    cbn [get lookup_prop String.eqb Ascii.eqb Bool.eqb is_object z_string
         is_string z_string_min1 andb negb].
    destruct (String.eqb_spec
                (fingerprint sha256_hex (fingerprint_fields parsed)) "")
      as [He|_]; [now apply Hsha in He|reflexivity].
  - unfold statements, sensor_parameters, location_parameters,
      sensorType_parameters, colocation_parameters, reading_parameters,
      statistics_parameters, meta, reading_event, bindable.
    cbn [get lookup_prop String.eqb Ascii.eqb Bool.eqb].
    repeat first [exact Hz | reflexivity | constructor; simpl].
  - eexists. split; reflexivity.
Qed.

(** What the service reads of such an event. *)
Lemma normalized_event_shape sha256_hex raw ev :
  (forall s, sha256_hex s <> "") ->
  normalize sha256_hex raw = Fulfilled (Some [ev]) ->
  Schemas.DomainEventSchema_ok ev = true /\
  get (get ev "event") "event_type" = VStr "SENSOR_READING" /\
  exists fp,
    fingerprint_key ev = Some fp /\
    get raw "tool" = VStr "sensor_report".
Proof.
  intros Hsha Hnorm.
  destruct (normalize_event sha256_hex raw ev Hnorm) as (parsed & Hp & Hz & ->).
  destruct (RawSensorSchema_fields raw parsed Hp) as (Htool & _).
  split; [|split; [reflexivity|]].
  - unfold Schemas.DomainEventSchema_ok, reading_event.
    cbn [get lookup_prop String.eqb Ascii.eqb Bool.eqb is_object z_string
         is_string z_string_min1 andb negb].
    destruct (String.eqb_spec
                (fingerprint sha256_hex (fingerprint_fields parsed)) "")
      as [He|_]; [now apply Hsha in He|reflexivity].
  - eexists. split; [reflexivity|exact Htool].
Qed.

Context {World : Type} (cfg : Topics) (pf : Platform World)
  (plugins : Plugins World).

(** A sensor report that the example normalizer accepts is batched as one
    message for the domain topic, keyed by the fingerprint of the reading;
    and when that message comes back on the domain topic, what the
    SENSOR_READING upserter is called with is the event the normalizer
    built. *)
Theorem sensor_report_reaches_upserter (sha256_hex : string -> string)
    (rawBytes : string) (raw ev : JS.value) (up : IUpserter World)
    (st : State World) :
  (forall s, sha256_hex s <> "") ->
  String.eqb (domainTopic cfg) (rawTopic cfg) = false ->
  normalizers plugins !! "sensor_report" = Some (normalize sha256_hex) ->
  upserters plugins !! "SENSOR_READING" = Some up ->
  JSON_parse pf rawBytes = Fulfilled raw ->
  RawMessageSchema_ok raw = true ->
  normalize sha256_hex raw = Fulfilled (Some [ev]) ->
  JSON_parse pf (JSON_stringify pf ev) = Fulfilled ev ->
  exists fp,
    fingerprint_key ev = Some fp /\
    fst (handle cfg pf plugins (rawTopic cfg) rawBytes st) = Fulfilled tt /\
    batch (snd (handle cfg pf plugins (rawTopic cfg) rawBytes st))
    = batch st
      ++ [ {| topic := domainTopic cfg;
              messages := [ {| key := Some fp;
                               value := JSON_stringify pf ev |} ] |} ] /\
    forall st2 : State World,
      effects (snd (handle cfg pf plugins (domainTopic cfg)
                      (JSON_stringify pf ev) st2))
      = effects st2
        ++ [ Upsert ev (promises st2)
               (is_fulfilled (fst (up ev (world st2)))) ].
Proof.
  intros Hsha Htopics Hnorm Hup Hparse Hraw Hev Hback.
  destruct (normalized_event_shape sha256_hex raw ev Hsha Hev)
    as (Hok & Htype & fp & Hfp & Htool).
  exists fp. split; [exact Hfp|].
  unfold handle.
  rewrite Hparse, String.eqb_refl, Hraw, Htool. simpl. rewrite Hnorm, Hev.
  simpl. rewrite Hok. simpl. unfold batch_entry. rewrite Hfp.
  split; [reflexivity|]. split; [reflexivity|].
  intros st2. rewrite Hback, Htopics, String.eqb_refl, Hok, Htype. simpl.
  rewrite Hup. unfold await, await_among. simpl.
  destruct (up ev (world st2)) as [[[]|err] w]; simpl;
    now rewrite suspend_effects.
Qed.

End Pipeline.

Section PipelineRuns.
Import ExampleNormalizer ExampleUpserter Service Registry.

(** A stand-in for the digest that, like SHA-256, never gives the empty
    string. *)
Definition tagged (s : string) : string := String "#" s.

Definition temp_1_reading : RawSensor :=
  {| tool := "sensor_report"; schemaVersion := "1.0"; runId := "r1";
     sensorId := "temp-1"; value_ := "21.5"; unit_ := "celsius";
     location := "kitchen" |}.

Lemma normalized_event_fits_upserter_witness :
  Schemas.DomainEventSchema_ok (reading_event tagged temp_1_reading) = true /\
  get (get (reading_event tagged temp_1_reading) "event") "event_type"
  = VStr "SENSOR_READING" /\
  Forall (fun qp => Forall (fun kv => bindable (snd kv) = true) (snd qp))
    (statements (reading_event tagged temp_1_reading)) /\
  (exists fp,
     fingerprint_key (reading_event tagged temp_1_reading) = Some fp /\
     lookup_prop "fingerprint"
       (reading_parameters (reading_event tagged temp_1_reading)) = VStr fp).
Proof.
  apply (normalized_event_fits_upserter tagged
           (sensor_report_r1_versioned "1.0")).
  - intros s. discriminate.
  - vm_compute. reflexivity.
Defined.

Definition report_message : string :=
  text "{'tool':'sensor_report','schemaVersion':'1.0','runId':'r1','data':{'sensorId':'temp-1','value':21.5,'unit':'celsius','location':'kitchen'}}".

(** A platform on which the report parses, and the event it becomes is
    read back from the text it was written as. *)
Definition sensor_platform : Platform Script :=
  scripted
    [ (report_message, sensor_report_r1_versioned "1.0");
      (JSON_stringify (scripted []) (reading_event tagged temp_1_reading),
       reading_event tagged temp_1_reading) ].

Definition sensor_plugins : Plugins Script :=
  {| normalizers := {[ "sensor_report" := normalize tagged ]};
     upserters := {[ "SENSOR_READING" := scripted_upserter ]} |}.

Lemma sensor_report_reaches_upserter_witness :
  exists fp,
    fingerprint_key (reading_event tagged temp_1_reading) = Some fp /\
    fst (handle topics sensor_platform sensor_plugins "tool.raw"
           report_message (started calm)) = Fulfilled tt /\
    batch (snd (handle topics sensor_platform sensor_plugins "tool.raw"
                  report_message (started calm)))
    = batch (started calm)
      ++ [ {| topic := "events.domain";
              messages :=
                [ {| key := Some fp;
                     value := JSON_stringify sensor_platform
                                (reading_event tagged temp_1_reading) |} ] |} ]
    /\
    forall st2 : State Script,
      effects (snd (handle topics sensor_platform sensor_plugins
                      "events.domain"
                      (JSON_stringify sensor_platform
                         (reading_event tagged temp_1_reading)) st2))
      = effects st2
        ++ [ Upsert (reading_event tagged temp_1_reading) (promises st2)
               (is_fulfilled
                  (fst (scripted_upserter
                          (reading_event tagged temp_1_reading)
                          (world st2)))) ].
Proof.
  apply (sensor_report_reaches_upserter topics sensor_platform sensor_plugins
           tagged report_message (sensor_report_r1_versioned "1.0")
           (reading_event tagged temp_1_reading) scripted_upserter
           (started calm)).
  - intros s. discriminate.
  - reflexivity.
  - vm_compute. reflexivity.
  - vm_compute. reflexivity.
  - vm_compute. reflexivity.
  - reflexivity.
  - vm_compute. reflexivity.
  - vm_compute. reflexivity.
Defined.

End PipelineRuns.

(* ===================================================================== *)
(** ** The plugin test CLI: the sensor reports it sends *)
(* ===================================================================== *)

Module SensorCli.

(** [ToBoolean]: [!v] is its negation.  Both zeros print as ["0"]. *)
Definition truthy (v : value) : bool :=
  match v with
  | VUndefined | VNull => false
  | VBool b => b
  | VNum shown => negb (String.eqb shown "0" || String.eqb shown "NaN")
  | VStr s => negb (String.eqb s "")
  | VArr _ | VObj _ => true
  end.

(** [typeof v === 'number']. *)
Definition is_number (v : value) : bool :=
  match v with VNum _ => true | _ => false end.

(** [createCustomRawData(sensorId, value, unit, location)]; [now] is what
    the template literal prints for [Date.now()]. *)
Definition createCustomRawData (now : string)
    (sensorId value unit location : JS.value) : settled JS.value exn :=
  if negb (truthy sensorId) || negb (is_number value)
     || negb (truthy unit) || negb (truthy location)
  then Rejected
         (Error "All parameters (sensorId, value, unit, location) are required")
  else Fulfilled
         (VObj [ ("tool", VStr "sensor_report");
                 ("schemaVersion", VStr "1.0");
                 ("runId", VStr ("custom-" ++ now));
                 ("data", VObj [ ("sensorId", sensorId);
                                 ("value", value);
                                 ("unit", unit);
                                 ("location", location) ]) ]).

Definition locations : list string :=
  [ "kitchen"; "living_room"; "bedroom"; "office"; "garage" ].

Definition sensorTypes : list string :=
  [ "temp"; "humidity"; "pressure"; "light"; "motion" ].

(** The [unit] that the [switch] on [randomType] picks. *)
Definition unit_of (randomType : string) : string :=
  if String.eqb randomType "temp" then "celsius"
  else if String.eqb randomType "humidity" then "percent"
  else if String.eqb randomType "pressure" then "hPa"
  else if String.eqb randomType "light" then "lux"
  else if String.eqb randomType "motion" then "boolean"
  else "units".

(** [generateSampleRawData()], given what it draws: [i] and [j] are
    [Math.floor(Math.random() * 5)] for the location and for the type, and
    [rounded] is the number [Math.round(value * 100) / 100], whose
    computation in floating point is not modelled. *)
Definition generateSampleRawData (now : string) (i j : nat) (rounded : string)
  : value :=
  let randomLocation := nth i locations "" in
  let randomType := nth j sensorTypes "" in
  VObj [ ("tool", VStr "sensor_report");
         ("schemaVersion", VStr "1.0");
         ("runId", VStr ("test-" ++ now));
         ("data",
          VObj [ ("sensorId",
                  VStr (randomType ++ "-" ++ randomLocation ++ "-01"));
                 ("value", VNum rounded);
                 ("unit", VStr (unit_of randomType));
                 ("location", VStr randomLocation) ]) ].

End SensorCli.

Section SensorCliReports.
Import ExampleNormalizer SensorCli.

(** A report made by [createCustomRawData] from a sensor, a unit and a
    location that are not empty and a value that is a number other than
    [NaN] passes the schema of raw messages, and the example normalizer
    makes one event of it that carries the four arguments and the run. *)
Theorem custom_report_is_normalized (sha256_hex : string -> string)
    (now sensor shown unit place : string) :
  sensor <> "" -> unit <> "" -> place <> "" -> shown <> "NaN" ->
  exists raw ev,
    createCustomRawData now (VStr sensor) (VNum shown) (VStr unit) (VStr place)
    = Fulfilled raw /\
    RawMessageSchema_ok raw = true /\
    normalize sha256_hex raw = Fulfilled (Some [ev]) /\
    get (get ev "meta") "sensorId" = VStr sensor /\
    get (get ev "meta") "value" = VNum shown /\
    get (get ev "meta") "unit" = VStr unit /\
    get (get ev "meta") "location" = VStr place /\
    get (get ev "meta") "toolRunId" = VStr ("custom-" ++ now).
Proof.
  intros Hs Hu Hp Hn.
  apply String.eqb_neq in Hs, Hu, Hp, Hn.
  eexists. eexists. split.
  { unfold createCustomRawData. simpl. rewrite Hs, Hu, Hp. reflexivity. }
  split; [reflexivity|].
  split.
  { unfold normalize, RawSensorSchema_safeParse. simpl. rewrite Hn. simpl.
    unfold DomainEventSchema_ok. simpl. rewrite Hn. reflexivity. }
  repeat split.
Qed.

(** A value that is [NaN] gets past the check of [createCustomRawData],
    which only asks for [typeof value === 'number']; the report is made,
    and the normalizer drops it without an error, as it does the [null]
    that [NaN] is written as in JSON. *)
Theorem custom_report_nan_is_dropped (sha256_hex : string -> string)
    (now sensor unit place : string) :
  sensor <> "" -> unit <> "" -> place <> "" ->
  exists raw,
    createCustomRawData now (VStr sensor) (VNum "NaN") (VStr unit) (VStr place)
    = Fulfilled raw /\
    RawMessageSchema_ok raw = true /\
    normalize sha256_hex raw = Fulfilled None /\
    normalize sha256_hex
      (VObj [ ("tool", VStr "sensor_report");
              ("schemaVersion", VStr "1.0");
              ("runId", VStr ("custom-" ++ now));
              ("data", VObj [ ("sensorId", VStr sensor);
                              ("value", VNull);
                              ("unit", VStr unit);
                              ("location", VStr place) ]) ])
    = Fulfilled None.
Proof.
  intros Hs Hu Hp.
  apply String.eqb_neq in Hs, Hu, Hp.
  eexists. split.
  { unfold createCustomRawData. simpl. rewrite Hs, Hu, Hp. reflexivity. }
  split; [reflexivity|]. split; reflexivity.
Qed.

(** The sensor type a generated sample is meant to have. *)
Definition meant (randomType : string) : string :=
  if String.eqb randomType "temp" then "temperature" else randomType.

(** Every sample that [generateSampleRawData] can draw is accepted by the
    example normalizer and classified as the type it was generated as:
    the identifier it is given holds the keyword of its type and of no
    type that [deriveSensorType] looks for earlier. *)
Theorem generated_sample_is_classified (sha256_hex : string -> string)
    (now rounded : string) (i j : nat) :
  i < 5 -> j < 5 -> rounded <> "NaN" ->
  RawMessageSchema_ok (generateSampleRawData now i j rounded) = true /\
  exists ev,
    normalize sha256_hex (generateSampleRawData now i j rounded)
    = Fulfilled (Some [ev]) /\
    get (get ev "meta") "sensorType" = VStr (meant (nth j sensorTypes "")) /\
    get (get ev "meta") "location" = VStr (nth i locations "").
Proof.
  intros Hi Hj Hn. apply String.eqb_neq in Hn.
  split; [reflexivity|].
  assert (Htype :
    deriveSensorType
      (nth j sensorTypes "" ++ "-" ++ nth i locations "" ++ "-01")
    = meant (nth j sensorTypes "")).
  { do 5 (destruct i as [|i]; [do 5 (destruct j as [|j];
       [vm_compute; reflexivity|]); lia|]). lia. }
  eexists. split.
  { unfold normalize, RawSensorSchema_safeParse, generateSampleRawData.
    cbn [get lookup_prop String.eqb Ascii.eqb Bool.eqb is_object negb
         as_literal as_string as_number z_number mbind option_bind
         sensorId value_ unit_ location runId tool].
    rewrite Hn. cbn [negb mbind option_bind sensorId value_ unit_ location
                     runId tool].
    unfold DomainEventSchema_ok.
    cbn [get lookup_prop String.eqb Ascii.eqb Bool.eqb is_object z_string
         is_string z_number andb].
    rewrite Hn. reflexivity. }
  split; [|reflexivity].
  cbn [get lookup_prop String.eqb Ascii.eqb Bool.eqb].
  now rewrite Htype.
Qed.

Lemma custom_report_is_normalized_witness :
  exists raw ev,
    createCustomRawData "1700000000000" (VStr "temp-01") (VNum "23.5")
      (VStr "celsius") (VStr "kitchen") = Fulfilled raw /\
    RawMessageSchema_ok raw = true /\
    normalize tagged raw = Fulfilled (Some [ev]) /\
    get (get ev "meta") "sensorId" = VStr "temp-01" /\
    get (get ev "meta") "value" = VNum "23.5" /\
    get (get ev "meta") "unit" = VStr "celsius" /\
    get (get ev "meta") "location" = VStr "kitchen" /\
    get (get ev "meta") "toolRunId" = VStr ("custom-" ++ "1700000000000").
Proof.
  apply (custom_report_is_normalized tagged "1700000000000" "temp-01" "23.5"
           "celsius" "kitchen"); discriminate.
Defined.

Lemma custom_report_nan_is_dropped_witness :
  exists raw,
    createCustomRawData "1700000000000" (VStr "temp-01") (VNum "NaN")
      (VStr "celsius") (VStr "kitchen") = Fulfilled raw /\
    RawMessageSchema_ok raw = true /\
    normalize tagged raw = Fulfilled None /\
    normalize tagged
      (VObj [ ("tool", VStr "sensor_report");
              ("schemaVersion", VStr "1.0");
              ("runId", VStr ("custom-" ++ "1700000000000"));
              ("data", VObj [ ("sensorId", VStr "temp-01");
                              ("value", VNull);
                              ("unit", VStr "celsius");
                              ("location", VStr "kitchen") ]) ])
    = Fulfilled None.
Proof.
  apply (custom_report_nan_is_dropped tagged "1700000000000" "temp-01"
           "celsius" "kitchen"); discriminate.
Defined.

Lemma generated_sample_is_classified_witness :
  RawMessageSchema_ok (generateSampleRawData "1700000000000" 1 3 "512.25")
  = true /\
  exists ev,
    normalize tagged (generateSampleRawData "1700000000000" 1 3 "512.25")
    = Fulfilled (Some [ev]) /\
    get (get ev "meta") "sensorType" = VStr (meant (nth 3 sensorTypes "")) /\
    get (get ev "meta") "location" = VStr (nth 1 locations "").
Proof.
  apply (generated_sample_is_classified tagged "1700000000000" "512.25" 1 3);
    [lia|lia|discriminate].
Defined.

End SensorCliReports.

(* ===================================================================== *)
(** ** core/config.ts and core/kafka.ts: the environment *)
(* ===================================================================== *)

Module Config.

(** [process.env]: the variables that are set, each with its text. *)
Definition Env : Type := gmap string string.

(** [!x] is false, for [x] a variable of the environment: it is set, and
    not to the empty text. *)
Definition given (x : option string) : bool :=
  match x with
  | Some s => negb (String.eqb s "")
  | None => false
  end.

(** [x || fallback]. *)
Definition or_else (x : option string) (fallback : string) : string :=
  match x with
  | Some s => if String.eqb s "" then fallback else s
  | None => fallback
  end.

(** [s.split(sep)] for a separator of one code unit. *)
Fixpoint split (sep : ascii) (s : string) : list string :=
  match s with
  | EmptyString => [EmptyString]
  | String a s' =>
      if Ascii.eqb a sep then EmptyString :: split sep s'
      else match split sep s' with
           | [] => [String a EmptyString]
           | part :: parts => String a part :: parts
           end
  end.

Record KafkaConfig : Type := {
  brokers : list string;
  groupId : string;
  rawTopic : string;
  domainTopic : string;
  dlqTopic : string;
  username : string;
  password : string;
  saslMechanism : string
}.

Record EnvConfig : Type := {
  kafka : KafkaConfig;
  neo4j_uri : string;
  neo4j_user : string;
  neo4j_password : string;
  metrics_port : string;
  minio_endpoint : string;
  minio_accessKeyId : string;
  minio_secretAccessKey : string;
  qdrant_url : string;
  qdrant_apiKey : string;
  batch_flushMs : string
}.

(** [Number(x) || fallback], over [Number] on texts, which gives the
    number as it prints; [Number(undefined)] is [NaN]. *)
Definition number_or (Number : string -> string) (x : option string)
    (fallback : string) : string :=
  let n := match x with Some s => Number s | None => "NaN" end in
  if String.eqb n "0" || String.eqb n "NaN" then fallback else n.

(** [getEnvConfig()]. *)
Definition getEnvConfig (Number : string -> string) (env : Env)
  : settled EnvConfig exn :=
  let kafkaBrokers := env !! "KAFKA_BROKERS_INTERNAL" in
  if negb (given kafkaBrokers) then
    Rejected (Error "KAFKA_BROKERS_INTERNAL environment variable is required")
  else
  let kafkaUsername := env !! "KAFKA_USERNAME" in
  let kafkaPassword := env !! "KAFKA_PASSWORD" in
  if negb (given kafkaUsername) || negb (given kafkaPassword) then
    Rejected (Error "KAFKA_USERNAME and KAFKA_PASSWORD environment variables are required")
  else
  let neo4jUri := env !! "NEO4J_URI" in
  if negb (given neo4jUri) then
    Rejected (Error "NEO4J_URI environment variable is required")
  else
  let neo4jUser := env !! "NEO4J_USER" in
  let neo4jPassword := env !! "NEO4J_PASSWORD" in
  if negb (given neo4jUser) || negb (given neo4jPassword) then
    Rejected (Error "NEO4J_USER and NEO4J_PASSWORD environment variables are required")
  else
  let minioUrl := env !! "MINIO_URL" in
  let minioUser := env !! "MINIO_ROOT_USER" in
  let minioPass := env !! "MINIO_ROOT_PASSWORD" in
  if negb (given minioUrl) || negb (given minioUser) || negb (given minioPass)
  then
    Rejected (Error "MINIO_URL, MINIO_ROOT_USER and MINIO_ROOT_PASSWORD environment variables are required")
  else
  let qdrantUrl := env !! "QDRANT_URL" in
  if negb (given qdrantUrl) then
    Rejected (Error "QDRANT_URL environment variable is required")
  else
  let qdrantKey := env !! "QDRANT_API_KEY" in
  if negb (given qdrantKey) then
    Rejected (Error "QDRANT_API_KEY environment variable is required")
  else
  Fulfilled
    {| kafka :=
         {| brokers := split "," (default "" kafkaBrokers);
            groupId := or_else (env !! "KAFKA_GROUP_ID") "normalizer-group";
            rawTopic := or_else (env !! "RAW_TOPIC") "tasks.raw-output";
            domainTopic := or_else (env !! "DOMAIN_TOPIC") "events.domain";
            dlqTopic := or_else (env !! "DLQ_TOPIC") "events.dlq";
            username := default "" kafkaUsername;
            password := default "" kafkaPassword;
            saslMechanism :=
              or_else (env !! "KAFKA_SASL_MECHANISM") "scram-sha-256" |};
       neo4j_uri := default "" neo4jUri;
       neo4j_user := default "" neo4jUser;
       neo4j_password := default "" neo4jPassword;
       metrics_port := number_or Number (env !! "METRICS_PORT") "9100";
       minio_endpoint := default "" minioUrl;
       minio_accessKeyId := default "" minioUser;
       minio_secretAccessKey := default "" minioPass;
       qdrant_url := default "" qdrantUrl;
       qdrant_apiKey := default "" qdrantKey;
       batch_flushMs := number_or Number (env !! "BATCH_FLUSH_MS") "2000" |}.

(** What [initKafka] makes of the environment before it connects: the
    options of [new Kafka], of [kafka.consumer] and of [kafka.producer]. *)
Record KafkaSetup : Type := {
  clientId : string;
  client_brokers : list string;
  sasl_mechanism : string;
  sasl_username : string;
  sasl_password : string;
  ssl_rejectUnauthorized : bool;
  consumer_groupId : string;
  legacyPartitioner : bool
}.

(** What [initKafka] connects. *)
Record Broker (W : Type) : Type := {
  consumer_connect : KafkaSetup -> W -> settled unit exn * W;
  producer_connect : KafkaSetup -> W -> settled unit exn * W
}.
Arguments consumer_connect {W} _ _ _.
Arguments producer_connect {W} _ _ _.

(** [initKafka()], up to the two connections. *)
Definition kafka_setup (env : Env) : settled KafkaSetup exn :=
  if negb (given (env !! "KAFKA_USERNAME"))
     || negb (given (env !! "KAFKA_PASSWORD")) then
    Rejected (Error "KAFKA_USERNAME and KAFKA_PASSWORD must be set - SASL authentication is required")
  else if negb (given (env !! "KAFKA_BROKERS_INTERNAL")) then
    Rejected (Error "KAFKA_BROKERS_INTERNAL environment variable is required")
  else
    Fulfilled
      {| clientId := "ingestion";
         client_brokers :=
           split "," (default "" (env !! "KAFKA_BROKERS_INTERNAL"));
         sasl_mechanism :=
           or_else (env !! "KAFKA_SASL_MECHANISM") "scram-sha-256";
         sasl_username := default "" (env !! "KAFKA_USERNAME");
         sasl_password := default "" (env !! "KAFKA_PASSWORD");
         ssl_rejectUnauthorized := false;
         consumer_groupId :=
           or_else (env !! "KAFKA_GROUP_ID") "normalizer-group";
         legacyPartitioner :=
           match env !! "KAFKA_USE_LEGACY_PARTITIONER" with
           | Some s => String.eqb s "true"
           | None => false
           end |}.

(** [initKafka()]: the consumer connects, then the producer. *)
Definition initKafka {W : Type} (broker : Broker W) (env : Env) (w : W)
  : settled KafkaSetup exn * W :=
  match kafka_setup env with
  | Rejected err => (Rejected err, w)
  | Fulfilled setup =>
      match consumer_connect broker setup w with
      | (Rejected err, w1) => (Rejected err, w1)
      | (Fulfilled _, w1) =>
          match producer_connect broker setup w1 with
          | (Rejected err, w2) => (Rejected err, w2)
          | (Fulfilled _, w2) => (Fulfilled setup, w2)
          end
      end
  end.

End Config.

Section Environment.
Import Config.

(** The variables [getEnvConfig] asks for. *)
Definition required : list string :=
  [ "KAFKA_BROKERS_INTERNAL"; "KAFKA_USERNAME"; "KAFKA_PASSWORD";
    "NEO4J_URI"; "NEO4J_USER"; "NEO4J_PASSWORD";
    "MINIO_URL"; "MINIO_ROOT_USER"; "MINIO_ROOT_PASSWORD";
    "QDRANT_URL"; "QDRANT_API_KEY" ].

Lemma given_Some x :
  given x = true -> exists s, x = Some s /\ s <> "".
Proof.
  destruct x as [s|]; [|discriminate]. simpl. intros H.
  exists s. split; [reflexivity|].
  intros ->. discriminate.
Qed.

Lemma or_else_not_empty x fallback :
  fallback <> "" -> or_else x fallback <> "".
Proof.
  intros Hf. destruct x as [s|]; simpl; [|exact Hf].
  destruct (String.eqb_spec s ""); assumption.
Qed.

Lemma split_not_nil sep s : split sep s <> [].
Proof.
  destruct s as [|a s]; simpl; [discriminate|].
  destruct (Ascii.eqb a sep); [discriminate|].
  destruct (split sep s); discriminate.
Qed.

(** Joining what [split] gave with the separator gives the text back. *)
Lemma join_split sep s :
  join (String sep EmptyString) (split sep s) = s.
Proof.
  induction s as [|a s IH]; [reflexivity|]. simpl.
  destruct (Ascii.eqb_spec a sep) as [->|Hne].
  - unfold join in *. simpl.
    destruct (split sep s) as [|part parts] eqn:Hs.
    + now apply split_not_nil in Hs.
    + simpl in *. now rewrite IH.
  - unfold join in *.
    destruct (split sep s) as [|part parts] eqn:Hs.
    + now apply split_not_nil in Hs.
    + simpl in *. destruct parts; simpl in *; now rewrite <- IH.
Qed.

Lemma getEnvConfig_cases (Number : string -> string) (env : Env) :
  match getEnvConfig Number env with
  | Fulfilled c =>
      Forall (fun k => given (env !! k) = true) required /\
      env !! "KAFKA_BROKERS_INTERNAL" = Some (join "," (brokers (kafka c))) /\
      env !! "KAFKA_USERNAME" = Some (username (kafka c)) /\
      env !! "KAFKA_PASSWORD" = Some (password (kafka c)) /\
      groupId (kafka c) = or_else (env !! "KAFKA_GROUP_ID") "normalizer-group" /\
      saslMechanism (kafka c)
      = or_else (env !! "KAFKA_SASL_MECHANISM") "scram-sha-256" /\
      rawTopic (kafka c) = or_else (env !! "RAW_TOPIC") "tasks.raw-output" /\
      domainTopic (kafka c) = or_else (env !! "DOMAIN_TOPIC") "events.domain" /\
      dlqTopic (kafka c) = or_else (env !! "DLQ_TOPIC") "events.dlq" /\
      brokers (kafka c)
      = split "," (default "" (env !! "KAFKA_BROKERS_INTERNAL"))
  | Rejected _ =>
      ~ Forall (fun k => given (env !! k) = true) required
  end.
Proof.
  unfold getEnvConfig, required.
  repeat match goal with
         | |- context [given (env !! ?k)] =>
             let H := fresh "H" in
             destruct (given (env !! k)) eqn:H; cbn [negb orb];
             [|intros Hall; repeat (apply Forall_cons in Hall as [? Hall]);
               congruence]
         end.
  cbn [kafka brokers username password groupId saslMechanism rawTopic
       domainTopic dlqTopic].
  split; [repeat (constructor; [assumption|]); constructor|].
  apply given_Some in H as (b & Hb & _).
  apply given_Some in H0 as (u & Hu & _).
  apply given_Some in H1 as (p & Hp & _).
  rewrite Hb, Hu, Hp. simpl. rewrite (join_split "," b).
  now repeat split.
Qed.

(** [getEnvConfig] returns a configuration exactly when each of the
    eleven variables it asks for is set to a text that is not empty. *)
Theorem getEnvConfig_returns_iff_required (Number : string -> string)
    (env : Env) :
  (exists c, getEnvConfig Number env = Fulfilled c)
  <-> Forall (fun k => given (env !! k) = true) required.
Proof.
  pose proof (getEnvConfig_cases Number env) as H.
  destruct (getEnvConfig Number env) as [c|err].
  - split; [intros _; apply H|intros _; now exists c].
  - split; [intros [c Hc]; discriminate|intros Hall; now apply H in Hall].
Qed.

(** In a configuration that [getEnvConfig] returns no topic, group or
    mechanism is empty, an optional variable set to the empty text counting
    as not set; there is at least one broker, and the brokers joined with
    commas are the text of KAFKA_BROKERS_INTERNAL. *)
Theorem getEnvConfig_nothing_empty (Number : string -> string) (env : Env)
    (c : EnvConfig) :
  getEnvConfig Number env = Fulfilled c ->
  rawTopic (kafka c) <> "" /\ domainTopic (kafka c) <> "" /\
  dlqTopic (kafka c) <> "" /\ groupId (kafka c) <> "" /\
  saslMechanism (kafka c) <> "" /\
  brokers (kafka c) <> [] /\
  env !! "KAFKA_BROKERS_INTERNAL" = Some (join "," (brokers (kafka c))).
Proof.
  intros Hc. pose proof (getEnvConfig_cases Number env) as H.
  rewrite Hc in H.
  destruct H as (_ & Hb & _ & _ & -> & -> & -> & -> & -> & Hsplit).
  repeat split; try (apply or_else_not_empty; discriminate).
  - rewrite Hsplit. apply split_not_nil.
  - exact Hb.
Qed.

(** An environment that [getEnvConfig] accepts, [initKafka] accepts as
    well, and connects with the brokers, the group, the mechanism and the
    credentials of the configuration. *)
Theorem initKafka_agrees_with_getEnvConfig (Number : string -> string)
    (env : Env) (c : EnvConfig) :
  getEnvConfig Number env = Fulfilled c ->
  exists setup,
    kafka_setup env = Fulfilled setup /\
    client_brokers setup = brokers (kafka c) /\
    consumer_groupId setup = groupId (kafka c) /\
    sasl_mechanism setup = saslMechanism (kafka c) /\
    sasl_username setup = username (kafka c) /\
    sasl_password setup = password (kafka c) /\
    forall (W : Type) (broker : Broker W) (w : W),
      fst (consumer_connect broker setup w) = Fulfilled tt ->
      fst (producer_connect broker setup
             (snd (consumer_connect broker setup w))) = Fulfilled tt ->
      fst (initKafka broker env w) = Fulfilled setup.
Proof.
  intros Hc. pose proof (getEnvConfig_cases Number env) as H.
  rewrite Hc in H.
  destruct H as (Hall & _ & Hu & Hp & Hg & Hm & _ & _ & _ & Hsplit).
  unfold required in Hall.
  apply Forall_cons in Hall as [Hb Hall].
  apply Forall_cons in Hall as [Hu' Hall].
  apply Forall_cons in Hall as [Hp' _].
  unfold initKafka, kafka_setup. rewrite Hb, Hu', Hp'. simpl.
  eexists. split; [reflexivity|]. simpl.
  rewrite Hu, Hp, Hg, Hm, Hsplit. repeat (split; [reflexivity|]).
  intros W broker w H1 H2.
  destruct (consumer_connect broker _ w) as [r1 w1]. simpl in *. subst r1.
  destruct (producer_connect broker _ w1) as [r2 w2]. simpl in *. subst r2.
  reflexivity.
Qed.

(** An environment with the eleven variables, and RAW_TOPIC set to the
    empty text. *)
Definition stack_env : Env :=
  list_to_map
    [ ("KAFKA_BROKERS_INTERNAL", "kafka-1:9092,kafka-2:9092");
      ("KAFKA_USERNAME", "ingest"); ("KAFKA_PASSWORD", "secret");
      ("NEO4J_URI", "bolt://neo4j:7687"); ("NEO4J_USER", "neo4j");
      ("NEO4J_PASSWORD", "secret");
      ("MINIO_URL", "http://minio:9000"); ("MINIO_ROOT_USER", "minio");
      ("MINIO_ROOT_PASSWORD", "secret");
      ("QDRANT_URL", "http://qdrant:6333"); ("QDRANT_API_KEY", "key");
      ("RAW_TOPIC", ""); ("METRICS_PORT", "0") ].

(** What [getEnvConfig] makes of it. *)
Definition stack_config : EnvConfig :=
  {| kafka :=
       {| brokers := ["kafka-1:9092"; "kafka-2:9092"];
          groupId := "normalizer-group";
          rawTopic := "tasks.raw-output";
          domainTopic := "events.domain";
          dlqTopic := "events.dlq";
          username := "ingest";
          password := "secret";
          saslMechanism := "scram-sha-256" |};
     neo4j_uri := "bolt://neo4j:7687";
     neo4j_user := "neo4j";
     neo4j_password := "secret";
     metrics_port := "9100";
     minio_endpoint := "http://minio:9000";
     minio_accessKeyId := "minio";
     minio_secretAccessKey := "secret";
     qdrant_url := "http://qdrant:6333";
     qdrant_apiKey := "key";
     batch_flushMs := "2000" |}.

Example getEnvConfig_stack :
  getEnvConfig (fun s => s) stack_env = Fulfilled stack_config.
Proof. vm_compute. reflexivity. Qed.

Example getEnvConfig_without_password :
  getEnvConfig (fun s => s) (delete "KAFKA_PASSWORD" stack_env)
  = Rejected (Error "KAFKA_USERNAME and KAFKA_PASSWORD environment variables are required").
Proof. vm_compute. reflexivity. Qed.

Lemma getEnvConfig_nothing_empty_witness :
  rawTopic (kafka stack_config) <> "" /\
  domainTopic (kafka stack_config) <> "" /\
  dlqTopic (kafka stack_config) <> "" /\
  groupId (kafka stack_config) <> "" /\
  saslMechanism (kafka stack_config) <> "" /\
  brokers (kafka stack_config) <> [] /\
  stack_env !! "KAFKA_BROKERS_INTERNAL"
  = Some (join "," (brokers (kafka stack_config))).
Proof.
  apply (getEnvConfig_nothing_empty (fun s => s) stack_env stack_config).
  vm_compute. reflexivity.
Defined.

Lemma initKafka_agrees_with_getEnvConfig_witness :
  exists setup,
    kafka_setup stack_env = Fulfilled setup /\
    client_brokers setup = brokers (kafka stack_config) /\
    consumer_groupId setup = groupId (kafka stack_config) /\
    sasl_mechanism setup = saslMechanism (kafka stack_config) /\
    sasl_username setup = username (kafka stack_config) /\
    sasl_password setup = password (kafka stack_config) /\
    forall (W : Type) (broker : Broker W) (w : W),
      fst (consumer_connect broker setup w) = Fulfilled tt ->
      fst (producer_connect broker setup
             (snd (consumer_connect broker setup w))) = Fulfilled tt ->
      fst (initKafka broker stack_env w) = Fulfilled setup.
Proof.
  apply (initKafka_agrees_with_getEnvConfig (fun s => s) stack_env
           stack_config).
  vm_compute. reflexivity.
Defined.

End Environment.

(* ===================================================================== *)
(** ** core/minio.ts: buckets and uploads *)
(* ===================================================================== *)

Module Minio.

(** The commands the module sends with [minioClient.send]. *)
Inductive command : Type :=
| HeadBucketCommand (Bucket : string)
| CreateBucketCommand (Bucket : string)
| PutObjectCommand (Bucket Key Body : string).

(** What the module calls and does not define, over the state [W] of the
    object store and the file system. *)
Record Client (W : Type) : Type := {
  send : command -> W -> settled unit exn * W;
  readFile : string -> W -> settled string exn * W;
  basename : string -> string
}.
Arguments send {W} _ _ _.
Arguments readFile {W} _ _ _.
Arguments basename {W} _ _.

(** The module-level set [ensuredBuckets], and the world.  One task at a
    time: what other uploads do while this one is suspended is not
    modelled. *)
Record State (W : Type) : Type := {
  ensuredBuckets : gset string;
  store : W
}.
Arguments ensuredBuckets {W} _.
Arguments store {W} _.

Definition ensureBucketExists {W : Type} (client : Client W) (bucket : string)
    (st : State W) : settled unit exn * State W :=
  if decide (bucket ∈ ensuredBuckets st) then (Fulfilled tt, st) else
  match send client (HeadBucketCommand bucket) (store st) with
  | (Fulfilled _, w1) =>
      (Fulfilled tt,
       {| ensuredBuckets := {[bucket]} ∪ ensuredBuckets st; store := w1 |})
  | (Rejected _, w1) =>
      match send client (CreateBucketCommand bucket) w1 with
      | (Fulfilled _, w2) =>
          (Fulfilled tt,
           {| ensuredBuckets := {[bucket]} ∪ ensuredBuckets st;
              store := w2 |})
      | (Rejected err, w2) =>
          (Rejected err,
           {| ensuredBuckets := ensuredBuckets st; store := w2 |})
      end
  end.

Definition uploadObject {W : Type} (client : Client W)
    (bucket key body : string) (st : State W) : settled unit exn * State W :=
  match ensureBucketExists client bucket st with
  | (Rejected err, st1) => (Rejected err, st1)
  | (Fulfilled _, st1) =>
      let '(r, w) :=
        send client (PutObjectCommand bucket key body) (store st1) in
      (r, {| ensuredBuckets := ensuredBuckets st1; store := w |})
  end.

Definition uploadFile {W : Type} (client : Client W)
    (bucket filePath : string) (st : State W) : settled string exn * State W :=
  match readFile client filePath (store st) with
  | (Rejected err, w) =>
      (Rejected err, {| ensuredBuckets := ensuredBuckets st; store := w |})
  | (Fulfilled data, w) =>
      let key := basename client filePath in
      match uploadObject client bucket key data
              {| ensuredBuckets := ensuredBuckets st; store := w |} with
      | (Rejected err, st1) => (Rejected err, st1)
      | (Fulfilled _, st1) => (Fulfilled key, st1)
      end
  end.

End Minio.

Section Uploads.
Import Minio.

Context {W : Type} (client : Client W).

(** [sent w] is the record of the commands the store has received: [send]
    adds its command, reading a file adds nothing. *)
Context (sent : W -> list command).

Definition records_commands : Prop :=
  (forall c w, sent (snd (send client c w)) = sent w ++ [c]) /\
  (forall path w, sent (snd (readFile client path w)) = sent w).

Lemma ensureBucketExists_cases bucket (st : State W) :
  records_commands ->
  (bucket ∈ ensuredBuckets st ->
   ensureBucketExists client bucket st = (Fulfilled tt, st)) /\
  (bucket ∉ ensuredBuckets st ->
   exists asked,
     sent (store (snd (ensureBucketExists client bucket st)))
     = sent (store st) ++ asked /\
     (asked = [HeadBucketCommand bucket]
      \/ asked = [HeadBucketCommand bucket; CreateBucketCommand bucket]) /\
     match fst (ensureBucketExists client bucket st) with
     | Fulfilled _ =>
         ensuredBuckets (snd (ensureBucketExists client bucket st))
         = {[bucket]} ∪ ensuredBuckets st
     | Rejected _ =>
         asked = [HeadBucketCommand bucket; CreateBucketCommand bucket] /\
         ensuredBuckets (snd (ensureBucketExists client bucket st))
         = ensuredBuckets st
     end).
Proof.
  intros (Hsend & _). unfold ensureBucketExists.
  destruct (decide (bucket ∈ ensuredBuckets st)) as [Hin|Hout].
  - split; [reflexivity|intros H; contradiction].
  - split; [intros H; contradiction|intros _].
    pose proof (Hsend (HeadBucketCommand bucket) (store st)) as H1.
    destruct (send client (HeadBucketCommand bucket) (store st))
      as [[[]|err] w1]; simpl in *.
    + exists [HeadBucketCommand bucket]. now repeat split; auto.
    + pose proof (Hsend (CreateBucketCommand bucket) w1) as H2.
      destruct (send client (CreateBucketCommand bucket) w1)
        as [[[]|err2] w2]; simpl in *;
        exists [HeadBucketCommand bucket; CreateBucketCommand bucket];
        rewrite H2, H1, <- app_assoc; simpl; repeat split; auto.
Qed.

(** An upload that fulfilled left the bucket in the cache, and the last
    command it sent was its put. *)
Lemma uploadObject_fulfilled bucket key body (st : State W) :
  records_commands ->
  fst (uploadObject client bucket key body st) = Fulfilled tt ->
  bucket ∈ ensuredBuckets (snd (uploadObject client bucket key body st)) /\
  exists before,
    sent (store (snd (uploadObject client bucket key body st)))
    = before ++ [PutObjectCommand bucket key body].
Proof.
  intros Hrec.
  destruct (ensureBucketExists_cases bucket st Hrec) as [Hhit Hmiss].
  destruct Hrec as (Hsend & _). unfold uploadObject.
  destruct (decide (bucket ∈ ensuredBuckets st)) as [Hin|Hout].
  - rewrite (Hhit Hin).
    pose proof (Hsend (PutObjectCommand bucket key body) (store st)) as Hput.
    destruct (send client (PutObjectCommand bucket key body) (store st))
      as [r w]. simpl in *. intros _. split; [exact Hin|].
    eexists. exact Hput.
  - destruct (Hmiss Hout) as (asked & Hsent & Hasked & Hres).
    destruct (ensureBucketExists client bucket st) as [[[]|err] st1];
      simpl in *; [|discriminate].
    pose proof (Hsend (PutObjectCommand bucket key body) (store st1))
      as Hput.
    destruct (send client (PutObjectCommand bucket key body) (store st1))
      as [r w]. simpl in *. intros _. rewrite Hres.
    split; [set_solver|]. eexists. exact Hput.
Qed.

(** An upload puts the object only once the bucket is known to exist.
    For a bucket in the cache it sends the put and nothing else.  For
    another it asks for the bucket first; when that succeeds it sends the
    put next, and does not create the bucket; when that fails it creates
    the bucket, and sends the put only when the creation succeeded: when
    it failed, the upload rejects with that error and nothing more is
    sent.  The outcome of an upload that reached the put is the outcome of
    the put.  The bucket is in the cache once it was found or created,
    and the cache never loses a bucket. *)
Theorem uploadObject_ensures_bucket bucket key body (st : State W) :
  records_commands ->
  (bucket ∈ ensuredBuckets st ->
   sent (store (snd (uploadObject client bucket key body st)))
   = sent (store st) ++ [PutObjectCommand bucket key body] /\
   fst (uploadObject client bucket key body st)
   = fst (send client (PutObjectCommand bucket key body) (store st))) /\
  (bucket ∉ ensuredBuckets st ->
   match fst (send client (HeadBucketCommand bucket) (store st)) with
   | Fulfilled _ =>
       sent (store (snd (uploadObject client bucket key body st)))
       = sent (store st)
         ++ [HeadBucketCommand bucket; PutObjectCommand bucket key body] /\
       fst (uploadObject client bucket key body st)
       = fst (send client (PutObjectCommand bucket key body)
                (snd (send client (HeadBucketCommand bucket) (store st)))) /\
       ensuredBuckets (snd (uploadObject client bucket key body st))
       = {[bucket]} ∪ ensuredBuckets st
   | Rejected _ =>
       match fst (send client (CreateBucketCommand bucket)
                    (snd (send client (HeadBucketCommand bucket) (store st))))
       with
       | Fulfilled _ =>
           sent (store (snd (uploadObject client bucket key body st)))
           = sent (store st)
             ++ [HeadBucketCommand bucket; CreateBucketCommand bucket;
                 PutObjectCommand bucket key body] /\
           fst (uploadObject client bucket key body st)
           = fst (send client (PutObjectCommand bucket key body)
                    (snd (send client (CreateBucketCommand bucket)
                            (snd (send client (HeadBucketCommand bucket)
                                    (store st)))))) /\
           ensuredBuckets (snd (uploadObject client bucket key body st))
           = {[bucket]} ∪ ensuredBuckets st
       | Rejected err =>
           sent (store (snd (uploadObject client bucket key body st)))
           = sent (store st)
             ++ [HeadBucketCommand bucket; CreateBucketCommand bucket] /\
           fst (uploadObject client bucket key body st) = Rejected err /\
           ensuredBuckets (snd (uploadObject client bucket key body st))
           = ensuredBuckets st
       end
   end) /\
  ensuredBuckets st
  ⊆ ensuredBuckets (snd (uploadObject client bucket key body st)).
Proof.
  intros Hrec. destruct Hrec as (Hsend & _).
  unfold uploadObject, ensureBucketExists.
  destruct (decide (bucket ∈ ensuredBuckets st)) as [Hin|Hout].
  - split; [|split; [intros H; contradiction|]].
    + intros _.
      pose proof (Hsend (PutObjectCommand bucket key body) (store st)) as Hput.
      destruct (send client (PutObjectCommand bucket key body) (store st))
        as [r w]. simpl in *. now split.
    + destruct (send client (PutObjectCommand bucket key body) (store st))
        as [r w]. reflexivity.
  - split; [intros H; contradiction|].
    pose proof (Hsend (HeadBucketCommand bucket) (store st)) as H1.
    destruct (send client (HeadBucketCommand bucket) (store st))
      as [[[]|err] w1]; simpl in *.
    + pose proof (Hsend (PutObjectCommand bucket key body) w1) as Hput.
      destruct (send client (PutObjectCommand bucket key body) w1)
        as [r w]. simpl in *.
      split; [|set_solver]. intros _.
      split; [now rewrite Hput, H1, <- app_assoc|]. now split.
    + pose proof (Hsend (CreateBucketCommand bucket) w1) as H2.
      destruct (send client (CreateBucketCommand bucket) w1)
        as [[[]|err2] w2]; simpl in *.
      * pose proof (Hsend (PutObjectCommand bucket key body) w2) as Hput.
        destruct (send client (PutObjectCommand bucket key body) w2)
          as [r w]. simpl in *.
        split; [|set_solver]. intros _.
        split; [now rewrite Hput, H2, H1, <- !app_assoc|]. now split.
      * split; [|reflexivity]. intros _.
        split; [now rewrite H2, H1, <- app_assoc|]. now split.
Qed.

(** Once an upload to a bucket has fulfilled, the next upload to that
    bucket sends the put and nothing else: the bucket is asked for once. *)
Theorem uploadObject_asks_once bucket key body key' body' (st : State W) :
  records_commands ->
  fst (uploadObject client bucket key body st) = Fulfilled tt ->
  sent (store (snd (uploadObject client bucket key' body'
                      (snd (uploadObject client bucket key body st)))))
  = sent (store (snd (uploadObject client bucket key body st)))
    ++ [PutObjectCommand bucket key' body'].
Proof.
  intros Hrec Hful.
  destruct (uploadObject_fulfilled bucket key body st Hrec Hful) as [Hin _].
  destruct (ensureBucketExists_cases bucket
              (snd (uploadObject client bucket key body st)) Hrec)
    as [Hhit _].
  destruct Hrec as (Hsend & _).
  unfold uploadObject at 1. rewrite (Hhit Hin).
  pose proof (Hsend (PutObjectCommand bucket key' body')
                (store (snd (uploadObject client bucket key body st))))
    as Hput.
  destruct (send client (PutObjectCommand bucket key' body')
              (store (snd (uploadObject client bucket key body st))))
    as [r w]. exact Hput.
Qed.

(** A file that cannot be read is not uploaded: nothing is sent and no
    bucket is asked for.  A file that was uploaded is stored under its base
    name, with the bytes that were read, and that name is returned. *)
Theorem uploadFile_key_is_basename bucket filePath (st : State W) :
  records_commands ->
  match fst (readFile client filePath (store st)) with
  | Rejected err =>
      fst (uploadFile client bucket filePath st) = Rejected err /\
      sent (store (snd (uploadFile client bucket filePath st)))
      = sent (store st)
  | Fulfilled data =>
      match fst (uploadFile client bucket filePath st) with
      | Rejected _ => True
      | Fulfilled key =>
          key = basename client filePath /\
          exists before,
            sent (store (snd (uploadFile client bucket filePath st)))
            = before
              ++ [PutObjectCommand bucket (basename client filePath) data]
      end
  end.
Proof.
  intros Hrec. pose proof Hrec as (Hsend & Hread).
  specialize (Hread filePath (store st)).
  unfold uploadFile.
  destruct (readFile client filePath (store st)) as [[data|err] w];
    simpl in *; [|now split].
  pose proof (uploadObject_fulfilled bucket (basename client filePath) data
                {| ensuredBuckets := ensuredBuckets st; store := w |} Hrec)
    as Hlast.
  destruct (uploadObject client bucket (basename client filePath) data
              {| ensuredBuckets := ensuredBuckets st; store := w |})
    as [[[]|err] st1]; simpl in *; [|exact I].
  split; [reflexivity|].
  destruct (Hlast eq_refl) as (_ & before & Hbefore).
  now exists before.
Qed.

End Uploads.

Section UploadRuns.
Import Minio.

Definition created (bucket : string) (w : list command) : bool :=
  existsb (fun c => match c with
                    | CreateBucketCommand b => String.eqb b bucket
                    | _ => false
                    end) w.

(** An object store that keeps the record of what it received and knows
    the buckets that were created; one file can be read. *)
Definition fresh_store : Client (list command) :=
  {| send := fun c w =>
       (match c with
        | HeadBucketCommand b =>
            if created b w then Fulfilled tt else Rejected (Error "NotFound")
        | _ => Fulfilled tt
        end, w ++ [c]);
     readFile := fun path w =>
       (if String.eqb path "/data/report.txt" then Fulfilled "21.5"
        else Rejected (Error "ENOENT"), w);
     basename := fun path => List.last (Config.split "/" path) "" |}.

Lemma fresh_store_records : records_commands fresh_store (fun w => w).
Proof. split; reflexivity. Qed.

Definition nothing_ensured : State (list command) :=
  {| ensuredBuckets := ∅; store := [] |}.

Lemma uploadObject_ensures_bucket_witness :
  ("reports" ∈ ensuredBuckets nothing_ensured ->
   (store (snd (uploadObject fresh_store "reports" "a.txt" "1" nothing_ensured)))
   = (store nothing_ensured) ++ [PutObjectCommand "reports" "a.txt" "1"] /\
   fst (uploadObject fresh_store "reports" "a.txt" "1" nothing_ensured)
   = fst (send fresh_store (PutObjectCommand "reports" "a.txt" "1") (store nothing_ensured))) /\
  ("reports" ∉ ensuredBuckets nothing_ensured ->
   match fst (send fresh_store (HeadBucketCommand "reports") (store nothing_ensured)) with
   | Fulfilled _ =>
       (store (snd (uploadObject fresh_store "reports" "a.txt" "1" nothing_ensured)))
       = (store nothing_ensured)
         ++ [HeadBucketCommand "reports"; PutObjectCommand "reports" "a.txt" "1"] /\
       fst (uploadObject fresh_store "reports" "a.txt" "1" nothing_ensured)
       = fst (send fresh_store (PutObjectCommand "reports" "a.txt" "1")
                (snd (send fresh_store (HeadBucketCommand "reports") (store nothing_ensured)))) /\
       ensuredBuckets (snd (uploadObject fresh_store "reports" "a.txt" "1" nothing_ensured))
       = {["reports"]} ∪ ensuredBuckets nothing_ensured
   | Rejected _ =>
       match fst (send fresh_store (CreateBucketCommand "reports")
                    (snd (send fresh_store (HeadBucketCommand "reports") (store nothing_ensured))))
       with
       | Fulfilled _ =>
           (store (snd (uploadObject fresh_store "reports" "a.txt" "1" nothing_ensured)))
           = (store nothing_ensured)
             ++ [HeadBucketCommand "reports"; CreateBucketCommand "reports";
                 PutObjectCommand "reports" "a.txt" "1"] /\
           fst (uploadObject fresh_store "reports" "a.txt" "1" nothing_ensured)
           = fst (send fresh_store (PutObjectCommand "reports" "a.txt" "1")
                    (snd (send fresh_store (CreateBucketCommand "reports")
                            (snd (send fresh_store (HeadBucketCommand "reports")
                                    (store nothing_ensured)))))) /\
           ensuredBuckets (snd (uploadObject fresh_store "reports" "a.txt" "1" nothing_ensured))
           = {["reports"]} ∪ ensuredBuckets nothing_ensured
       | Rejected err =>
           (store (snd (uploadObject fresh_store "reports" "a.txt" "1" nothing_ensured)))
           = (store nothing_ensured)
             ++ [HeadBucketCommand "reports"; CreateBucketCommand "reports"] /\
           fst (uploadObject fresh_store "reports" "a.txt" "1" nothing_ensured) = Rejected err /\
           ensuredBuckets (snd (uploadObject fresh_store "reports" "a.txt" "1" nothing_ensured))
           = ensuredBuckets nothing_ensured
       end
   end) /\
  ensuredBuckets nothing_ensured
  ⊆ ensuredBuckets (snd (uploadObject fresh_store "reports" "a.txt" "1" nothing_ensured)).
Proof.
  apply (uploadObject_ensures_bucket fresh_store (fun w => w) "reports"
           "a.txt" "1" nothing_ensured).
  apply fresh_store_records.
Defined.

Lemma uploadObject_asks_once_witness :
  store (snd (uploadObject fresh_store "reports" "b.txt" "2"
                (snd (uploadObject fresh_store "reports" "a.txt" "1"
                        nothing_ensured))))
  = store (snd (uploadObject fresh_store "reports" "a.txt" "1"
                  nothing_ensured))
    ++ [PutObjectCommand "reports" "b.txt" "2"].
Proof.
  apply (uploadObject_asks_once fresh_store (fun w => w) "reports"
           "a.txt" "1" "b.txt" "2" nothing_ensured).
  - apply fresh_store_records.
  - vm_compute. reflexivity.
Defined.

(** Two uploads to a bucket that does not exist yet. *)
Example two_uploads_run :
  store (snd (uploadObject fresh_store "reports" "b.txt" "2"
                (snd (uploadObject fresh_store "reports" "a.txt" "1"
                        nothing_ensured))))
  = [ HeadBucketCommand "reports"; CreateBucketCommand "reports";
      PutObjectCommand "reports" "a.txt" "1";
      PutObjectCommand "reports" "b.txt" "2" ].
Proof. vm_compute. reflexivity. Qed.

Lemma uploadFile_key_is_basename_witness :
  "report.txt" = basename fresh_store "/data/report.txt" /\
  exists before,
    store (snd (uploadFile fresh_store "reports" "/data/report.txt"
                  nothing_ensured))
    = before ++ [PutObjectCommand "reports"
                   (basename fresh_store "/data/report.txt") "21.5"].
Proof.
  apply (uploadFile_key_is_basename fresh_store (fun w => w) "reports"
           "/data/report.txt" nothing_ensured).
  apply fresh_store_records.
Defined.

(** A file that is not there. *)
Example uploadFile_missing :
  uploadFile fresh_store "reports" "/data/none.txt" nothing_ensured
  = (Rejected (Error "ENOENT"), nothing_ensured).
Proof. vm_compute. reflexivity. Qed.

End UploadRuns.

(* ===================================================================== *)
(** ** The CLIs: loadDotEnv *)
(* ===================================================================== *)

Module DotEnv.
Import Config.

(** White space and line terminators among the code units below 256:
    tab, line feed, vertical tab, form feed, carriage return, space and
    the no-break space. *)
Definition is_space (a : ascii) : bool :=
  let n := nat_of_ascii a in
  (((9 <=? n) && (n <=? 13)) || (n =? 32) || (n =? 160))%nat.

Fixpoint trimStart (s : string) : string :=
  match s with
  | EmptyString => EmptyString
  | String a s' => if is_space a then trimStart s' else s
  end.

Fixpoint trimEnd (s : string) : string :=
  match s with
  | EmptyString => EmptyString
  | String a s' =>
      match trimEnd s' with
      | EmptyString => if is_space a then EmptyString else String a EmptyString
      | rest => String a rest
      end
  end.

(** [s.trim()]. *)
Definition trim (s : string) : string := trimStart (trimEnd s).

(** [text.split(/\r?\n/)]. *)
Fixpoint split_lines (s : string) : list string :=
  match s with
  | EmptyString => [EmptyString]
  | String a s' =>
      if Ascii.eqb a "010" then EmptyString :: split_lines s'
      else
        match s' with
        | String b s'' =>
            if Ascii.eqb a "013" && Ascii.eqb b "010"
            then EmptyString :: split_lines s''
            else match split_lines s' with
                 | [] => [String a EmptyString]
                 | line :: lines => String a line :: lines
                 end
        | EmptyString => [String a EmptyString]
        end
  end.

Definition is_quote (a : ascii) : bool :=
  Ascii.eqb a "'" || Ascii.eqb a "034".

(** Without its last code unit when that is a quote. *)
Fixpoint drop_closing_quote (s : string) : string :=
  match s with
  | EmptyString => EmptyString
  | String a EmptyString => if is_quote a then EmptyString else s
  | String a s' => String a (drop_closing_quote s')
  end.

(** [s.replace(/^['"]|['"]$/g, "")]: a quote at the start is removed, and
    a quote at the end of what remains. *)
Definition strip_quotes (s : string) : string :=
  match s with
  | EmptyString => EmptyString
  | String a s' =>
      if is_quote a then drop_closing_quote s' else drop_closing_quote s
  end.

(** The value the loop reads from [rest]. *)
Definition value_of (rest : list string) : string :=
  strip_quotes (trim (join "=" rest)).

(** [process.env[key]] is truthy: the variable is set to a text that is
    not empty, or it is not set and [key] is a name that [Object.prototype]
    answers to, which [process.env] inherits. *)
Definition answers (env : Env) (key : string) : bool :=
  match env !! key with
  | Some s => negb (String.eqb s "")
  | None => inherited key
  end.

(** One round of the loop over the lines. *)
Definition load_line (env : Env) (line : string) : Env :=
  if String.eqb line "" || String.prefix "#" (trim line) then env else
  match split "=" line with
  | [] => env
  | key :: rest =>
      if String.eqb key "" then env
      else if answers env key then env
      else <[key := value_of rest]> env
  end.

(** [loadDotEnv()], given the text of the file, if there is one. *)
Definition loadDotEnv (file : option string) (env : Env) : Env :=
  match file with
  | None => env
  | Some content => fold_left load_line (split_lines content) env
  end.

End DotEnv.

Section DotEnvFile.
Import Config DotEnv.

Lemma load_line_keeps env line k :
  given (env !! k) = true -> load_line env line !! k = env !! k.
Proof.
  intros Hk. unfold load_line.
  destruct (String.eqb line "" || String.prefix "#" (trim line));
    [reflexivity|].
  destruct (split "=" line) as [|key rest]; [reflexivity|].
  destruct (String.eqb key ""); [reflexivity|].
  destruct (answers env key) eqn:Hkey; [reflexivity|].
  apply lookup_insert_ne. intros ->. unfold answers in Hkey.
  destruct (env !! k); simpl in Hk; congruence.
Qed.

Lemma load_line_defined env line k :
  is_Some (env !! k) -> is_Some (load_line env line !! k).
Proof.
  intros Hk. unfold load_line.
  destruct (String.eqb line "" || String.prefix "#" (trim line)); [exact Hk|].
  destruct (split "=" line) as [|key rest]; [exact Hk|].
  destruct (String.eqb key ""); [exact Hk|].
  destruct (answers env key); [exact Hk|].
  destruct (decide (key = k)) as [->|Hne].
  - eexists. apply lookup_insert_eq.
  - destruct Hk as [v Hv]. exists v. rewrite <- Hv.
    now apply lookup_insert_ne.
Qed.

(** A variable that is set to a text that is not empty keeps it, whatever
    the file says; and no variable is unset by loading the file. *)
Theorem loadDotEnv_keeps_set_variables (file : option string) (env : Env)
    (k : string) :
  (given (env !! k) = true -> loadDotEnv file env !! k = env !! k) /\
  (is_Some (env !! k) -> is_Some (loadDotEnv file env !! k)).
Proof.
  unfold loadDotEnv. destruct file as [content|]; [|now split].
  generalize (split_lines content) as lines. intros lines. revert env.
  induction lines as [|line lines IH]; intros env; simpl; [now split|].
  destruct (IH (load_line env line)) as [IH1 IH2]. split.
  - intros Hk. rewrite IH1; [now apply load_line_keeps|].
    now rewrite load_line_keeps.
  - intros Hk. now apply IH2, load_line_defined.
Qed.

(** The code unit occurs in the text. *)
Fixpoint mentions (a : ascii) (s : string) : bool :=
  match s with
  | EmptyString => false
  | String b s' => Ascii.eqb b a || mentions a s'
  end.

Lemma split_first (key rest : string) :
  mentions "=" key = false ->
  split "=" (key ++ "=" ++ rest) = key :: split "=" rest.
Proof.
  induction key as [|a key IH]; intros Hno.
  - reflexivity.
  - change (String a key ++ "=" ++ rest)%string
      with (String a (key ++ "=" ++ rest)).
    simpl in Hno. apply orb_false_iff in Hno as [Ha Hkey].
    cbn [split]. rewrite Ha. now rewrite (IH Hkey).
Qed.

(** A line [key=text], for a key without [=] that is not yet set and is
    not a name that [Object.prototype] answers to: the variable gets all
    that follows the first [=], later [=] signs included, trimmed and
    without the quotes around it. *)
Theorem load_line_reads_value (env : Env) (key rest : string) :
  key <> "" -> mentions "=" key = false ->
  String.prefix "#" (trim (key ++ "=" ++ rest)) = false ->
  given (env !! key) = false ->
  inherited key = false ->
  load_line env (key ++ "=" ++ rest)
  = <[key := strip_quotes (trim rest)]> env.
Proof.
  intros Hkey Hno Hcomment Hgiven Hown.
  assert (Hunset : answers env key = false).
  { unfold answers. destruct (env !! key); [exact Hgiven|exact Hown]. }
  unfold load_line.
  rewrite Hcomment, (split_first key rest Hno), Hunset.
  destruct key as [|a key]; [congruence|].
  change (String a key ++ "=" ++ rest)%string
    with (String a (key ++ "=" ++ rest)).
  simpl. unfold value_of. now rewrite (join_split "=" rest).
Qed.

End DotEnvFile.

Section DotEnvRuns.
Import Config DotEnv.

Lemma load_line_reads_value_witness :
  load_line stack_env ("DATABASE_URL" ++ "=" ++ " 'bolt://db?user=a' ")%string
  = <["DATABASE_URL" := strip_quotes (trim " 'bolt://db?user=a' ")]> stack_env.
Proof.
  apply (load_line_reads_value stack_env "DATABASE_URL"
           " 'bolt://db?user=a' ").
  - discriminate.
  - reflexivity.
  - reflexivity.
  - vm_compute. reflexivity.
  - reflexivity.
Defined.

(** A line for a name that [process.env] inherits is passed over. *)
Example load_line_inherited :
  load_line stack_env "toString=x" = stack_env.
Proof. reflexivity. Qed.

(** A file with a comment, a variable that is already set, one that is set
    to the empty text, and a quoted value that holds an [=]. *)
Definition dot_env : string :=
  String.concat (String "010" EmptyString)
    [ "# local settings";
      "KAFKA_USERNAME=other";
      ("RAW_TOPIC=tool.raw" ++ String "013" EmptyString)%string;
      "DATABASE_URL= 'bolt://db?user=a' ";
      "" ].

Example loadDotEnv_run :
  let env := loadDotEnv (Some dot_env) stack_env in
  env !! "KAFKA_USERNAME" = Some "ingest" /\
  env !! "RAW_TOPIC" = Some "tool.raw" /\
  env !! "DATABASE_URL" = Some "bolt://db?user=a" /\
  loadDotEnv None stack_env = stack_env.
Proof. vm_compute. repeat split. Qed.

End DotEnvRuns.

(* ===================================================================== *)
(** ** The vector CLI: simpleHash *)
(* ===================================================================== *)

Module VectorCli.

Local Open Scope Z_scope.

(** [ToInt32]: the signed 32-bit integer congruent to [x]. *)
Definition ToInt32 (x : Z) : Z := (x + 2 ^ 31) mod 2 ^ 32 - 2 ^ 31.

(** [str.charCodeAt(i)], for each [i]. *)
Definition charCodes (str : string) : list Z :=
  List.map (fun a => Z.of_nat (nat_of_ascii a)) (list_ascii_of_string str).

(** One round of the loop: [hash = ((hash << 5) - hash) + char] and then
    [hash = hash & hash].  The shift and the [&] work on 32-bit integers;
    the subtraction and the addition between them are exact. *)
Definition hash_step (hash char : Z) : Z :=
  let hash := ToInt32 (Z.shiftl (ToInt32 hash) 5) - hash + char in
  Z.land (ToInt32 hash) (ToInt32 hash).

(** The value of [hash] when the loop ends. *)
Definition hash_loop (str : string) : Z :=
  fold_left hash_step (charCodes str) 0.

(** [simpleHash(str)], as the exact quotient; the number JavaScript
    returns is the double nearest to it. *)
Definition simpleHash (str : string) : QArith_base.Q :=
  QArith_base.Qmake (Z.abs (hash_loop str)) 1000000000.

End VectorCli.

Section SimpleHash.
Import VectorCli.
Local Open Scope Z_scope.

(** The polynomial [c0 * 31^(n-1) + ... + c(n-1)], from [acc]. *)
Definition polynomial_31 (codes : list Z) (acc : Z) : Z :=
  fold_left (fun h c => 31 * h + c) codes acc.

Lemma ToInt32_range x : - 2 ^ 31 <= ToInt32 x < 2 ^ 31.
Proof.
  unfold ToInt32.
  pose proof (Z.mod_pos_bound (x + 2 ^ 31) (2 ^ 32) ltac:(lia)). lia.
Qed.

Lemma ToInt32_wraps x : exists k, ToInt32 x = x + k * 2 ^ 32.
Proof.
  exists (- ((x + 2 ^ 31) / 2 ^ 32)). unfold ToInt32.
  pose proof (Z.div_mod (x + 2 ^ 31) (2 ^ 32) ltac:(lia)). lia.
Qed.

Lemma ToInt32_plus x k : ToInt32 (x + k * 2 ^ 32) = ToInt32 x.
Proof.
  unfold ToInt32. f_equal.
  replace (x + k * 2 ^ 32 + 2 ^ 31) with (x + 2 ^ 31 + k * 2 ^ 32) by lia.
  apply Z_mod_plus_full.
Qed.

Lemma hash_step_polynomial h c :
  hash_step (ToInt32 h) c = ToInt32 (31 * h + c).
Proof.
  unfold hash_step. rewrite Z.land_diag.
  rewrite Z.shiftl_mul_pow2 by lia.
  destruct (ToInt32_wraps h) as [k1 H1].
  destruct (ToInt32_wraps (ToInt32 h)) as [k2 H2].
  destruct (ToInt32_wraps (ToInt32 (ToInt32 h) * 2 ^ 5)) as [k3 H3].
  rewrite H3, H2, H1.
  rewrite <- (ToInt32_plus (31 * h + c) (31 * k1 + 32 * k2 + k3)).
  f_equal. lia.
Qed.

Lemma hash_fold_polynomial codes : forall h,
  fold_left hash_step codes (ToInt32 h) = ToInt32 (polynomial_31 codes h).
Proof.
  induction codes as [|c codes IH]; intros h; simpl; [reflexivity|].
  rewrite hash_step_polynomial. apply IH.
Qed.

(** [simpleHash] is the hash code of Java strings, scaled: the loop
    computes the polynomial of the code units with base 31, reduced to a
    signed 32-bit integer, and the result is its absolute value over 10^9,
    a number between 0 and 2.147483648. *)
Theorem simpleHash_is_polynomial (str : string) :
  hash_loop str = ToInt32 (polynomial_31 (charCodes str) 0) /\
  QArith_base.Qeq (simpleHash str)
    (QArith_base.Qmake
       (Z.abs (ToInt32 (polynomial_31 (charCodes str) 0))) 1000000000) /\
  QArith_base.Qle (QArith_base.inject_Z 0) (simpleHash str) /\
  QArith_base.Qle (simpleHash str) (QArith_base.Qmake 2147483648 1000000000).
Proof.
  assert (H : hash_loop str = ToInt32 (polynomial_31 (charCodes str) 0)).
  { unfold hash_loop. change 0 with (ToInt32 0) at 1.
    apply hash_fold_polynomial. }
  split; [exact H|]. unfold simpleHash. rewrite H.
  pose proof (ToInt32_range (polynomial_31 (charCodes str) 0)) as Hr.
  split; [reflexivity|].
  unfold QArith_base.Qle. simpl. lia.
Qed.

Example simpleHash_ab :
  hash_loop "ab" = 3105 /\ simpleHash "ab" = QArith_base.Qmake 3105 1000000000.
Proof. vm_compute. split; reflexivity. Qed.

(** A text whose polynomial is beyond 32 bits. *)
Example simpleHash_wraps :
  polynomial_31 (charCodes "sensor readings") 0 = 89604383630871596048653 /\
  hash_loop "sensor readings" = 401285389.
Proof. vm_compute. split; reflexivity. Qed.

End SimpleHash.
